(** * Portfolio back end and front-end utilities: a shallow embedding

    The development follows the layout of the repository:

    - [JS]       : the fragment of JavaScript values, strings and sparse
                   arrays that the handlers rely on;
    - [Body]     : request bodies ([req.body]) as ordered key/value objects;
    - [Normalize]: the array-field reconstruction shared by the project
                   write handlers ([features[i]], [tools[i]]);
    - [Projects] : backend/controllers/projectController.js;
    - [Auth]     : the user controller ([loginUser]);
    - [Signature]: the [POST /api/cloudinary-signature] handler of server.js;
    - [Throttle] : frontend/src/utils/throttle.js ([throttle]);
    - [Debounce], [Performance] : the rest of throttle.js;
    - [Session]  : the user controller ([logoutUser]);
    - [CloudinaryClient], [Backend] : the front end's upload utility
                   and the signature endpoint as it calls it;
    - [Cors], [Db] : the origin check of server.js and [connectDB];
    - [Urls], [Upload] : the API base URL of the projects context and
                   the multer file filter;
    - [Dashboard]: the project form of UnifiedDashboard.jsx.

    Third-party libraries (mongoose, jsonwebtoken, cloudinary, [JSON.parse],
    timers) are not part of the repository; their observable outcome is
    taken as a parameter of the handlers: so what the store answers to a
    query or a save, rejections included.  A string stands for its UTF-8
    encoding; [trim] removes the white space and the line terminators of
    ECMAScript, inside ASCII and outside, and
    [String.prototype.toLowerCase], a table of the engine, is a parameter
    of the functions that call it. *)

From stdpp Require Import gmap strings list fin_maps sorting.
From Stdlib Require Import ZArith NArith Ascii String Lia.
From Stdlib Require QArith.

Local Open Scope string_scope.
Local Set Warnings "-register-all".

(* ===================================================================== *)
(** ** JavaScript values                                                  *)
(* ===================================================================== *)

Module JS.

(** JSON-shaped values.  Numbers are restricted to integers: the handlers
    only test them for truthiness. *)
Inductive jsval : Type :=
| JUndefined
| JNull
| JBool (b : bool)
| JNum (n : Z)
| JStr (s : string)
| JArr (elems : list jsval)
| JObj (fields : list (string * jsval)).

(** [Boolean(v)] / the truthiness test of [if (v)] and [v && ...]. *)
Definition truthy (v : jsval) : bool :=
  match v with
  | JUndefined | JNull => false
  | JBool b => b
  | JNum n => negb (n =? 0)%Z
  | JStr s => negb (s =? "")
  | JArr _ | JObj _ => true
  end.

(** [typeof v === 'string'] *)
Definition is_string (v : jsval) : bool :=
  match v with JStr _ => true | _ => false end.

(** [v === 'lit'] for a string literal. *)
Definition strict_eq_str (v : jsval) (lit : string) : bool :=
  match v with JStr s => s =? lit | _ => false end.

(** *** Strings *)

Definition is_digit (c : ascii) : bool :=
  let n := N_of_ascii c in ((48 <=? n) && (n <=? 57))%N.

Definition digit_value (c : ascii) : N := (N_of_ascii c - 48)%N.

(** [s.startsWith(p)] *)
Fixpoint startsWith (s p : string) : bool :=
  match p with
  | EmptyString => true
  | String c p' =>
      match s with
      | EmptyString => false
      | String d s' => (c =? d)%char && startsWith s' p'
      end
  end.

(** [s.includes(p)] *)
Fixpoint includes (s p : string) : bool :=
  startsWith s p ||
  match s with
  | EmptyString => false
  | String _ rest => includes rest p
  end.

(** Longest prefix of decimal digits, and what follows it. *)
Fixpoint span_digits (s : string) : string * string :=
  match s with
  | EmptyString => (EmptyString, EmptyString)
  | String c rest =>
      if is_digit c
      then let '(ds, tl) := span_digits rest in (String c ds, tl)
      else (EmptyString, s)
  end.

(** [key.match(/\[(\d+)\]/)]: the capture group of the leftmost match, if
    any.  A match starts at a '[' that is followed by at least one digit and
    then a ']'; [\d+] is greedy and a shorter run of digits is never
    followed by ']', so no backtracking is needed. *)
Fixpoint match_index (s : string) : option string :=
  match s with
  | EmptyString => None
  | String c rest =>
      if (c =? "[")%char then
        match span_digits rest with
        | (String d ds, String c' _) =>
            if (c' =? "]")%char then Some (String d ds) else match_index rest
        | _ => match_index rest
        end
      else match_index rest
  end.

(** [parseInt(ds)] on a non-empty string of decimal digits.  The exact
    value is kept; JavaScript rounds above 2^53, which only concerns values
    that are not array indices (see [is_array_index]). *)
Definition parseInt_digits (ds : string) : N :=
  let fix go (acc : N) (s : string) : N :=
    match s with
    | EmptyString => acc
    | String c rest => go (10 * acc + digit_value c)%N rest
    end in
  go 0%N ds.

(** White space and line terminators, the characters that
    [String.prototype.trim] removes.  A string stands for the UTF-8
    encoding of the JavaScript string, so that a character takes one to
    four bytes: U+0009 to U+000D and U+0020 take one, *)
Definition is_space (c : ascii) : bool :=
  let n := N_of_ascii c in
  ((n =? 32) || ((9 <=? n) && (n <=? 13)))%N.

(** U+00A0 takes two (C2 A0), *)
Definition is_space2 (c1 c2 : ascii) : bool :=
  ((N_of_ascii c1 =? 194) && (N_of_ascii c2 =? 160))%N.

(** and U+1680 (E1 9A 80), U+2000 to U+200A, U+2028, U+2029 and U+202F
    (E2 80 80 to 8A, A8, A9 and AF), U+205F (E2 81 9F), U+3000 (E3 80 80)
    and U+FEFF (EF BB BF) take three. *)
Definition is_space3 (c1 c2 c3 : ascii) : bool :=
  let n1 := N_of_ascii c1 in
  let n2 := N_of_ascii c2 in
  let n3 := N_of_ascii c3 in
  (((n1 =? 225) && (n2 =? 154) && (n3 =? 128))
   || ((n1 =? 226) && (n2 =? 128)
       && (((128 <=? n3) && (n3 <=? 138)) || (n3 =? 168) || (n3 =? 169) || (n3 =? 175)))
   || ((n1 =? 226) && (n2 =? 129) && (n3 =? 159))
   || ((n1 =? 227) && (n2 =? 128) && (n3 =? 128))
   || ((n1 =? 239) && (n2 =? 187) && (n3 =? 191)))%N.

(** Drops leading white space, one character at a time. *)
Fixpoint trim_start (s : string) : string :=
  match s with
  | EmptyString => EmptyString
  | String c1 r1 =>
      if is_space c1 then trim_start r1
      else
        match r1 with
        | EmptyString => s
        | String c2 r2 =>
            if is_space2 c1 c2 then trim_start r2
            else
              match r2 with
              | EmptyString => s
              | String c3 r3 => if is_space3 c1 c2 c3 then trim_start r3 else s
              end
        end
  end.

(** Drops trailing white space: the string ends where nothing but white
    space follows.  (No white space character begins with a byte that
    continues another character, so the cut falls between characters.) *)
Fixpoint trim_end (s : string) : string :=
  match s with
  | EmptyString => EmptyString
  | String c rest =>
      if trim_start s =? "" then EmptyString else String c (trim_end rest)
  end.

(** [s.trim()] *)
Definition trim (s : string) : string := trim_end (trim_start s).

(** *** Sparse arrays

    [const a = []; a[i] = v; ...] builds an array with holes.  It is kept
    as the list of its defined elements in increasing index order. *)
Definition jsarray : Type := list (N * jsval).

(** Property keys up to 2^32 - 2 are array indices; [a[i] = v] for a larger
    [i] creates an ordinary property that neither [length] nor [filter]
    sees. *)
Definition is_array_index (i : N) : bool := (i <? 2 ^ 32 - 1)%N.

Fixpoint arr_put (i : N) (v : jsval) (a : jsarray) : jsarray :=
  match a with
  | [] => [(i, v)]
  | (j, w) :: a' =>
      if (i <? j)%N then (i, v) :: a
      else if (i =? j)%N then (i, v) :: a'
      else (j, w) :: arr_put i v a'
  end.

(** [a[i] = v] *)
Definition arr_assign (i : N) (v : jsval) (a : jsarray) : jsarray :=
  if is_array_index i then arr_put i v a else a.

(** [a.length] *)
Definition arr_length (a : jsarray) : N :=
  match last a with
  | Some (j, _) => (j + 1)%N
  | None => 0%N
  end.

(** [a.filter(Boolean)]: holes are skipped, falsy elements are dropped. *)
Definition filter_Boolean (a : jsarray) : list jsval :=
  (filter (λ e, truthy e.2 = true) a).*2.

End JS.
Export JS.

(* ===================================================================== *)
(** ** Request bodies                                                     *)
(* ===================================================================== *)

Module Body.

(** [req.body]: an object, kept as its own properties in [Object.keys]
    order. *)
Definition body : Type := list (string * jsval).

(** [b[k]] *)
Fixpoint get (k : string) (b : body) : jsval :=
  match b with
  | [] => JUndefined
  | (k', v) :: b' => if k' =? k then v else get k b'
  end.

(** [b[k] = v]: an existing property keeps its place, a new one is added
    last. *)
Fixpoint set (k : string) (v : jsval) (b : body) : body :=
  match b with
  | [] => [(k, v)]
  | (k', w) :: b' => if k' =? k then (k, v) :: b' else (k', w) :: set k v b'
  end.

(** [delete b[k]] *)
Fixpoint del (k : string) (b : body) : body :=
  match b with
  | [] => []
  | (k', w) :: b' => if k' =? k then b' else (k', w) :: del k b'
  end.

(** [Object.keys(b)] *)
Definition keys (b : body) : list string := b.*1.

End Body.
Abbreviation body := Body.body.

(* ===================================================================== *)
(** ** Array-field reconstruction                                         *)
(* ===================================================================== *)

Module Normalize.

Section WithJSON.

(** [JSON.parse]; [None] stands for the [SyntaxError] it throws. *)
Variable JSON_parse : string -> option jsval.

(** The block
<<
  if (req.body.F && typeof req.body.F === 'string') {
      try { req.body.F = JSON.parse(req.body.F); }
      catch (e) { req.body.F = [req.body.F]; }
  }
>>
    for [F] one of [features], [tools]. *)
Definition parse_string_field (F : string) (b : body) : body :=
  let v := Body.get F b in
  if truthy v && is_string v then
    match v with
    | JStr s =>
        match JSON_parse s with
        | Some parsed => Body.set F parsed b
        | None => Body.set F (JArr [JStr s]) b
        end
    | _ => b
    end
  else b.

(** State of the [Object.keys(req.body).forEach] loop: the body (keys are
    deleted as they are consumed) and the two arrays under construction. *)
Record collected : Type := Collected {
  c_body : body;
  c_features : jsarray;
  c_tools : jsarray
}.

(** One iteration of the loop on [key]. *)
Definition collect_key (st : collected) (key : string) : collected :=
  if startsWith key "features[" then
    match match_index key with
    | Some digits =>
        let index := parseInt_digits digits in
        {| c_body := Body.del key (c_body st);
           c_features := arr_assign index (Body.get key (c_body st)) (c_features st);
           c_tools := c_tools st |}
    | None => st
    end
  else if startsWith key "tools[" then
    match match_index key with
    | Some digits =>
        let index := parseInt_digits digits in
        {| c_body := Body.del key (c_body st);
           c_features := c_features st;
           c_tools := arr_assign index (Body.get key (c_body st)) (c_tools st) |}
    | None => st
    end
  else st.

(** The whole loop, over the keys the body has when the loop starts. *)
Definition collect (b : body) : collected :=
  fold_left collect_key (Body.keys b)
            {| c_body := b; c_features := []; c_tools := [] |}.

(** [if (a.length > 0) req.body.F = a.filter(Boolean);] *)
Definition store_array (F : string) (a : jsarray) (b : body) : body :=
  if (0 <? arr_length a)%N then Body.set F (JArr (filter_Boolean a)) b else b.

(** The normalisation that [addProject] (JSON branch, lines 86-122, and
    multipart branch, lines 140-176) and [updateProject] (lines 265-301)
    each spell out; the three copies are identical. *)
Definition normalize_arrays (b : body) : body :=
  let b1 := parse_string_field "features" b in
  let b2 := parse_string_field "tools" b1 in
  let st := collect b2 in
  let b3 := store_array "features" (c_features st) (c_body st) in
  store_array "tools" (c_tools st) b3.

End WithJSON.

End Normalize.
Export Normalize.

(* ===================================================================== *)
(** ** Handler plumbing: responses, exceptions, early return              *)
(* ===================================================================== *)

Module Http.

(** Modelled from the spec: the Project schema (models/Project.js is not
    among the sources).  Section 3 of the specification lists the fields;
    [_id] and [createdAt] are assigned by the store.  An optional string
    that was never set reads as the empty string. *)
Record Project : Type := {
  _id : string;
  title : string;
  description : string;
  features : list string;
  tools : list string;
  githubLink : string;
  deployedUrl : string;
  duration : string;
  challenges : string;
  cloudinaryVideoUrl : string;
  cloudinaryVideoPublicId : string;
  cloudinaryThumbnailUrl : string;
  cloudinaryThumbnailPublicId : string;
  createdAt : Z
}.

(** The JSON documents the project handlers send. *)
Inductive payload : Type :=
| Message (success : bool) (message : string)
| Failure (message : string) (error : string)
| Invalid (message : string) (errors : list (string * string))
| One (message : option string) (project : option Project)
| Many (count : nat) (projects : list Project).

(** [res.status(s).json(j)] *)
Record response : Type := { status : nat; json : payload }.

(** What a handler can catch.  [ValidationError] is the one error whose
    [name] is ['ValidationError']; it carries a message per field. *)
Inductive exn : Type :=
| ValidationError (errors : list (string * string))
| Rejected (message : string).

Definition exn_message (e : exn) : string :=
  match e with
  | ValidationError _ => "Validation failed"
  | Rejected m => m
  end.

(** A statement either yields a value, leaves the handler with
    [return res...], or throws. *)
Inductive outcome (A : Type) : Type :=
| Value (a : A)
| Return (r : response)
| Throw (e : exn).
Arguments Value {A} a.
Arguments Return {A} r.
Arguments Throw {A} e.

Section Monad.
Context {W : Type}.

Definition M (A : Type) : Type := W -> outcome A * W.

Definition ret {A} (a : A) : M A := fun w => (Value a, w).
Definition bind {A B} (m : M A) (k : A -> M B) : M B :=
  fun w =>
    match m w with
    | (Value a, w') => k a w'
    | (Return r, w') => (Return r, w')
    | (Throw e, w') => (Throw e, w')
    end.
Definition throw {A} (e : exn) : M A := fun w => (Throw e, w).
Definition early {A} (r : response) : M A := fun w => (Return r, w).
Definition modify (f : W -> W) : M unit := fun w => (Value tt, f w).
Definition gets {A} (f : W -> A) : M A := fun w => (Value (f w), w).

(** [try { m } catch (e) { h e }] inside a handler: a [return] in [m]
    leaves the handler, an exception is handed to [h]. *)
Definition try_catch {A} (m : M A) (h : exn -> M A) : M A :=
  fun w =>
    match m w with
    | (Throw e, w') => h e w'
    | other => other
    end.

(** The [try { ... } catch (error) { ... }] that wraps a whole handler,
    whose two blocks both end by sending a response. *)
Definition handler (m : M response) (h : exn -> M response)
  : W -> response * W :=
  fun w =>
    match try_catch m h w with
    | (Value r, w') | (Return r, w') => (r, w')
    | (Throw e, w') => ({| status := 500; json := Failure "unhandled" (exn_message e) |}, w')
    end.
End Monad.
Arguments M : clear implicits.

(** Sequencing is written with the usual notations: [x ← m; k] and
    [m;; k]. *)
#[export] Instance M_ret {W} : MRet (M W) := fun A a => ret a.
#[export] Instance M_bind {W} : MBind (M W) := fun A B k m => bind m k.

(** [if (c) { m }] *)
Definition when_ {W} (c : bool) (m : M W unit) : M W unit :=
  if c then m else ret tt.

End Http.
Export Http.

(* ===================================================================== *)
(** ** backend/controllers/projectController.js                           *)
(* ===================================================================== *)

Module Projects.

Inductive media_kind : Type := Video | Image.

(** An uploaded file as multer hands it over ([file.buffer || file.path]). *)
Definition file : Type := string.

(** Calls that reach the external media store, in the order issued. *)
Inductive media_call : Type :=
| Destroy (kind : media_kind) (publicId : string)
| Upload (kind : media_kind) (input : file).

(** Queries sent to the project collection, in the order issued. *)
Inductive db_call : Type :=
| Find
| FindById (id : string)
| Save
| FindByIdAndUpdate (id : string)
| FindByIdAndDelete (id : string).

(** What lies outside the repository.  The collection is reached through
    mongoose, the media store through utils/cloudinaryUpload (not among the
    sources); a call to either is recorded and its outcome is read here. *)
Record services : Type := {
  (** [mongoose.Types.ObjectId.isValid] *)
  ObjectId_isValid : string -> bool;
  (** [JSON.parse]; [None] when it throws *)
  JSON_parse : string -> option jsval;
  (** does the promise of [deleteVideoFromCloudinary] /
      [deleteImageFromCloudinary] resolve ([true]) or reject ([false])? *)
  destroy_resolves : media_kind -> string -> bool;
  (** [uploadVideoToCloudinary] / [uploadImageToCloudinary]: the [url] and
      [public_id] of the result, or [None] when the promise rejects *)
  upload_result : media_kind -> file -> option (string * string);
  (** what [Project.find().sort({ createdAt: -1 })] comes to when it is
      asked of the collection, after the queries sent so far: the
      documents it resolves to, or the message of the error it rejects
      with *)
  find_sorted : gmap string Project -> list db_call -> list Project + string;
  (** does [project.save()] reject a document that passed validation, for
      a reason of the store's own?  [Some message] when it does *)
  save_error : gmap string Project -> Project -> option string;
  (** the identifier mongoose gives to a new document *)
  new_ObjectId : gmap string Project -> string;
  (** the clock read when a document is created *)
  now : Z
}.

Record world : Type := {
  projects : gmap string Project;
  db_calls : list db_call;
  media_calls : list media_call;
  console : list string
}.

Record request : Type := {
  params_id : string;                 (* req.params.id *)
  content_type : option string;       (* req.headers["content-type"] *)
  req_body : body;                    (* req.body *)
  files_video : list file;            (* req.files['video'] *)
  files_thumbnail : list file         (* req.files['thumbnail'] *)
}.

Definition with_db_call (c : db_call) (w : world) : world :=
  {| projects := projects w; db_calls := db_calls w ++ [c];
     media_calls := media_calls w; console := console w |}.
Definition with_media_call (c : media_call) (w : world) : world :=
  {| projects := projects w; db_calls := db_calls w;
     media_calls := media_calls w ++ [c]; console := console w |}.
Definition with_console (msg : string) (w : world) : world :=
  {| projects := projects w; db_calls := db_calls w;
     media_calls := media_calls w; console := console w ++ [msg] |}.
Definition with_projects (ps : gmap string Project) (w : world) : world :=
  {| projects := ps; db_calls := db_calls w;
     media_calls := media_calls w; console := console w |}.

Definition log_db (c : db_call) : M world unit := modify (with_db_call c).
Definition log_media (c : media_call) : M world unit := modify (with_media_call c).
(** [console.error(msg, ...)] / [console.warn(msg, ...)] *)
Definition console_log (msg : string) : M world unit := modify (with_console msg).
Definition put_projects (ps : gmap string Project) : M world unit :=
  modify (with_projects ps).

(** *** The schema, as far as the handlers observe it *)

(** Result of casting one body value to a schema path. *)
Inductive cast (A : Type) : Type :=
| Absent              (* the body does not mention the path *)
| Cast (a : A)
| CastError.
Arguments Absent {A}.
Arguments Cast {A} a.
Arguments CastError {A}.

(** Modelled from the spec: the cast of a body value to a String path of
    the Project schema (models/Project.js is missing).  [null] clears the
    path; a value of another type is malformed. *)
Definition cast_string (v : jsval) : cast string :=
  match v with
  | JUndefined => Absent
  | JNull => Cast ""
  | JStr s => Cast s
  | _ => CastError
  end.

Fixpoint cast_strings (vs : list jsval) : option (list string) :=
  match vs with
  | [] => Some []
  | JStr s :: vs' => option_map (cons s) (cast_strings vs')
  | _ :: _ => None
  end.

(** Modelled from the spec: the cast of a body value to a path of the
    Project schema that holds an ordered list of strings (models/Project.js
    is missing).  A lone string is stored as a one-element list. *)
Definition cast_string_list (v : jsval) : cast (list string) :=
  match v with
  | JUndefined => Absent
  | JNull => Cast []
  | JStr s => Cast [s]
  | JArr vs => match cast_strings vs with Some l => Cast l | None => CastError end
  | _ => CastError
  end.

Definition cast_errors {A} (path : string) (c : cast A) : list (string * string) :=
  match c with
  | CastError => [(path, String.append "Cast failed for path " path)]
  | _ => []
  end.

Definition cast_or {A} (c : cast A) (old : A) : A :=
  match c with Cast a => a | _ => old end.

(** Modelled from the spec: the validators of the Project schema
    (models/Project.js is missing); [title] and [description] are
    required. *)
Definition required_errors (p : Project) : list (string * string) :=
  (if title p =? "" then [("title", "Path title is required.")] else []) ++
  (if description p =? "" then [("description", "Path description is required.")] else []).

(** Modelled from the spec: the merge of a body into a document of the
    Project schema (models/Project.js is missing).  The paths of [b] that
    the schema knows are cast and laid over [old]; paths that [b] does not
    mention keep their value, other keys of [b] are ignored. *)
Definition apply_body (b : body) (old : Project) : Project :=
  {| _id := _id old;
     title := cast_or (cast_string (Body.get "title" b)) (title old);
     description := cast_or (cast_string (Body.get "description" b)) (description old);
     features := cast_or (cast_string_list (Body.get "features" b)) (features old);
     tools := cast_or (cast_string_list (Body.get "tools" b)) (tools old);
     githubLink := cast_or (cast_string (Body.get "githubLink" b)) (githubLink old);
     deployedUrl := cast_or (cast_string (Body.get "deployedUrl" b)) (deployedUrl old);
     duration := cast_or (cast_string (Body.get "duration" b)) (duration old);
     challenges := cast_or (cast_string (Body.get "challenges" b)) (challenges old);
     cloudinaryVideoUrl :=
       cast_or (cast_string (Body.get "cloudinaryVideoUrl" b)) (cloudinaryVideoUrl old);
     cloudinaryVideoPublicId :=
       cast_or (cast_string (Body.get "cloudinaryVideoPublicId" b)) (cloudinaryVideoPublicId old);
     cloudinaryThumbnailUrl :=
       cast_or (cast_string (Body.get "cloudinaryThumbnailUrl" b)) (cloudinaryThumbnailUrl old);
     cloudinaryThumbnailPublicId :=
       cast_or (cast_string (Body.get "cloudinaryThumbnailPublicId" b))
               (cloudinaryThumbnailPublicId old);
     createdAt := createdAt old |}.

Definition body_cast_errors (b : body) : list (string * string) :=
  cast_errors "title" (cast_string (Body.get "title" b)) ++
  cast_errors "description" (cast_string (Body.get "description" b)) ++
  cast_errors "features" (cast_string_list (Body.get "features" b)) ++
  cast_errors "tools" (cast_string_list (Body.get "tools" b)) ++
  cast_errors "githubLink" (cast_string (Body.get "githubLink" b)) ++
  cast_errors "deployedUrl" (cast_string (Body.get "deployedUrl" b)) ++
  cast_errors "duration" (cast_string (Body.get "duration" b)) ++
  cast_errors "challenges" (cast_string (Body.get "challenges" b)) ++
  cast_errors "cloudinaryVideoUrl" (cast_string (Body.get "cloudinaryVideoUrl" b)) ++
  cast_errors "cloudinaryVideoPublicId" (cast_string (Body.get "cloudinaryVideoPublicId" b)) ++
  cast_errors "cloudinaryThumbnailUrl" (cast_string (Body.get "cloudinaryThumbnailUrl" b)) ++
  cast_errors "cloudinaryThumbnailPublicId"
              (cast_string (Body.get "cloudinaryThumbnailPublicId" b)).

(** A document before any path is set. *)
Definition blank (id : string) (t : Z) : Project :=
  {| _id := id; title := ""; description := ""; features := []; tools := [];
     githubLink := ""; deployedUrl := ""; duration := ""; challenges := "";
     cloudinaryVideoUrl := ""; cloudinaryVideoPublicId := "";
     cloudinaryThumbnailUrl := ""; cloudinaryThumbnailPublicId := "";
     createdAt := t |}.

(** [p] comes no later than [q] in a listing sorted by
    [{ createdAt: -1 }]. *)
Definition newer_first (p q : Project) : Prop := (createdAt q <= createdAt p)%Z.

#[export] Instance newer_first_dec p q : Decision (newer_first p q).
Proof. unfold newer_first. apply _. Defined.

Section WithServices.

Variable E : services.

(** *** The collection *)

(** [Project.find().sort({ createdAt: -1 })]: the query is sent, and what
    the store answers is passed on. *)
Definition Project_find_sorted : M world (list Project) :=
  ps ← gets projects;
  sent ← gets db_calls;
  log_db Find;;
  match find_sorted E ps sent with
  | inl docs => mret docs
  | inr message => throw (Rejected message)
  end.

(** [Project.findById(id)]; [None] is [null]. *)
Definition Project_findById (id : string) : M world (option Project) :=
  log_db (FindById id);;
  ps ← gets projects;
  mret (ps !! id).

(** [new Project(b)] followed by [project.save()].
    Modelled from the spec (section 4.1, [create]): the fields are
    validated, then the record is persisted under a new id and returned;
    a validation failure is thrown as a field-name to message mapping.
    The store may still reject a valid document. *)
Definition Project_save (b : body) : M world Project :=
  log_db Save;;
  ps ← gets projects;
  let doc := apply_body b (blank (new_ObjectId E ps) (now E)) in
  match (body_cast_errors b ++ required_errors doc)%list with
  | [] =>
      match save_error E ps doc with
      | Some message => throw (Rejected message)
      | None => put_projects (<[_id doc := doc]> ps);; mret doc
      end
  | errors => throw (ValidationError errors)
  end.

(** [Project.findByIdAndUpdate(id, b, { new: true, runValidators: true })].
    Modelled from the spec (section 4.1, [update]): the fields are merged
    into the existing record, which is validated again, stored and
    returned. *)
Definition Project_findByIdAndUpdate (id : string) (b : body)
  : M world (option Project) :=
  log_db (FindByIdAndUpdate id);;
  ps ← gets projects;
  match ps !! id with
  | None => mret None
  | Some old =>
      let doc := apply_body b old in
      match (body_cast_errors b ++ required_errors doc)%list with
      | [] => put_projects (<[id := doc]> ps);; mret (Some doc)
      | errors => throw (ValidationError errors)
      end
  end.

(** [Project.findByIdAndDelete(id)] *)
Definition Project_findByIdAndDelete (id : string) : M world unit :=
  log_db (FindByIdAndDelete id);;
  ps ← gets projects;
  put_projects (delete id ps).

(** *** The media store (utils/cloudinaryUpload) *)

(** Modelled from the spec: [deleteVideoFromCloudinary(publicId)] for
    [Video] and [deleteImageFromCloudinary(publicId)] for [Image], of
    utils/cloudinaryUpload, which is missing (section 4.2, [deleteAsset]:
    a failure is left to the caller to swallow).  The call is issued and
    its promise resolves or rejects. *)
Definition deleteFromCloudinary (kind : media_kind) (publicId : string)
  : M world unit :=
  log_media (Destroy kind publicId);;
  if destroy_resolves E kind publicId then mret tt
  else throw (Rejected "media store: destroy failed").

(** Modelled from the spec: [uploadVideoToCloudinary(input)] and
    [uploadImageToCloudinary(input)] of utils/cloudinaryUpload, which is
    missing (section 4.2, [uploadVideo] / [uploadImage]): the call is issued
    and answers with a URL and a publicId, or rejects. *)
Definition uploadToCloudinary (kind : media_kind) (input : file)
  : M world (string * string) :=
  log_media (Upload kind input);;
  match upload_result E kind input with
  | Some r => mret r
  | None => throw (Rejected "media store: upload failed")
  end.

(** *** The handlers *)

Definition send (s : nat) (j : payload) : response := {| status := s; json := j |}.

(** [extractValidationErrors(error)] (lines 11-20) *)
Definition extractValidationErrors (error : exn) : option (list (string * string)) :=
  match error with
  | ValidationError errors => Some errors
  | _ => None
  end.

(** [getProjects] (lines 23-39) *)
Definition getProjects (req : request) : world -> response * world :=
  handler
    (projects ← Project_find_sorted;
     mret (send 200 (Many (List.length projects) projects)))
    (fun error =>
       console_log "Error fetching projects:";;
       mret (send 500 (Failure "Error fetching projects" (exn_message error)))).

(** The guard every by-id handler starts with. *)
Definition check_id (id : string) : M world unit :=
  when_ (negb (ObjectId_isValid E id))
        (early (send 400 (Message false "Invalid project ID format"))).

(** [getProject] (lines 42-74) *)
Definition getProject (req : request) : world -> response * world :=
  handler
    (let id := params_id req in
     check_id id;;
     project ← Project_findById id;
     match project with
     | None => early (send 404 (Message false "Project not found"))
     | Some p => mret (send 200 (One None (Some p)))
     end)
    (fun error =>
       console_log "Error fetching project:";;
       mret (send 500 (Failure "Error fetching project" (exn_message error)))).

(** The legacy server-side upload of [addProject] (lines 179-194 for the
    video, 196-211 for the thumbnail). *)
Definition add_upload (kind : media_kind) (urlKey idKey failure : string)
    (files : list file) (b : body) : M world body :=
  match head files with
  | Some input =>
      try_catch
        (r ← uploadToCloudinary kind input;
         mret (Body.set idKey (JStr r.2) (Body.set urlKey (JStr r.1) b)))
        (fun uploadError =>
           console_log (String.append failure ":");;
           early (send 500 (Failure failure (exn_message uploadError))))
  | None => mret b
  end.

(** [addProject] (lines 79-241) *)
Definition addProject (req : request) : world -> response * world :=
  handler
    (let contentType := default "" (content_type req) in
     if includes contentType "application/json" then
       let b := normalize_arrays (JSON_parse E) (req_body req) in
       project ← Project_save b;
       early (send 201 (One (Some "Project added successfully") (Some project)))
     else
       let b := normalize_arrays (JSON_parse E) (req_body req) in
       b ← add_upload Video "cloudinaryVideoUrl" "cloudinaryVideoPublicId"
             "Error uploading video to Cloudinary" (files_video req) b;
       b ← add_upload Image "cloudinaryThumbnailUrl" "cloudinaryThumbnailPublicId"
             "Error uploading thumbnail to Cloudinary" (files_thumbnail req) b;
       project ← Project_save b;
       early (send 201 (One (Some "Project added successfully") (Some project))))
    (fun error =>
       console_log "Error adding project:";;
       match extractValidationErrors error with
       | Some validationErrors =>
           early (send 400 (Invalid "Validation error" validationErrors))
       | None => mret (send 500 (Failure "Error adding project" (exn_message error)))
       end).

(** [try { await delete...FromCloudinary(id); } catch (deleteError)
    { console.warn(...); }] *)
Definition destroy_quietly (kind : media_kind) (publicId warning : string)
  : M world unit :=
  try_catch (deleteFromCloudinary kind publicId)
            (fun deleteError => console_log warning).

(** The names that differ between the video block (lines 304-350) and the
    thumbnail block (lines 353-399) of [updateProject]. *)
Record media_keys : Type := {
  kind : media_kind;
  urlKey : string;
  idKey : string;
  removeKey : string;
  warn_replaced : string;
  warn_removed : string;
  warn_legacy : string;
  upload_failure : string
}.

Definition video_keys : media_keys :=
  {| kind := Video;
     urlKey := "cloudinaryVideoUrl";
     idKey := "cloudinaryVideoPublicId";
     removeKey := "removeVideo";
     warn_replaced := "Error deleting old video from Cloudinary:";
     warn_removed := "Error deleting video from Cloudinary:";
     warn_legacy := "Error deleting old video:";
     upload_failure := "Error uploading video to Cloudinary" |}.

Definition thumbnail_keys : media_keys :=
  {| kind := Image;
     urlKey := "cloudinaryThumbnailUrl";
     idKey := "cloudinaryThumbnailPublicId";
     removeKey := "removeThumbnail";
     warn_replaced := "Error deleting old thumbnail from Cloudinary:";
     warn_removed := "Error deleting thumbnail from Cloudinary:";
     warn_legacy := "Error deleting old thumbnail:";
     upload_failure := "Error uploading thumbnail to Cloudinary" |}.

(** One media block of [updateProject]; [existingId] is the publicId of the
    stored record, [files] the uploaded files of that field. *)
Definition update_media (K : media_keys) (existingId : string)
    (files : list file) (b : body) : M world body :=
  if truthy (Body.get (urlKey K) b) && truthy (Body.get (idKey K) b) then
    (* the client already uploaded: drop the old asset if it differs *)
    when_ (negb (existingId =? "")
           && negb (strict_eq_str (Body.get (idKey K) b) existingId))
          (destroy_quietly (kind K) existingId (warn_replaced K));;
    mret b
  else if strict_eq_str (Body.get (removeKey K) b) "true"
          || strict_eq_str (Body.get (urlKey K) b) "" then
    (* explicit removal *)
    if negb (existingId =? "") then
      destroy_quietly (kind K) existingId (warn_removed K);;
      mret (Body.set (idKey K) (JStr "") (Body.set (urlKey K) (JStr "") b))
    else mret b
  else
    match head files with
    | Some input =>
        (* legacy fallback: server-side upload *)
        when_ (negb (existingId =? ""))
              (destroy_quietly (kind K) existingId (warn_legacy K));;
        try_catch
          (r ← uploadToCloudinary (kind K) input;
           mret (Body.set (idKey K) (JStr r.2) (Body.set (urlKey K) (JStr r.1) b)))
          (fun uploadError =>
             console_log (String.append (upload_failure K) ":");;
             early (send 500 (Failure (upload_failure K) (exn_message uploadError))))
    | None => mret b
    end.

(** [updateProject] (lines 244-432) *)
Definition updateProject (req : request) : world -> response * world :=
  handler
    (let id := params_id req in
     check_id id;;
     existing ← Project_findById id;
     match existing with
     | None => early (send 404 (Message false "Project not found"))
     | Some existingProject =>
         let b := normalize_arrays (JSON_parse E) (req_body req) in
         b ← update_media video_keys (cloudinaryVideoPublicId existingProject)
               (files_video req) b;
         b ← update_media thumbnail_keys (cloudinaryThumbnailPublicId existingProject)
               (files_thumbnail req) b;
         updatedProject ← Project_findByIdAndUpdate id b;
         mret (send 200 (One (Some "Project updated successfully") updatedProject))
     end)
    (fun error =>
       console_log "Error updating project:";;
       match extractValidationErrors error with
       | Some validationErrors =>
           early (send 400 (Invalid "Validation error" validationErrors))
       | None => mret (send 500 (Failure "Error updating project" (exn_message error)))
       end).

(** [deleteProject] (lines 435-482) *)
Definition deleteProject (req : request) : world -> response * world :=
  handler
    (let id := params_id req in
     check_id id;;
     found ← Project_findById id;
     match found with
     | None => early (send 404 (Message false "Project not found"))
     | Some project =>
         when_ (negb (cloudinaryVideoPublicId project =? ""))
               (deleteFromCloudinary Video (cloudinaryVideoPublicId project));;
         when_ (negb (cloudinaryThumbnailPublicId project =? ""))
               (deleteFromCloudinary Image (cloudinaryThumbnailPublicId project));;
         Project_findByIdAndDelete id;;
         mret (send 200 (One (Some "Project deleted successfully") (Some project)))
     end)
    (fun error =>
       console_log "Error deleting project:";;
       mret (send 500 (Failure "Error deleting project" (exn_message error)))).

End WithServices.

End Projects.
Export Projects.

(* ===================================================================== *)
(** ** The user controller: [loginUser]                                   *)
(* ===================================================================== *)

Module Auth.

(** Modelled from the spec: the User schema (models/User.js is not among
    the sources); these are the paths [loginUser] reads. *)
Record User : Type := {
  user_id : string;          (* user._id *)
  username : string;
  password : string;
  profilePicLink : string
}.

(** [process.env] *)
Record env : Type := {
  SECRET_KEY : option string;
  NODE_ENV : option string
}.

Record request : Type := {
  body_username : string;             (* req.body.username *)
  body_password : string;             (* req.body.password *)
  secure : bool;                      (* req.secure *)
  x_forwarded_proto : option string   (* req.headers['x-forwarded-proto'] *)
}.

(** The first argument of [jwt.sign]. *)
Record claims : Type := { claim_id : string; claim_username : string }.

(** The options of [res.cookie]. *)
Record cookie : Type := {
  cookie_name : string;
  cookie_value : string;
  httpOnly : bool;
  cookie_secure : bool;
  sameSite : string;
  maxAge : Z;                 (* milliseconds *)
  cookie_path : string
}.

(** The [user] object of a successful reply. *)
Record user_info : Type := { info_username : string; info_profilePic : string }.

Record response : Type := {
  status : nat;
  message : string;
  user : option user_info;
  cookies : list cookie       (* Set-Cookie headers of the reply *)
}.

Section WithLibraries.

(** [jwt.sign(payload, secret, { expiresIn })]: the token, or [None] when
    the library throws. *)
Variable jwt_sign : claims -> option string -> string -> option string.

Variable process_env : env.

(** The users collection, in the order [findOne] scans it. *)
Variable users : list User.

(** [User.findOne({ username })] *)
Definition User_findOne (name : string) : option User :=
  List.find (fun u => username u =? name) users.

Definition isProduction (req : request) : bool :=
  match NODE_ENV process_env with Some v => v =? "production" | None => false end
  || secure req
  || match x_forwarded_proto req with Some v => v =? "https" | None => false end.

(** [loginUser] (lines 4-41) *)
Definition loginUser (req : request) : response :=
  match User_findOne (body_username req) with
  | None =>
      {| status := 404; message := "User not found"; user := None; cookies := [] |}
  | Some u =>
      if negb (password u =? body_password req) then
        {| status := 401; message := "Invalid credentials"; user := None; cookies := [] |}
      else
        match jwt_sign {| claim_id := user_id u; claim_username := username u |}
                       (SECRET_KEY process_env) "1d" with
        | None =>
            (* thrown inside [try]: the [catch] block answers *)
            {| status := 500; message := "Server error"; user := None; cookies := [] |}
        | Some token =>
            {| status := 200;
               message := "Login successful";
               user := Some {| info_username := username u;
                               info_profilePic := profilePicLink u |};
               cookies :=
                 [ {| cookie_name := "token";
                      cookie_value := token;
                      httpOnly := true;
                      cookie_secure := isProduction req;
                      sameSite := if isProduction req then "None" else "Lax";
                      maxAge := 24 * 60 * 60 * 1000;
                      cookie_path := "/" |} ] |}
        end
  end.

End WithLibraries.

End Auth.

(* ===================================================================== *)
(** ** server.js: [POST /api/cloudinary-signature]                        *)
(* ===================================================================== *)

Module Signature.

(** [process.env] *)
Record env : Type := {
  CLOUDINARY_API_SECRET : option string;
  CLOUDINARY_API_KEY : option string;
  CLOUDINARY_CLOUD_NAME : option string
}.

(** [!process.env.X]: unset or empty. *)
Definition unset (v : option string) : bool :=
  match v with
  | None => true
  | Some s => s =? ""
  end.

Inductive payload : Type :=
| Signed (signature : string) (timestamp : Z) (folder : string)
         (resource_type : jsval) (api_key : string) (cloud_name : string)
| NotConfigured (message : string)
| Failed (message : string) (error : string).

Record response : Type := { status : nat; json : payload }.

(** The object handed to the signing utility, in insertion order. *)
Definition params : Type := list (string * jsval).

(** [if (folder && folder.trim()) { params.folder = folder.trim(); }]
    The outer [None] is the [TypeError] of calling [trim] on a truthy value
    that is not a string. *)
Definition folder_params (folder : jsval) : option params :=
  if truthy folder then
    match folder with
    | JStr s => if negb (trim s =? "") then Some [("folder", JStr (trim s))] else Some []
    | _ => None
    end
  else Some [].

(** [Math.round(new Date().getTime() / 1000)] *)
Definition seconds (now_ms : Z) : Z := ((now_ms + 500) / 1000)%Z.

(** The parameters that get signed. *)
Definition signed_params (folder : jsval) (now_ms : Z) : option params :=
  match folder_params folder with
  | Some ps => Some (ps ++ [("timestamp", JNum (seconds now_ms))])%list
  | None => None
  end.

Section WithLibraries.

(** [cloudinary.utils.api_sign_request(params, secret)] *)
Variable api_sign_request : params -> string -> string.

Variable process_env : env.

(** [new Date().getTime()] *)
Variable now_ms : Z.

(** The handler; [folder] and [resource_type] are the two properties read
    from [req.body]. *)
Definition cloudinary_signature (folder resource_type : jsval) : response :=
  let resource_type :=
    match resource_type with JUndefined => JStr "auto" | v => v end in
  if unset (CLOUDINARY_API_SECRET process_env)
     || unset (CLOUDINARY_API_KEY process_env)
     || unset (CLOUDINARY_CLOUD_NAME process_env)
  then
    {| status := 500;
       json := NotConfigured "Cloudinary credentials not configured on server. Please set CLOUDINARY_API_SECRET, CLOUDINARY_API_KEY, and CLOUDINARY_CLOUD_NAME environment variables." |}
  else
    match signed_params folder now_ms with
    | None =>
        {| status := 500;
           json := Failed "Failed to generate upload signature" "folder.trim is not a function" |}
    | Some ps =>
        let signature :=
          api_sign_request ps (default "" (CLOUDINARY_API_SECRET process_env)) in
        {| status := 200;
           json := Signed signature
                     (seconds now_ms)
                     (match Body.get "folder" ps with JStr f => f | _ => "" end)
                     (if truthy resource_type then resource_type else JStr "auto")
                     (default "" (CLOUDINARY_API_KEY process_env))
                     (default "" (CLOUDINARY_CLOUD_NAME process_env)) |}
    end.

End WithLibraries.

End Signature.

(* ===================================================================== *)
(** ** frontend/src/utils/throttle.js                                     *)
(* ===================================================================== *)

Module Throttle.

Section Throttled.

(** What one call passes on: [this] and the argument list. *)
Context {Args : Type}.

(** [limit], in milliseconds. *)
Variable limit : Z.

(** The variables captured by the closure, the page's table of pending
    timers, and the record of what [func] was applied to. *)
Record state : Type := {
  lastCall : Z;
  lastArgs : option Args;          (* [lastThis] and [lastArgs]; [None] is null *)
  timeoutId : option positive;     (* [None] is null *)
  timers : list (positive * Z);    (* pending [setTimeout(later, delay)]: id, delay *)
  next_timer : positive;           (* the id the next [setTimeout] returns *)
  applied : list (Z * option Args) (* [func.apply] so far: time, arguments *)
}.

(** [throttle(func, limit)] before any call. *)
Definition initial : state :=
  {| lastCall := 0; lastArgs := None; timeoutId := None;
     timers := []; next_timer := 1%positive; applied := [] |}.

(** [clearTimeout(id)] *)
Definition clearTimeout (id : positive) (ts : list (positive * Z)) : list (positive * Z) :=
  List.filter (fun t => negb (t.1 =? id)%positive) ts.

(** [later], run by the timer at time [now]. *)
Definition later (now : Z) (st : state) : state :=
  {| lastCall := now;
     lastArgs := lastArgs st;
     timeoutId := None;
     timers := timers st;
     next_timer := next_timer st;
     applied := applied st ++ [(now, lastArgs st)] |}.

(** [throttled(...args)] called at time [now]. *)
Definition throttled (now : Z) (args : Args) (st : state) : state :=
  let remaining := (limit - (now - lastCall st))%Z in
  if ((remaining <=? 0) || (remaining >? limit))%Z then
    {| lastCall := now;
       lastArgs := Some args;
       timeoutId := None;
       timers := match timeoutId st with
                 | Some id => clearTimeout id (timers st)
                 | None => timers st
                 end;
       next_timer := next_timer st;
       applied := applied st ++ [(now, Some args)] |}
  else
    match timeoutId st with
    | None =>
        {| lastCall := lastCall st;
           lastArgs := Some args;
           timeoutId := Some (next_timer st);
           timers := timers st ++ [(next_timer st, remaining)];
           next_timer := Pos.succ (next_timer st);
           applied := applied st |}
    | Some _ =>
        {| lastCall := lastCall st;
           lastArgs := Some args;
           timeoutId := timeoutId st;
           timers := timers st;
           next_timer := next_timer st;
           applied := applied st |}
    end.

(** What can happen to a throttled function: it is called, or one of its
    pending timers comes due. *)
Inductive event : Type :=
| Call (now : Z) (args : Args)
| Fire (id : positive) (now : Z).

(** One event; a timer that is not pending cannot fire. *)
Definition step (st : state) (e : event) : option state :=
  match e with
  | Call now args => Some (throttled now args st)
  | Fire id now =>
      if existsb (fun t => (t.1 =? id)%positive) (timers st) then
        Some (later now {| lastCall := lastCall st;
                           lastArgs := lastArgs st;
                           timeoutId := timeoutId st;
                           timers := clearTimeout id (timers st);
                           next_timer := next_timer st;
                           applied := applied st |})
      else None
  end.

(** A sequence of events, from a given state. *)
Fixpoint run (st : state) (es : list event) : option state :=
  match es with
  | [] => Some st
  | e :: es' =>
      match step st e with
      | Some st' => run st' es'
      | None => None
      end
  end.

(** The arguments of the most recent call in a sequence of events. *)
Fixpoint latest_args (es : list event) : option Args :=
  match es with
  | [] => None
  | e :: es' =>
      match latest_args es' with
      | Some a => Some a
      | None => match e with Call _ a => Some a | Fire _ _ => None end
      end
  end.

(** What holds of every state a throttled function can be in after the
    events [es]: the timer table holds the timer [timeoutId] names and no
    other, the stored arguments are those of the latest call, and
    [lastCall] is the time [func] was last applied. *)
Record reachable_inv (es : list event) (st : state) : Prop := {
  inv_timers :
    match timeoutId st with
    | Some id => exists delay, timers st = [(id, delay)]
    | None => timers st = []
    end;
  inv_args : lastArgs st = latest_args es;
  inv_lastCall : lastCall st = default 0%Z (fst <$> last (applied st))
}.

End Throttled.

End Throttle.

(* ===================================================================== *)
(** ** Reference definitions used by the statements below                 *)
(* ===================================================================== *)

Module Spec.

(** The array index a body key denotes for field [F] ([features] or
    [tools]), if it is one of the keys the reconstruction consumes. *)
Definition field_index (F key : string) : option N :=
  if startsWith key (String.append F "[") then parseInt_digits <$> match_index key
  else None.

(** The indexed entries of field [F] in a body, in key order, as
    (index, value); indices that are not array indices are left out. *)
Definition indexed_entries (F : string) (b : body) : list (N * jsval) :=
  omap (fun kv => i ← field_index F kv.1;
                  if is_array_index i then Some (i, kv.2) else None) b.

Definition index_le (x y : N * jsval) : Prop := (x.1 <= y.1)%N.
Definition index_lt (x y : N * jsval) : Prop := (x.1 < y.1)%N.

#[export] Instance index_le_dec x y : Decision (index_le x y).
Proof. unfold index_le. apply _. Defined.

(** The value each index ends up with: a later key overwrites an earlier
    key of the same index. *)
Definition by_index (es : list (N * jsval)) : gmap N jsval :=
  list_to_map (reverse es).

(** What the specification asks of the reconstruction: the entries listed
    by increasing index, entries without a (truthy) value removed. *)
Definition reconstruct_spec (es : list (N * jsval)) : list jsval :=
  (filter (λ e, truthy e.2 = true) (merge_sort index_le (map_to_list (by_index es)))).*2.

(** Assigning entries one after the other, as the loop does. *)
Definition put_all (es : list (N * jsval)) (a : jsarray) : jsarray :=
  fold_left (fun a e => arr_put e.1 e.2 a) es a.

(** The outcome of the stringified-JSON fallback on a string [s]. *)
Definition parsed_or_singleton (JSON_parse : string -> option jsval) (s : string) : jsval :=
  match JSON_parse s with
  | Some v => v
  | None => JArr [JStr s]
  end.

(** The media pairing of a stored record: a URL is empty exactly when its
    publicId is. *)
Definition paired (url publicId : string) : Prop := url = "" ↔ publicId = "".

Definition media_paired (p : Project) : Prop :=
  paired (cloudinaryVideoUrl p) (cloudinaryVideoPublicId p)
  ∧ paired (cloudinaryThumbnailUrl p) (cloudinaryThumbnailPublicId p).

(** A request supplies a media pair coherently: neither member, or both
    members as strings that are empty together. *)
Definition supplied_together (url publicId : jsval) : Prop :=
  (url = JUndefined ∧ publicId = JUndefined)
  ∨ (∃ u p, url = JStr u ∧ publicId = JStr p ∧ paired u p).

Definition pairs_supplied_together (b : body) : Prop :=
  supplied_together (Body.get "cloudinaryVideoUrl" b)
                    (Body.get "cloudinaryVideoPublicId" b)
  ∧ supplied_together (Body.get "cloudinaryThumbnailUrl" b)
                      (Body.get "cloudinaryThumbnailPublicId" b).

(** Server-side uploads answer with a URL and a publicId that are both
    set. *)
Definition uploads_paired (E : services) : Prop :=
  ∀ k input url publicId,
    upload_result E k input = Some (url, publicId) → paired url publicId.

(** A key that is not an indexed key of [features] or [tools]. *)
Definition plain_key (k : string) : Prop :=
  field_index "features" k = None ∧ field_index "tools" k = None.

(** The list a stored record holds for field [F]. *)
Definition stored_list (F : string) (p : Project) : list string :=
  if F =? "features" then features p else tools p.

Definition same_kind (k k' : media_kind) : bool :=
  match k, k' with
  | Video, Video | Image, Image => true
  | _, _ => false
  end.

(** The publicIds that the [destroy] calls of kind [k] were issued
    against, in order. *)
Definition destroyed (k : media_kind) (calls : list media_call) : list string :=
  omap (fun c => match c with
                 | Destroy k' publicId => if same_kind k' k then Some publicId else None
                 | Upload _ _ => None
                 end) calls.

(** Modelled from the spec: what the store answers to the listing query
    [Project.find().sort({ createdAt: -1 })] when it answers (mongoose and
    models/Project.js are missing; section 4.1, [list]: "all records of
    that kind, newest first"): every record of the collection, once each,
    the later [createdAt] first. *)
Definition newest_first_listing (collection : gmap string Project)
    (ps : list Project) : Prop :=
  ps ≡ₚ (map_to_list collection).*2 ∧ Sorted newer_first ps.

End Spec.
Export Spec.

(* ===================================================================== *)
(** ** Sample data                                                        *)
(* ===================================================================== *)

Module Examples.

Definition is_hex (c : ascii) : bool :=
  let n := N_of_ascii c in
  (is_digit c || ((97 <=? n) && (n <=? 102)) || ((65 <=? n) && (n <=? 70)))%N.

Fixpoint all_hex (s : string) : bool :=
  match s with
  | EmptyString => true
  | String c rest => is_hex c && all_hex rest
  end.

(** Twenty-four hexadecimal digits, the usual shape of an ObjectId. *)
Definition hex24 (s : string) : bool :=
  (String.length s =? 24)%nat && all_hex s.

(** A media store whose deletions succeed or fail as [destroy_ok] says,
    beside a collection that lists by a stable sort and accepts every valid
    document. *)
Definition services_with (destroy_ok : bool) : services :=
  {| ObjectId_isValid := hex24;
     JSON_parse := fun _ => None;
     destroy_resolves := fun _ _ => destroy_ok;
     upload_result := fun _ _ => Some ("https://media.example/asset", "uploaded-id");
     find_sorted := fun ps _ => inl (merge_sort newer_first (map_to_list ps).*2);
     save_error := fun _ _ => None;
     new_ObjectId := fun _ => "65f0000000000000000000aa";
     now := 1700000000000 |}.

Definition demo_id : string := "65f000000000000000000001".

(** A stored project with a video and no thumbnail. *)
Definition demo : Project :=
  {| _id := demo_id; title := "Portfolio"; description := "A site";
     features := ["fast"]; tools := ["react"];
     githubLink := ""; deployedUrl := ""; duration := ""; challenges := "";
     cloudinaryVideoUrl := "https://media.example/v1";
     cloudinaryVideoPublicId := "project-videos/v1";
     cloudinaryThumbnailUrl := ""; cloudinaryThumbnailPublicId := "";
     createdAt := 1690000000000 |}.

(** A stored project without media. *)
Definition plain : Project :=
  {| _id := demo_id; title := "Notes"; description := "An app";
     features := []; tools := [];
     githubLink := ""; deployedUrl := ""; duration := ""; challenges := "";
     cloudinaryVideoUrl := ""; cloudinaryVideoPublicId := "";
     cloudinaryThumbnailUrl := ""; cloudinaryThumbnailPublicId := "";
     createdAt := 1690000000000 |}.

Definition world_of (ps : list Project) : world :=
  {| projects := list_to_map ((fun p => (_id p, p)) <$> ps);
     db_calls := []; media_calls := []; console := [] |}.

Definition json_request (id : string) (b : body) : request :=
  {| params_id := id; content_type := Some "application/json";
     req_body := b; files_video := []; files_thumbnail := [] |}.

(** A create request that names a video URL and no publicId. *)
Definition url_only : body :=
  [("title", JStr "Clip"); ("description", JStr "A clip");
   ("cloudinaryVideoUrl", JStr "https://media.example/v9")].

(** A request that names a new video pair. *)
Definition new_video : body :=
  [("cloudinaryVideoUrl", JStr "https://media.example/v2");
   ("cloudinaryVideoPublicId", JStr "project-videos/v2")].

(** A complete project with a video pair. *)
Definition clip_with_pair : body :=
  [("title", JStr "Clip"); ("description", JStr "A clip");
   ("cloudinaryVideoUrl", JStr "https://media.example/v2");
   ("cloudinaryVideoPublicId", JStr "project-videos/v2")].

(** A well-formed id that no record has. *)
Definition unknown_id : string := "65f000000000000000000002".

(** A request that names a new thumbnail pair. *)
Definition new_thumbnail : body :=
  [("cloudinaryThumbnailUrl", JStr "https://media.example/t2");
   ("cloudinaryThumbnailPublicId", JStr "project-thumbnails/t2")].

(** The form of section 8 of the specification, with one more empty item. *)
Definition indexed_form : body :=
  [("features[1]", JStr "a"); ("title", JStr "Clip");
   ("features[0]", JStr "b"); ("features[2]", JStr "")].

Definition admin : Auth.User :=
  {| Auth.user_id := "65f0000000000000000000ff"; Auth.username := "admin";
     Auth.password := "s3cret"; Auth.profilePicLink := "https://media.example/me" |}.

Definition login_request (name pw : string) : Auth.request :=
  {| Auth.body_username := name; Auth.body_password := pw;
     Auth.secure := false; Auth.x_forwarded_proto := None |}.

(** A signer that needs a secret and otherwise spells out what it signs. *)
Definition demo_jwt_sign (c : Auth.claims) (secret : option string) (expiresIn : string)
  : option string :=
  match secret with
  | Some k =>
      if k =? "" then None
      else Some (String.append (Auth.claim_id c)
                   (String.append "." (String.append (Auth.claim_username c)
                      (String.append "." expiresIn))))
  | None => None
  end.

Definition demo_env : Auth.env :=
  {| Auth.SECRET_KEY := Some "k"; Auth.NODE_ENV := None |}.

Definition cloud_env : Signature.env :=
  {| Signature.CLOUDINARY_API_SECRET := Some "secret";
     Signature.CLOUDINARY_API_KEY := Some "key";
     Signature.CLOUDINARY_CLOUD_NAME := Some "cloud" |}.

Definition no_cloud_env : Signature.env :=
  {| Signature.CLOUDINARY_API_SECRET := None;
     Signature.CLOUDINARY_API_KEY := Some "key";
     Signature.CLOUDINARY_CLOUD_NAME := Some "cloud" |}.

(** A signer that only records how many parameters it was given. *)
Definition demo_sign (ps : Signature.params) (secret : string) : string :=
  String.append secret (if (List.length ps =? 1)%nat then ":1" else ":2").

(** Two calls inside one window, then the timer. *)
Definition burst : list (@Throttle.event string) :=
  [Throttle.Call 1000 "first"; Throttle.Call 1050 "second"; Throttle.Fire 1 1100].

(** The state the burst ends in. *)
Definition after_burst : @Throttle.state string :=
  {| Throttle.lastCall := 1100;
     Throttle.lastArgs := Some "second";
     Throttle.timeoutId := None;
     Throttle.timers := [];
     Throttle.next_timer := 2;
     Throttle.applied := [(1000%Z, Some "first"); (1100%Z, Some "second")] |}.

End Examples.

(* ===================================================================== *)
(** ** Media calls of the project handlers                                *)
(* ===================================================================== *)

Module Media.

(** The services [E], with a media store whose deletions succeed or fail
    as [f] says. *)
Definition with_destroy (f : media_kind → string → bool) (E : services) : services :=
  {| ObjectId_isValid := ObjectId_isValid E;
     JSON_parse := JSON_parse E;
     destroy_resolves := f;
     upload_result := upload_result E;
     find_sorted := find_sorted E;
     save_error := save_error E;
     new_ObjectId := new_ObjectId E;
     now := now E |}.


(** Two worlds that differ at most in what was written to the console. *)
Definition same_store (w w' : world) : Prop :=
  projects w = projects w' ∧ db_calls w = db_calls w' ∧ media_calls w = media_calls w'.

End Media.
Export Media.

(* ===================================================================== *)
(** ** Array fields in array format                                       *)
(* ===================================================================== *)

Module Encode.

(** The character of a decimal digit. *)
Definition digit_char (d : N) : ascii := ascii_of_N (48 + d).

Fixpoint decimal_digits (fuel : nat) (n : N) (acc : string) : string :=
  match fuel with
  | O => acc
  | S fuel' =>
      let acc' := String (digit_char (n mod 10)) acc in
      if (n <? 10)%N then acc' else decimal_digits fuel' (n / 10) acc'
  end.

(** The decimal digits of [n], without leading zeros. *)
Definition to_decimal (n : N) : string :=
  decimal_digits (S (N.to_nat (N.log2 n))) n "".

(** The key of item [index] of the array field [key] in "array format
    (features[0], tools[0], etc.)", the "array format from FormData" of the
    controller's comments (lines 101, 155 and 280): [key[index]], the
    index in decimal. *)
Definition indexed_key (key : string) (index : N) : string :=
  String.append key (String.append "[" (String.append (to_decimal index) "]")).

(** A list in array format: item [i] under the key [key[i]], in order. *)
Definition indexed_fields (key : string) (items : list jsval) : body :=
  imap (fun index item => (indexed_key key (N.of_nat index), item)) items.

(** The accumulator loop of [parseInt_digits]. *)
Fixpoint parse_from (acc : N) (s : string) : N :=
  match s with
  | EmptyString => acc
  | String c rest => parse_from (10 * acc + digit_value c)%N rest
  end.

Fixpoint all_digits (s : string) : bool :=
  match s with
  | EmptyString => true
  | String c rest => is_digit c && all_digits rest
  end.

End Encode.
Export Encode.

(* ===================================================================== *)
(** ** frontend/src/utils/throttle.js: [debounce], call counts            *)
(* ===================================================================== *)

Module Debounce.

Section Debounced.

(** What one call passes on: [this] and the argument list. *)
Context {Args : Type}.

(** [wait], in milliseconds, and the [immediate] flag. *)
Variable wait : Z.
Variable immediate : bool.

(** A pending [setTimeout(later, wait)]: the id it returned, when it was
    set, its delay, and the [context] and [args] its callback closes
    over. *)
Record timer : Type := {
  timer_id : positive;
  set_at : Z;
  delay : Z;
  captured : Args
}.

(** The variable captured by the closure, the page's table of pending
    timers, and the record of what [func] was applied to and when. *)
Record state : Type := {
  timeout : option positive;       (* [None] is undefined or null *)
  timers : list timer;
  next_timer : positive;           (* the id the next [setTimeout] returns *)
  applied : list (Z * Args)
}.

(** [debounce(func, wait, immediate)] before any call. *)
Definition initial : state :=
  {| timeout := None; timers := []; next_timer := 1%positive; applied := [] |}.

(** [clearTimeout(timeout)]; nothing happens for undefined or null. *)
Definition clearTimeout (id : option positive) (ts : list timer) : list timer :=
  match id with
  | Some i => List.filter (fun t => negb (timer_id t =? i)%positive) ts
  | None => ts
  end.

(** The [later] callback of timer [t], run at time [now]. *)
Definition later (t : timer) (now : Z) (st : state) : state :=
  {| timeout := None;
     timers := timers st;
     next_timer := next_timer st;
     applied := if negb immediate then applied st ++ [(now, captured t)]
                else applied st |}.

(** [debounced(...args)] called at time [now]. *)
Definition debounced (now : Z) (args : Args) (st : state) : state :=
  let callNow := immediate && negb (bool_decide (is_Some (timeout st))) in
  {| timeout := Some (next_timer st);
     timers := clearTimeout (timeout st) (timers st)
               ++ [{| timer_id := next_timer st; set_at := now;
                      delay := wait; captured := args |}];
     next_timer := Pos.succ (next_timer st);
     applied := if callNow then applied st ++ [(now, args)] else applied st |}.

(** What can happen to a debounced function: it is called, or one of its
    pending timers comes due. *)
Inductive event : Type :=
| Call (now : Z) (args : Args)
| Fire (id : positive) (now : Z).

(** One event.  A timer fires only while it is pending, and no earlier
    than its delay after it was set. *)
Definition step (st : state) (e : event) : option state :=
  match e with
  | Call now args => Some (debounced now args st)
  | Fire id now =>
      match List.find (fun t => (timer_id t =? id)%positive) (timers st) with
      | Some t =>
          if (set_at t + Z.max 0 (delay t) <=? now)%Z then
            Some (later t now {| timeout := timeout st;
                                 timers := clearTimeout (Some id) (timers st);
                                 next_timer := next_timer st;
                                 applied := applied st |})
          else None
      | None => None
      end
  end.

Fixpoint run (st : state) (es : list event) : option state :=
  match es with
  | [] => Some st
  | e :: es' =>
      match step st e with
      | Some st' => run st' es'
      | None => None
      end
  end.

(** The time and arguments of the most recent call in a sequence of
    events. *)
Fixpoint latest_call (es : list event) : option (Z * Args) :=
  match es with
  | [] => None
  | e :: es' =>
      match latest_call es' with
      | Some c => Some c
      | None => match e with Call now a => Some (now, a) | Fire _ _ => None end
      end
  end.

(** What holds of every state a debounced function can be in after the
    events [es]: the one pending timer, if any, is the one [timeout]
    names, and it was set by the most recent call. *)
Record reachable_inv (es : list event) (st : state) : Prop := {
  inv_timers :
    match timeout st with
    | Some id =>
        exists now a, latest_call es = Some (now, a)
          /\ timers st = [{| timer_id := id; set_at := now; delay := wait; captured := a |}]
    | None => timers st = []
    end
}.

End Debounced.

End Debounce.

Module Counting.
Import Throttle.

(** The number of calls in a sequence of events. *)
Fixpoint call_count {Args} (es : list (@event Args)) : nat :=
  match es with
  | [] => O
  | Call _ _ :: es' => S (call_count es')
  | Fire _ _ :: es' => call_count es'
  end.

End Counting.
Export Counting.

(* ===================================================================== *)
(** ** Regular expressions on words; [getDevicePerformance]               *)
(* ===================================================================== *)

Module Text.

(** The case folding under which a word of ASCII letters matches in a
    regular expression with the [i] flag: the letters A to Z are folded
    onto a to z and every other byte stands for itself (a character
    outside ASCII never matches an ASCII letter). *)
Definition fold_char (c : ascii) : ascii :=
  let n := N_of_ascii c in
  if ((65 <=? n) && (n <=? 90))%N then ascii_of_N (n + 32) else c.

Fixpoint fold_case (s : string) : string :=
  match s with
  | EmptyString => EmptyString
  | String c rest => String (fold_char c) (fold_case rest)
  end.

(** [/w1|w2|.../.test(s)] for words without special characters. *)
Definition test_words (words : list string) (s : string) : bool :=
  existsb (includes s) words.

(** [/w1|w2|.../i.test(s)] for words of ASCII letters and blanks. *)
Definition test_words_i (words : list string) (s : string) : bool :=
  existsb (fun w => includes (fold_case s) (fold_case w)) words.

End Text.
Export Text.

Module Performance.
Import QArith_base.

(** What [getDevicePerformance] reads from [navigator] and [window]. *)
Record device : Type := {
  userAgent : string;                   (* navigator.userAgent *)
  hardwareConcurrency : option N;       (* navigator.hardwareConcurrency *)
  deviceMemory : option Q;              (* navigator.deviceMemory, in GiB *)
  prefers_reduced_motion : bool
    (* window.matchMedia('(prefers-reduced-motion: reduce)').matches *)
}.

Record profile : Type := {
  score : Z;
  quality : string;
  particleMultiplier : Q;
  shouldDisable3D : bool;
  isMobile : bool;
  reducedMotion : bool
}.

Definition mobile_words : list string :=
  ["Android"; "webOS"; "iPhone"; "iPad"; "iPod"; "BlackBerry"; "IEMobile"; "Opera Mini"].

(** [navigator.hardwareConcurrency || 2] *)
Definition cpuCores (d : device) : N :=
  match hardwareConcurrency d with
  | Some n => if (n =? 0)%N then 2%N else n
  | None => 2%N
  end.

(** [navigator.deviceMemory && navigator.deviceMemory < 4], as a
    condition. *)
Definition isLowMemory (d : device) : bool :=
  match deviceMemory d with
  | Some m => negb (Qeq_bool m (0 # 1)) && negb (Qle_bool (4 # 1) m)
  | None => false
  end.

(** [getDevicePerformance()] (lines 80-119) *)
Definition getDevicePerformance (d : device) : profile :=
  let isMobile := test_words_i mobile_words (userAgent d) in
  let cpuCores := cpuCores d in
  let isLowMemory := isLowMemory d in
  let isLowPerformanceGPU := prefers_reduced_motion d in
  let performanceScore := 10%Z in
  let performanceScore := if isMobile then (performanceScore - 3)%Z else performanceScore in
  let performanceScore := if (cpuCores <? 4)%N then (performanceScore - 3)%Z else performanceScore in
  let performanceScore := if isLowMemory then (performanceScore - 2)%Z else performanceScore in
  let performanceScore := if isLowPerformanceGPU then (performanceScore - 2)%Z else performanceScore in
  let performanceScore := Z.max 1 (Z.min 10 performanceScore) in
  let qualityLevel :=
    if (8 <=? performanceScore)%Z then "high"
    else if (5 <=? performanceScore)%Z then "medium"
    else if (3 <=? performanceScore)%Z then "low"
    else "minimal" in
  {| score := performanceScore;
     quality := qualityLevel;
     particleMultiplier :=
       if qualityLevel =? "high" then 1 # 1
       else if qualityLevel =? "medium" then 6 # 10
       else if qualityLevel =? "low" then 3 # 10
       else 1 # 10;
     shouldDisable3D := qualityLevel =? "minimal";
     isMobile := isMobile;
     reducedMotion := isLowPerformanceGPU |}.

End Performance.

(* ===================================================================== *)
(** ** The user controller: [logoutUser]                                  *)
(* ===================================================================== *)

Module Session.
Import Auth.

(** The options of [res.clearCookie]. *)
Record clear_options : Type := {
  clear_httpOnly : bool;
  clear_secure : bool;
  clear_sameSite : string;
  clear_path : string
}.

Record logout_response : Type := {
  logout_status : nat;
  logout_success : bool;
  logout_message : string;
  cleared : list (string * clear_options)   (* [res.clearCookie(name, options)] *)
}.

(** [logoutUser] (lines 43-59) *)
Definition logoutUser (process_env : env) (req : request) : logout_response :=
  let isProduction := isProduction process_env req in
  {| logout_status := 200;
     logout_success := true;
     logout_message := "Logout successful";
     cleared := [("token",
                  {| clear_httpOnly := true;
                     clear_secure := isProduction;
                     clear_sameSite := if isProduction then "None" else "Lax";
                     clear_path := "/" |})] |}.

(** The options a cookie was set with that [clearCookie] has to repeat. *)
Definition options_of (c : cookie) : clear_options :=
  {| clear_httpOnly := httpOnly c;
     clear_secure := cookie_secure c;
     clear_sameSite := sameSite c;
     clear_path := cookie_path c |}.

End Session.

(* ===================================================================== *)
(** ** The front end's upload utility and the signature endpoint          *)
(* ===================================================================== *)

Module CloudinaryClient.

(** [import.meta.env], as far as the upload utility reads it. *)
Record client_env : Type := {
  VITE_CLOUDINARY_CLOUD_NAME : option string;
  VITE_CLOUDINARY_UPLOAD_PRESET : option string
}.

(** The configuration object [{ cloudName, uploadPreset }]. *)
Record config : Type := { cloudName : jsval; uploadPreset : jsval }.

(** What a [fetch] of one of the back end's endpoints comes to. *)
Inductive fetched : Type :=
| NetworkError                                (* the promise of [fetch] rejects *)
| Response (ok : bool) (data : option jsval). (* [response.ok]; [await response.json()],
                                                 [None] when that rejects *)

(** [v.k] for a value [v] that is neither null nor undefined and a key
    that is not a built-in property. *)
Definition prop (v : jsval) (k : string) : jsval :=
  match v with
  | JObj fields => Body.get k fields
  | _ => JUndefined
  end.

(** [v || d] *)
Definition or_else (v d : jsval) : jsval := if truthy v then v else d.

(** An environment variable as a value: undefined when unset. *)
Definition env_value (v : option string) : jsval :=
  match v with Some s => JStr s | None => JUndefined end.

Definition empty_config : config := {| cloudName := JStr ""; uploadPreset := JStr "" |}.

(** [getCloudinaryConfig()] (lines 24-61), from the cached configuration
    [cache] (null at first): the configuration returned, the new cache, and
    whether the back end was asked. *)
Definition getCloudinaryConfig (env : client_env) (backend : fetched)
    (cache : option config) : config * option config * bool :=
  match cache with
  | Some cached => (cached, cache, false)
  | None =>
      let envCloudName := env_value (VITE_CLOUDINARY_CLOUD_NAME env) in
      let envUploadPreset := env_value (VITE_CLOUDINARY_UPLOAD_PRESET env) in
      if truthy envCloudName then
        let c := {| cloudName := envCloudName;
                    uploadPreset := or_else envUploadPreset (JStr "") |} in
        (c, Some c, false)
      else
        match backend with
        | Response true (Some data) =>
            match data with
            | JNull | JUndefined =>
                (* [data.cloudName] throws; the [catch] block warns *)
                (empty_config, None, true)
            | _ =>
                if truthy (prop data "cloudName") then
                  let c := {| cloudName := prop data "cloudName";
                              uploadPreset := or_else (prop data "uploadPreset") (JStr "") |} in
                  (c, Some c, true)
                else (empty_config, None, true)
            end
        | _ => (empty_config, None, true)
        end
  end.

(** The signed upload parameters, if the back end gave any:
<<
  let uploadParams;
  try { ... if (sigResponse.ok) { uploadParams = await sigResponse.json(); } }
  catch (error) { console.warn(...); }
>> *)
Definition uploadParams (signature : fetched) : jsval :=
  match signature with
  | Response true (Some data) => data
  | _ => JUndefined
  end.

(** What is appended to the form: the file itself, or a value. *)
Inductive field_value : Type :=
| Blob (file : string)
| Field (value : jsval).

(** The calls [formData.append(name, value)], in order. *)
Definition form : Type := list (string * field_value).

(** The names a form carries, in order. *)
Definition names (f : form) : list string := f.*1.

(** What differs between [uploadVideoToCloudinary] (lines 70-186) and
    [uploadImageToCloudinary] (lines 195-308). *)
Record upload_kind : Type := {
  resource : string;          (* the [resource_type] asked for *)
  default_preset : string;
  chunked : bool              (* [formData.append('chunk_size', '6000000')] *)
}.

Definition video : upload_kind :=
  {| resource := "video"; default_preset := "unsigned_video"; chunked := true |}.

Definition image : upload_kind :=
  {| resource := "image"; default_preset := "unsigned_image"; chunked := false |}.

(** [if (uploadParams.folder && uploadParams.folder.trim())
       formData.append('folder', uploadParams.folder.trim());]
    [None] is the [TypeError] of calling [trim] on a truthy value that is
    not a string. *)
Definition folder_fields (folder : jsval) : option form :=
  if truthy folder then
    match folder with
    | JStr s => Some (if negb (trim s =? "") then [("folder", Field (JStr (trim s)))] else [])
    | _ => None
    end
  else Some [].

(** The form an upload sends; [None] when building it throws. *)
Definition build_form (K : upload_kind) (file folder : string) (cfg : config)
    (uploadParams : jsval) : option form :=
  let chunk := if chunked K then [("chunk_size", Field (JStr "6000000"))] else [] in
  if truthy uploadParams && truthy (prop uploadParams "signature") then
    match folder_fields (prop uploadParams "folder") with
    | Some folder_part =>
        let resource_type := prop uploadParams "resource_type" in
        Some ([("file", Blob file);
               ("api_key", Field (prop uploadParams "api_key"));
               ("timestamp", Field (prop uploadParams "timestamp"));
               ("signature", Field (prop uploadParams "signature"))]
              ++ folder_part
              ++ (if truthy resource_type && negb (strict_eq_str resource_type "auto")
                  then [("resource_type", Field resource_type)] else [])
              ++ chunk)%list
    | None => None
    end
  else
    Some ([("file", Blob file);
           ("upload_preset", Field (or_else (uploadPreset cfg) (JStr (default_preset K))));
           ("folder", Field (JStr folder));
           ("resource_type", Field (JStr (resource K)))]
          ++ chunk)%list.

(** How far an upload gets before the file is sent. *)
Inductive prepared : Type :=
| NotConfigured (message : string)
| BuildError
| Ready (fields : form) (cloud : jsval).

(** The body of a request to [POST /api/cloudinary-signature]. *)
Record signature_request : Type := { sent_folder : string; sent_resource_type : string }.

(** An upload up to [xhr.open]: what it comes to, and the signature
    requests it made.  [sign] is the back end's signature endpoint. *)
Definition prepare_upload (sign : signature_request -> fetched) (K : upload_kind)
    (file folder : string) (cfg : config) : prepared * list signature_request :=
  if negb (truthy (cloudName cfg)) then
    (NotConfigured "Cloudinary cloud name is not configured. Please set VITE_CLOUDINARY_CLOUD_NAME in your .env file or configure it on the backend.", [])
  else
    let request := {| sent_folder := folder; sent_resource_type := resource K |} in
    let params := uploadParams (sign request) in
    match build_form K file folder cfg params with
    | Some fields =>
        (* [uploadParams?.cloud_name || config.cloudName] *)
        (Ready fields (or_else (prop params "cloud_name") (cloudName cfg)), [request])
    | None => (BuildError, [request])
    end.

End CloudinaryClient.

Module Backend.
Import Signature.

(** The JSON document [res.json(...)] sends for each reply of the
    signature handler (server.js, lines 107-110, 141-149 and 152-156). *)
Definition reply_json (p : payload) : jsval :=
  match p with
  | Signed signature timestamp folder resource_type api_key cloud_name =>
      JObj [("success", JBool true);
            ("signature", JStr signature);
            ("timestamp", JNum timestamp);
            ("folder", JStr folder);
            ("resource_type", resource_type);
            ("api_key", JStr api_key);
            ("cloud_name", JStr cloud_name)]
  | NotConfigured message =>
      JObj [("success", JBool false); ("message", JStr message)]
  | Failed message error =>
      JObj [("success", JBool false); ("message", JStr message); ("error", JStr error)]
  end.

(** A reply as the client's [fetch] sees it: [response.ok] is a status in
    the range 200-299. *)
Definition over_the_wire (r : response) : CloudinaryClient.fetched :=
  CloudinaryClient.Response ((200 <=? status r)%nat && (status r <=? 299)%nat)
                            (Some (reply_json (json r))).

Section Endpoint.
Variable api_sign_request : params -> string -> string.
Variable process_env : env.
Variable now_ms : Z.

(** [POST /api/cloudinary-signature] as the client calls it. *)
Definition signature_endpoint (request : CloudinaryClient.signature_request)
  : CloudinaryClient.fetched :=
  over_the_wire
    (cloudinary_signature api_sign_request process_env now_ms
       (JStr (CloudinaryClient.sent_folder request))
       (JStr (CloudinaryClient.sent_resource_type request))).
End Endpoint.

End Backend.

Module UploadSpec.

(** The names of the form that the media store leaves out of what it
    signs, and the one the client adds for chunked uploads. *)
Definition unsigned_names : list string :=
  ["file"; "api_key"; "signature"; "resource_type"; "chunk_size"].

(** Does [s] begin with a white space character? *)
Definition begins_blank (s : string) : bool :=
  match s with
  | String c1 r1 =>
      is_space c1
      || match r1 with
         | String c2 r2 =>
             is_space2 c1 c2
             || match r2 with
                | String c3 _ => is_space3 c1 c2 c3
                | EmptyString => false
                end
         | EmptyString => false
         end
  | EmptyString => false
  end.

(** A string that does not begin with white space. *)
Definition starts_clean (s : string) : Prop := begins_blank s = false.

End UploadSpec.
Export UploadSpec.

(* ===================================================================== *)
(** ** server.js: the origin check; config/db.js: [connectDB]             *)
(* ===================================================================== *)

Module Cors.

(** [s.replace(/\/$/, '')]: one slash at the very end is removed. *)
Fixpoint strip_slash (s : string) : string :=
  match s with
  | EmptyString => EmptyString
  | String c rest =>
      if (c =? "/")%char && (rest =? "") then EmptyString
      else String c (strip_slash rest)
  end.

Section Normalising.

(** [String.prototype.toLowerCase], a function of the engine. *)
Variable toLowerCase : string -> string.

(** [s.toLowerCase().replace(/\/$/, '')] *)
Definition normalized (s : string) : string := strip_slash (toLowerCase s).

(** [[...].filter(Boolean)] on strings that may be undefined. *)
Definition defined_strings (l : list (option string)) : list string :=
  omap (fun o => match o with
                 | Some s => if s =? "" then None else Some s
                 | None => None
                 end) l.

(** [allowedOrigins] (server.js, lines 17-21 and 93-97); the argument is
    [process.env.FRONTEND_URL]. *)
Definition allowedOrigins (FRONTEND_URL : option string) : list string :=
  defined_strings [Some "http://localhost:5173";
                   Some "https://portfolio-advance-version-frontend.vercel.app";
                   FRONTEND_URL].

(** What the [origin] function hands to its callback. *)
Inductive decision : Type :=
| Allowed
| Refused (message : string).

(** The [origin] function of the first configuration (lines 24-40);
    [origin] is the request's [Origin] header, [None] when absent. *)
Definition origin_normalized (FRONTEND_URL origin : option string) : decision :=
  match origin with
  | None => Allowed
  | Some o =>
      if o =? "" then Allowed
      else
        let normalizedOrigin := normalized o in
        let isAllowed :=
          existsb (fun allowed => normalized allowed =? normalizedOrigin)
                  (allowedOrigins FRONTEND_URL) in
        if isAllowed then Allowed
        else Refused (String.append "Not allowed by CORS. Origin: " o)
  end.

End Normalising.

(** The [origin] function of the second configuration (lines 100-110). *)
Definition origin_exact (FRONTEND_URL origin : option string) : decision :=
  match origin with
  | None => Allowed
  | Some o =>
      if o =? "" then Allowed
      else if existsb (fun allowed => allowed =? o) (allowedOrigins FRONTEND_URL)
      then Allowed
      else Refused "Not allowed by CORS"
  end.

End Cors.

Module Db.

(** [process.env], as far as the connection code reads it. *)
Record env : Type := {
  MONGODB_URI : option string;
  VERCEL : option string
}.

(** [!process.env.X]: unset or empty. *)
Definition unset (v : option string) : bool :=
  match v with
  | None => true
  | Some s => s =? ""
  end.

(** What [mongoose.connect(uri, ...)] comes to. *)
Inductive connect_result : Type :=
| Connected (host : string)
| ConnectError (message : string).

(** How a call of [connectDB] ends: its promise resolves, it rejects with
    an error, or the process is gone ([process.exit]). *)
Inductive outcome : Type :=
| Resolved
| Rejected (message : string)
| Exited (code : Z).

(** The [catch] block of [connectDB] (lines 53-60). *)
Definition connection_failed (process_env : env) (message : string) : outcome :=
  if unset (VERCEL process_env) then Exited 1 else Rejected message.

(** [connectDB()] (lines 32-61): how it ends, and the URIs it handed to
    [mongoose.connect].  [readyState] is [mongoose.connection.readyState]
    and [mongoose_connect] the outcome of [mongoose.connect]. *)
Definition connectDB (process_env : env) (readyState : Z)
    (mongoose_connect : string -> connect_result) : outcome * list string :=
  match MONGODB_URI process_env with
  | Some uri =>
      if uri =? "" then
        (connection_failed process_env "MONGODB_URI not set in environment", [])
      else if (readyState =? 1)%Z then (Resolved, [])
      else
        match mongoose_connect uri with
        | Connected _ => (Resolved, [uri])
        | ConnectError message => (connection_failed process_env message, [uri])
        end
  | None => (connection_failed process_env "MONGODB_URI not set in environment", [])
  end.

(** What the middleware does with a request. *)
Inductive handled : Type :=
| Next                                   (* [next()] *)
| Respond (status : nat) (message error : string)
| ProcessExit (code : Z).

(** [ensureDBConnection] (server.js, lines 60-75), from the value of
    [dbConnected]; [connect] is what a call of [connectDB] would come to.
    The result holds the new value of [dbConnected] and whether [connectDB]
    was called. *)
Definition ensureDBConnection (connect : outcome) (dbConnected : bool)
  : handled * bool * bool :=
  if negb dbConnected then
    match connect with
    | Resolved => (Next, true, true)
    | Rejected message => (Respond 500 "Database connection failed" message, false, true)
    | Exited code => (ProcessExit code, false, true)
    end
  else (Next, dbConnected, false).

(** A run of requests; each comes with what [connectDB] would answer at
    that moment.  The result lists what was done with each request and
    counts the calls of [connectDB]; a request that ends the process ends
    the run. *)
Fixpoint serve (dbConnected : bool) (requests : list outcome)
  : list handled * nat * bool :=
  match requests with
  | [] => ([], O, dbConnected)
  | connect :: rest =>
      let '(h, connected, called) := ensureDBConnection connect dbConnected in
      match h with
      | ProcessExit _ => ([h], if called then 1%nat else O, connected)
      | _ =>
          let '(hs, n, final) := serve connected rest in
          (h :: hs, ((if called then 1 else 0) + n)%nat, final)
      end
  end.

End Db.

(* ===================================================================== *)
(** ** The projects context: API base URL; the upload filter              *)
(* ===================================================================== *)

Module Urls.

(** [s.endsWith(suffix)] *)
Fixpoint endsWith (s suffix : string) : bool :=
  (s =? suffix) ||
  match s with
  | EmptyString => false
  | String _ rest => endsWith rest suffix
  end.

(** [s] without its first [n] characters. *)
Fixpoint skip (n : nat) (s : string) : string :=
  match n, s with
  | O, _ => s
  | S n', String _ rest => skip n' rest
  | S _, EmptyString => EmptyString
  end.

(** [s.replace(pattern, replacement)] for a pattern that is a string and a
    replacement without [$]: the first occurrence is replaced. *)
Fixpoint replace (s pattern replacement : string) : string :=
  if startsWith s pattern then
    String.append replacement (skip (String.length pattern) s)
  else
    match s with
    | EmptyString => EmptyString
    | String c rest => String c (replace rest pattern replacement)
    end.

(** [ensureHttps(url)]; [protocol] is [window.location.protocol], [None]
    where there is no [window]. *)
Definition ensureHttps (protocol : option string) (url : string) : string :=
  match protocol with
  | Some p =>
      if (p =? "https:") && startsWith url "http://"
      then replace url "http://" "https://"
      else url
  | None => url
  end.

(** [ensureHttps(import.meta.env.VITE_API_BASE_URL || 'http://localhost:3000')] *)
Definition BASE_URL (protocol VITE_API_BASE_URL : option string) : string :=
  ensureHttps protocol
    match VITE_API_BASE_URL with
    | Some url => if url =? "" then "http://localhost:3000" else url
    | None => "http://localhost:3000"
    end.

(** [BASE_URL.endsWith('/api') ? BASE_URL : `${BASE_URL}/api`] *)
Definition API_BASE_URL (base : string) : string :=
  if endsWith base "/api" then base else String.append base "/api".

End Urls.

Module Upload.

(** A file as multer describes it to a filter. *)
Record file : Type := {
  fieldname : string;
  originalname : string;
  mimetype : string
}.

(** What a filter hands to its callback: [cb(null, true)] or
    [cb(new Error(message))]. *)
Inductive verdict : Type :=
| Accept
| Reject (message : string).

Definition video_words : list string :=
  ["mp4"; "mov"; "avi"; "wmv"; "flv"; "webm"; "mkv"].

Definition image_words : list string :=
  ["jpeg"; "jpg"; "png"; "gif"; "webp"].

Section WithPath.

(** [path.extname] *)
Variable extname : string -> string.

(** [String.prototype.toLowerCase], a function of the engine. *)
Variable toLowerCase : string -> string.

(** [videoFilter] (lines 9-19) *)
Definition videoFilter (f : file) : verdict :=
  let extname_ok := test_words video_words (toLowerCase (extname (originalname f))) in
  let mimetype_ok :=
    test_words video_words (mimetype f) || startsWith (mimetype f) "video/" in
  if extname_ok && mimetype_ok then Accept
  else Reject "Only video files are allowed!".

(** [imageFilter] (lines 22-32) *)
Definition imageFilter (f : file) : verdict :=
  let extname_ok := test_words image_words (toLowerCase (extname (originalname f))) in
  let mimetype_ok :=
    test_words image_words (mimetype f) || startsWith (mimetype f) "image/" in
  if extname_ok && mimetype_ok then Accept
  else Reject "Only image files are allowed!".

(** The [fileFilter] of [uploadMultiple] (lines 64-74) *)
Definition fileFilter (f : file) : verdict :=
  if fieldname f =? "video" then videoFilter f
  else if fieldname f =? "thumbnail" then imageFilter f
  else Reject "Invalid file type!".

End WithPath.

End Upload.

(* ===================================================================== *)
(** ** frontend/src/components/UnifiedDashboard.jsx: the project form     *)
(* ===================================================================== *)

Module Dashboard.
Import CloudinaryClient.

(** The state of [ProjectsView] that its handlers read and write. *)
Record editor : Type := {
  formData : body;
  isEditing : option string;        (* null, or the id of the edited project *)
  isAdding : bool;
  newFeature : string;
  newTool : string;
  videoFile : option string;        (* null, or the chosen file *)
  existingVideoUrl : jsval;         (* null, or the URL of the stored video *)
  thumbnailFile : option string;
  existingThumbnailUrl : jsval
}.

(** [{ ...formData, [name]: value }] *)
Definition with_formData (fd : body) (st : editor) : editor :=
  {| formData := fd; isEditing := isEditing st; isAdding := isAdding st;
     newFeature := newFeature st; newTool := newTool st;
     videoFile := videoFile st; existingVideoUrl := existingVideoUrl st;
     thumbnailFile := thumbnailFile st;
     existingThumbnailUrl := existingThumbnailUrl st |}.

(** The characters of a string, one string each. *)
Fixpoint characters (s : string) : list jsval :=
  match s with
  | EmptyString => []
  | String c rest => JStr (String c EmptyString) :: characters rest
  end.

(** The items [[...v]] spreads; [None] is the [TypeError] for a value that
    is not iterable. *)
Definition spread (v : jsval) : option (list jsval) :=
  match v with
  | JArr l => Some l
  | JStr s => Some (characters s)
  | _ => None
  end.

(** [l.filter((_, i) => i !== index)] *)
Fixpoint without_index {A} (index : nat) (l : list A) : list A :=
  match l, index with
  | [], _ => []
  | _ :: l', O => l'
  | x :: l', S index' => x :: without_index index' l'
  end.

(** [addFeature] (lines 148-156) for [field] = [features] and
    [addTool] (lines 165-173) for [field] = [tools], on the text [input] of
    the entry box: the new form data, and whether the box is emptied.
    [None] is the [TypeError] of spreading a value that is not iterable. *)
Definition add_item (field input : string) (fd : body) : option (body * bool) :=
  if negb (trim input =? "") then
    match spread (Body.get field fd) with
    | Some l => Some (Body.set field (JArr (l ++ [JStr (trim input)])) fd, true)
    | None => None
    end
  else Some (fd, false).

Definition addFeature (st : editor) : option editor :=
  match add_item "features" (newFeature st) (formData st) with
  | Some (fd, emptied) =>
      Some {| formData := fd; isEditing := isEditing st; isAdding := isAdding st;
              newFeature := if emptied then "" else newFeature st;
              newTool := newTool st;
              videoFile := videoFile st; existingVideoUrl := existingVideoUrl st;
              thumbnailFile := thumbnailFile st;
              existingThumbnailUrl := existingThumbnailUrl st |}
  | None => None
  end.

Definition addTool (st : editor) : option editor :=
  match add_item "tools" (newTool st) (formData st) with
  | Some (fd, emptied) =>
      Some {| formData := fd; isEditing := isEditing st; isAdding := isAdding st;
              newFeature := newFeature st;
              newTool := if emptied then "" else newTool st;
              videoFile := videoFile st; existingVideoUrl := existingVideoUrl st;
              thumbnailFile := thumbnailFile st;
              existingThumbnailUrl := existingThumbnailUrl st |}
  | None => None
  end.

(** [removeFeature(index)] (lines 158-163) and [removeTool(index)]
    (lines 175-180); [None] is the [TypeError] of calling [filter] on a
    value that is not an array. *)
Definition remove_item (field : string) (index : nat) (fd : body) : option body :=
  match Body.get field fd with
  | JArr l => Some (Body.set field (JArr (without_index index l)) fd)
  | _ => None
  end.

Definition removeFeature (index : nat) (st : editor) : option editor :=
  (fun fd => with_formData fd st) <$> remove_item "features" index (formData st).

Definition removeTool (index : nat) (st : editor) : option editor :=
  (fun fd => with_formData fd st) <$> remove_item "tools" index (formData st).

(** [handleInputChange] (lines 143-146) for the input [name]. *)
Definition handleInputChange (name value : string) (st : editor) : editor :=
  with_formData (Body.set name (JStr value) (formData st)) st.









End Dashboard.

(* ===================================================================== *)
(** ** More sample data                                                   *)
(* ===================================================================== *)

Module MoreExamples.
Import Examples.

(** A stored project with a video and a thumbnail. *)
Definition filmed : Project :=
  {| _id := demo_id; title := "Reel"; description := "A reel";
     features := ["fast"]; tools := ["react"];
     githubLink := ""; deployedUrl := ""; duration := ""; challenges := "";
     cloudinaryVideoUrl := "https://media.example/v1";
     cloudinaryVideoPublicId := "project-videos/v1";
     cloudinaryThumbnailUrl := "https://media.example/t1";
     cloudinaryThumbnailPublicId := "project-thumbnails/t1";
     createdAt := 1690000000000 |}.

(** A record older than [demo]. *)
Definition sketch : Project :=
  {| _id := "65f000000000000000000003"; title := "Sketch"; description := "A draft";
     features := []; tools := [];
     githubLink := ""; deployedUrl := ""; duration := ""; challenges := "";
     cloudinaryVideoUrl := ""; cloudinaryVideoPublicId := "";
     cloudinaryThumbnailUrl := ""; cloudinaryThumbnailPublicId := "";
     createdAt := 1680000000000 |}.

(** A record created in the same millisecond as [sketch]. *)
Definition twin : Project :=
  {| _id := "65f000000000000000000004"; title := "Twin"; description := "A copy";
     features := []; tools := [];
     githubLink := ""; deployedUrl := ""; duration := ""; challenges := "";
     cloudinaryVideoUrl := ""; cloudinaryVideoPublicId := "";
     cloudinaryThumbnailUrl := ""; cloudinaryThumbnailPublicId := "";
     createdAt := 1680000000000 |}.

(** A store that has lost its connection: it rejects the listing query. *)
Definition offline : services :=
  {| ObjectId_isValid := hex24;
     JSON_parse := fun _ => None;
     destroy_resolves := fun _ _ => true;
     upload_result := fun _ _ => None;
     find_sorted := fun _ _ => inr "connection lost";
     save_error := fun _ _ => Some "connection lost";
     new_ObjectId := fun _ => "65f0000000000000000000aa";
     now := 1700000000000 |}.

(** A store that lists newest first and gives records of the same age in
    the one order on its first, third, ... query and in the other order on
    its second, fourth, ... *)
Definition undecided : services :=
  {| ObjectId_isValid := hex24;
     JSON_parse := fun _ => None;
     destroy_resolves := fun _ _ => true;
     upload_result := fun _ _ => None;
     find_sorted := fun ps sent =>
       let records := (map_to_list ps).*2 in
       inl (merge_sort newer_first
              (if Nat.even (List.length sent) then records else reverse records));
     save_error := fun _ _ => None;
     new_ObjectId := fun _ => "65f0000000000000000000aa";
     now := 1700000000000 |}.

(** U+00A0, the no-break space, in UTF-8. *)
Definition no_break_space : string :=
  String (ascii_of_N 194) (String (ascii_of_N 160) EmptyString).

(** What is left of a name from its first dot on: [path.extname] on a name
    with one dot that is not the first character. *)
Fixpoint from_dot (name : string) : string :=
  match name with
  | EmptyString => EmptyString
  | String c rest => if (c =? ".")%char then name else from_dot rest
  end.

(** The state after the first two calls of [burst]: the timer is pending. *)
Definition during_burst : @Throttle.state string :=
  {| Throttle.lastCall := 1000;
     Throttle.lastArgs := Some "second";
     Throttle.timeoutId := Some 1%positive;
     Throttle.timers := [(1%positive, 50%Z)];
     Throttle.next_timer := 2;
     Throttle.applied := [(1000%Z, Some "first")] |}.

(** A media store that deletes videos and refuses to delete images. *)
Definition videos_only (k : media_kind) (publicId : string) : bool :=
  match k with Video => true | Image => false end.

(** A media store that rejects every upload. *)
Definition no_uploads : services :=
  {| ObjectId_isValid := hex24;
     JSON_parse := fun _ => None;
     destroy_resolves := fun _ _ => true;
     upload_result := fun _ _ => None;
     find_sorted := fun ps _ => inl (merge_sort newer_first (map_to_list ps).*2);
     save_error := fun _ _ => None;
     new_ObjectId := fun _ => "65f0000000000000000000aa";
     now := 1700000000000 |}.

(** A multipart request with a video file. *)
Definition multipart_request (id : string) (b : body) : request :=
  {| params_id := id; content_type := Some "multipart/form-data; boundary=x";
     req_body := b; files_video := ["clip.mp4"]; files_thumbnail := [] |}.

(** A body that asks for the removal of the video. *)
Definition remove_video : body := [("removeVideo", JStr "true")].

Definition clip : body := [("title", JStr "Clip"); ("description", JStr "A clip")].

(** Keystrokes fifty milliseconds apart. *)
Definition typing : list (@Debounce.event string) :=
  [Debounce.Call 0 "a"; Debounce.Call 50 "ab"].

(** The state the keystrokes end in, on the trailing edge. *)
Definition after_typing : @Debounce.state string :=
  {| Debounce.timeout := Some 2%positive;
     Debounce.timers := [{| Debounce.timer_id := 2%positive; Debounce.set_at := 50;
                            Debounce.delay := 100; Debounce.captured := "ab" |}];
     Debounce.next_timer := 3%positive;
     Debounce.applied := [] |}.

(** The state the keystrokes end in, on the leading edge. *)
Definition after_typing_leading : @Debounce.state string :=
  {| Debounce.timeout := Some 2%positive;
     Debounce.timers := [{| Debounce.timer_id := 2%positive; Debounce.set_at := 50;
                            Debounce.delay := 100; Debounce.captured := "ab" |}];
     Debounce.next_timer := 3%positive;
     Debounce.applied := [(0%Z, "a")] |}.

(** A desktop browser that does not tell its number of cores. *)
Definition shy_desktop : Performance.device :=
  {| Performance.userAgent := "Mozilla/5.0 (X11; Linux x86_64)";
     Performance.hardwareConcurrency := None;
     Performance.deviceMemory := None;
     Performance.prefers_reduced_motion := false |}.

(** A client without configuration of its own. *)
Definition bare_client : CloudinaryClient.client_env :=
  {| CloudinaryClient.VITE_CLOUDINARY_CLOUD_NAME := None;
     CloudinaryClient.VITE_CLOUDINARY_UPLOAD_PRESET := None |}.

(** The back end's answer to [GET /api/cloudinary-config]. *)
Definition config_reply : CloudinaryClient.fetched :=
  CloudinaryClient.Response true
    (Some (JObj [("cloudName", JStr "cloud"); ("uploadPreset", JStr "preset")])).

(** The form data of a project with one feature. *)
Definition one_feature : body :=
  [("title", JStr "Clip"); ("features", JArr [JStr "fast"]); ("tools", JArr [])].

End MoreExamples.

(** Unfolds the plumbing of a handler so that it can be run on a world. *)
Ltac unfold_monad :=
  unfold handler, try_catch, check_id, when_, early, throw, gets, modify,
    log_db, log_media, console_log, put_projects,
    mbind, M_bind, bind, mret, M_ret, ret in *.


(** Membership in a list that is written out. *)
Ltac in_list := solve [repeat first [apply list_elem_of_here | apply list_elem_of_further]].

(** Case analysis on membership in a list that is written out. *)
Ltac cases_in H :=
  repeat (apply elem_of_cons in H as [H|H]); [..|by apply elem_of_nil in H].

(* ===================================================================== *)
(** * Properties                                                          *)
(* ===================================================================== *)

(** ** Request bodies *)

Section BodyFacts.
Implicit Types (b : body) (k : string) (v : jsval).

Lemma get_set_eq k v b : Body.get k (Body.set k v b) = v.
Proof.
  induction b as [|[k' w] b IH]; simpl.
  - by rewrite String.eqb_refl.
  - destruct (String.eqb_spec k' k) as [->|Hne]; simpl.
    + by rewrite String.eqb_refl.
    + by destruct (String.eqb_spec k' k).
Qed.

Lemma get_set_ne k k' v b : k ≠ k' → Body.get k' (Body.set k v b) = Body.get k' b.
Proof.
  intros Hne. induction b as [|[k0 w] b IH]; simpl.
  - by destruct (String.eqb_spec k k').
  - destruct (String.eqb_spec k0 k) as [->|Hk]; simpl.
    + by destruct (String.eqb_spec k k').
    + by rewrite IH.
Qed.

Lemma get_del_ne k k' b : k ≠ k' → Body.get k' (Body.del k b) = Body.get k' b.
Proof.
  intros Hne. induction b as [|[k0 w] b IH]; simpl; [done|].
  destruct (String.eqb_spec k0 k) as [->|Hk]; simpl.
  - by destruct (String.eqb_spec k k').
  - by rewrite IH.
Qed.

Lemma get_elem_of k v b : NoDup (Body.keys b) → (k, v) ∈ b → Body.get k b = v.
Proof.
  unfold Body.keys. induction b as [|[k0 w] b IH]; simpl; intros Hnd Hin.
  - by apply elem_of_nil in Hin.
  - apply NoDup_cons in Hnd as [Hk0 Hnd].
    apply elem_of_cons in Hin as [[= -> ->]|Hin].
    + by rewrite String.eqb_refl.
    + destruct (String.eqb_spec k0 k) as [->|Hk]; [|by apply IH].
      exfalso. apply Hk0. apply list_elem_of_fmap. by exists (k, v).
Qed.

End BodyFacts.

(** ** Sparse arrays *)

Section ArrayFacts.
Implicit Types (a : jsarray) (i : N) (v : jsval) (es : list (N * jsval)).

#[local] Instance index_le_total : Total index_le.
Proof. intros x y. unfold index_le. lia. Qed.
#[local] Instance index_le_trans : Transitive index_le.
Proof. intros x y z. unfold index_le. lia. Qed.
#[local] Instance index_lt_antisymm : AntiSymm (=) index_lt.
Proof. intros x y. unfold index_lt. lia. Qed.


Lemma arr_put_to_map i v a :
  list_to_map (arr_put i v a) =@{gmap N jsval} <[i:=v]> (list_to_map a).
Proof.
  induction a as [|[j w] a IH]; simpl; [done|].
  destruct (N.ltb_spec i j); simpl; [done|].
  destruct (N.eqb_spec i j) as [->|Hne]; simpl.
  - by rewrite insert_insert_eq.
  - rewrite IH. by apply insert_insert_ne.
Qed.

Lemma arr_put_lower_bound i v a (x : N * jsval) :
  index_lt x (i, v) → Forall (index_lt x) a → Forall (index_lt x) (arr_put i v a).
Proof.
  intros Hx. induction 1 as [|[j w] a Hj Ha IH]; simpl.
  - by repeat constructor.
  - destruct (N.ltb_spec i j); [by repeat constructor|].
    destruct (N.eqb_spec i j); by repeat constructor.
Qed.

Lemma arr_put_sorted i v a :
  StronglySorted index_lt a → StronglySorted index_lt (arr_put i v a).
Proof.
  induction 1 as [|[j w] a Hs IH Hall]; simpl.
  - by repeat constructor.
  - destruct (N.ltb_spec i j) as [Hlt|Hge].
    + constructor; [by constructor|].
      constructor; [done|].
      eapply Forall_impl; [exact Hall|]. unfold index_lt; simpl. intros; lia.
    + destruct (N.eqb_spec i j) as [->|Hne].
      * by constructor.
      * constructor; [done|].
        apply arr_put_lower_bound; [|done]. unfold index_lt; simpl; lia.
Qed.

Lemma put_all_sorted es a :
  StronglySorted index_lt a → StronglySorted index_lt (put_all es a).
Proof.
  revert a. induction es as [|e es IH]; intros a Ha; simpl; [done|].
  apply IH. by apply arr_put_sorted.
Qed.

Lemma put_all_to_map es a :
  list_to_map (put_all es a) =@{gmap N jsval} list_to_map (reverse es ++ a).
Proof.
  revert a. induction es as [|[i v] es IH]; intros a; simpl; [done|].
  rewrite IH, reverse_cons, <- app_assoc. simpl.
  rewrite !list_to_map_app, arr_put_to_map. done.
Qed.

Lemma sorted_keys_NoDup a : StronglySorted index_lt a → NoDup a.*1.
Proof.
  induction 1 as [|x a Hs IH Hall]; simpl; constructor; [|done].
  intros [y [Hy Hin]]%list_elem_of_fmap.
  rewrite Forall_forall in Hall. specialize (Hall y Hin).
  unfold index_lt in Hall. rewrite Hy in Hall. lia.
Qed.

Lemma le_sorted_NoDup_lt (l : list (N * jsval)) :
  StronglySorted index_le l → NoDup l.*1 → StronglySorted index_lt l.
Proof.
  induction 1 as [|x l Hs IH Hall]; simpl; intros Hnd; constructor.
  - apply IH. by apply NoDup_cons in Hnd as [_ ?].
  - apply NoDup_cons in Hnd as [Hx _].
    rewrite Forall_forall in Hall |- *. intros y Hy.
    specialize (Hall y Hy). unfold index_le in Hall. unfold index_lt.
    assert (x.1 ≠ y.1); [|lia].
    intros Heq. apply Hx. apply list_elem_of_fmap. by exists y.
Qed.

(** A strictly index-sorted array is the sorted listing of the map it
    represents. *)
Lemma sorted_canonical a :
  StronglySorted index_lt a →
  a = merge_sort index_le (map_to_list (list_to_map a : gmap N jsval)).
Proof.
  intros Hs.
  assert (Hp : merge_sort index_le (map_to_list (list_to_map a : gmap N jsval)) ≡ₚ a).
  { rewrite merge_sort_Permutation. apply map_to_list_to_map.
    by apply sorted_keys_NoDup. }
  apply (StronglySorted_unique index_lt); [done| |by symmetry].
  apply le_sorted_NoDup_lt.
  - apply StronglySorted_merge_sort; apply _.
  - rewrite Hp. by apply sorted_keys_NoDup.
Qed.

Lemma put_all_spec es :
  put_all es [] = merge_sort index_le (map_to_list (by_index es)).
Proof.
  rewrite (sorted_canonical (put_all es [])) by (apply put_all_sorted; constructor).
  by rewrite put_all_to_map, app_nil_r.
Qed.

Lemma arr_length_pos a : (0 <? arr_length a)%N = negb (bool_decide (a = [])).
Proof.
  unfold arr_length. destruct a as [|x a] using rev_ind; [done|].
  rewrite last_snoc. destruct x as [j w].
  rewrite bool_decide_eq_false_2 by (by destruct a). simpl.
  apply N.ltb_lt. lia.
Qed.

Lemma arr_put_nonempty i v a : arr_put i v a ≠ [].
Proof. destruct a as [|[j w] a]; simpl; [done|]. by repeat case_match. Qed.

Lemma put_all_nil es a : put_all es a = [] ↔ es = [] ∧ a = [].
Proof.
  revert a. induction es as [|e es IH]; intros a; simpl; [tauto|].
  rewrite IH. split; [|by intros [? _]].
  intros [_ Ha]. by apply arr_put_nonempty in Ha.
Qed.
End ArrayFacts.

(** ** The reconstruction loop *)

Section CollectFacts.
Implicit Types (b cb : body) (k : string) (v : jsval) (st : collected).

Lemma tools_key_not_features k :
  startsWith k "tools[" = true → startsWith k "features[" = false.
Proof.
  destruct k as [|c k]; cbn [startsWith]; [done|].
  destruct (Ascii.eqb_spec "t" c) as [<-|]; [|done]. done.
Qed.

Lemma field_index_features k :
  field_index "features" k =
  if startsWith k "features[" then parseInt_digits <$> match_index k else None.
Proof. done. Qed.

Lemma field_index_tools k :
  field_index "tools" k =
  if startsWith k "tools[" then parseInt_digits <$> match_index k else None.
Proof. done. Qed.

Lemma field_index_exclusive k i :
  field_index "tools" k = Some i → field_index "features" k = None.
Proof.
  rewrite field_index_features, field_index_tools.
  destruct (startsWith k "tools[") eqn:Ht; [|done].
  by rewrite (tools_key_not_features k Ht).
Qed.

Lemma collect_key_features st k :
  c_features (collect_key st k) =
  match field_index "features" k with
  | Some i => arr_assign i (Body.get k (c_body st)) (c_features st)
  | None => c_features st
  end.
Proof.
  unfold collect_key. rewrite field_index_features.
  destruct (startsWith k "features["); simpl.
  - by destruct (match_index k).
  - destruct (startsWith k "tools["); [|done]. by destruct (match_index k).
Qed.

Lemma collect_key_tools st k :
  c_tools (collect_key st k) =
  match field_index "tools" k with
  | Some i => arr_assign i (Body.get k (c_body st)) (c_tools st)
  | None => c_tools st
  end.
Proof.
  unfold collect_key. rewrite field_index_tools.
  destruct (startsWith k "tools[") eqn:Ht; simpl.
  - rewrite (tools_key_not_features k Ht). by destruct (match_index k).
  - destruct (startsWith k "features["); [|done]. by destruct (match_index k).
Qed.

Lemma collect_key_body st k :
  c_body (collect_key st k) = c_body st ∨
  c_body (collect_key st k) = Body.del k (c_body st)
  ∧ (is_Some (field_index "features" k) ∨ is_Some (field_index "tools" k)).
Proof.
  unfold collect_key. rewrite field_index_features, field_index_tools.
  destruct (startsWith k "features["); simpl.
  - destruct (match_index k); simpl; eauto.
  - destruct (startsWith k "tools["); [|by left].
    destruct (match_index k); simpl; eauto.
Qed.


Lemma collect_key_get st k k' :
  plain_key k' → Body.get k' (c_body (collect_key st k)) = Body.get k' (c_body st).
Proof.
  intros [Hf Ht]. destruct (collect_key_body st k) as [->|[-> Hk]]; [done|].
  apply get_del_ne. intros ->. destruct Hk as [[? Hk]|[? Hk]]; congruence.
Qed.

Lemma collect_key_get_other st k k' :
  k ≠ k' → Body.get k' (c_body (collect_key st k)) = Body.get k' (c_body st).
Proof.
  intros Hne. destruct (collect_key_body st k) as [->|[-> _]]; [done|].
  by apply get_del_ne.
Qed.

Lemma indexed_entries_cons F k v b :
  indexed_entries F ((k, v) :: b) =
  match field_index F k with
  | Some i => if is_array_index i then (i, v) :: indexed_entries F b
              else indexed_entries F b
  | None => indexed_entries F b
  end.
Proof.
  unfold indexed_entries. simpl.
  destruct (field_index F k) as [i|]; simpl; [|done].
  by destruct (is_array_index i).
Qed.

Lemma collect_loop (rest : body) st :
  NoDup (Body.keys rest) →
  (∀ k v, (k, v) ∈ rest → Body.get k (c_body st) = v) →
  c_features (fold_left collect_key (Body.keys rest) st)
    = put_all (indexed_entries "features" rest) (c_features st)
  ∧ c_tools (fold_left collect_key (Body.keys rest) st)
    = put_all (indexed_entries "tools" rest) (c_tools st)
  ∧ ∀ k, plain_key k →
      Body.get k (c_body (fold_left collect_key (Body.keys rest) st))
      = Body.get k (c_body st).
Proof.
  unfold Body.keys. revert st.
  induction rest as [|[k v] rest IH]; intros st Hnd Hget; [done|].
  rewrite fmap_cons in Hnd |- *. cbn [fold_left fst].
  apply NoDup_cons in Hnd as [Hk Hnd].
  destruct (IH (collect_key st k) Hnd) as (Hf & Ht & Hb).
  { intros k' v' Hin. rewrite collect_key_get_other.
    - apply Hget. apply elem_of_cons. by right.
    - intros ->. apply Hk. apply list_elem_of_fmap. by exists (k', v'). }
  assert (Hv : Body.get k (c_body st) = v).
  { apply Hget. apply elem_of_cons. by left. }
  split; [|split].
  - rewrite Hf, collect_key_features, indexed_entries_cons, Hv.
    unfold arr_assign. destruct (field_index "features" k) as [i|]; [|done].
    by destruct (is_array_index i).
  - rewrite Ht, collect_key_tools, indexed_entries_cons, Hv.
    unfold arr_assign. destruct (field_index "tools" k) as [i|]; [|done].
    by destruct (is_array_index i).
  - intros k' Hk'. rewrite Hb by done. by apply collect_key_get.
Qed.

Lemma collect_spec b :
  NoDup (Body.keys b) →
  c_features (collect b) = put_all (indexed_entries "features" b) []
  ∧ c_tools (collect b) = put_all (indexed_entries "tools" b) []
  ∧ ∀ k, plain_key k → Body.get k (c_body (collect b)) = Body.get k b.
Proof.
  intros Hnd. unfold collect. apply (collect_loop b); [done|].
  intros k v Hin. simpl. by apply get_elem_of.
Qed.

(** Writing a field that is not an indexed key leaves the indexed entries
    alone. *)
Lemma indexed_entries_set F k v b :
  field_index F k = None → indexed_entries F (Body.set k v b) = indexed_entries F b.
Proof.
  intros Hk. induction b as [|[k0 w] b IH]; cbn [Body.set].
  - by rewrite indexed_entries_cons, Hk.
  - destruct (String.eqb_spec k0 k) as [->|Hne].
    + by rewrite !indexed_entries_cons, Hk.
    + by rewrite !indexed_entries_cons, IH.
Qed.

Lemma keys_set_NoDup k v b : NoDup (Body.keys b) → NoDup (Body.keys (Body.set k v b)).
Proof.
  unfold Body.keys. induction b as [|[k0 w] b IH]; simpl; intros Hnd.
  - apply NoDup_singleton.
  - apply NoDup_cons in Hnd as [Hk0 Hnd].
    destruct (String.eqb_spec k0 k) as [->|Hne]; simpl.
    + by apply NoDup_cons.
    + apply NoDup_cons. split; [|by apply IH].
      intros [[k1 w1] [Heq Hin]]%list_elem_of_fmap. simpl in Heq. subst k1.
      apply Hk0. clear IH Hnd Hk0.
      induction b as [|[k2 w2] b IH]; simpl in Hin.
      * apply list_elem_of_singleton in Hin. congruence.
      * destruct (String.eqb_spec k2 k) as [->|Hne2].
        -- apply elem_of_cons in Hin as [?|Hin]; [congruence|].
           simpl. apply elem_of_cons. right. apply list_elem_of_fmap. by exists (k0, w1).
        -- apply elem_of_cons in Hin as [[= -> ->]|Hin]; simpl.
           ++ apply elem_of_cons. by left.
           ++ apply elem_of_cons. right. by apply IH.
Qed.
End CollectFacts.

(** ** The normalised body *)

Section NormalizeFacts.
Variable JSON_parse : string → option jsval.
Implicit Types (b : body) (k F : string) (v : jsval).

Lemma parse_string_field_get_ne F k b :
  F ≠ k → Body.get k (parse_string_field JSON_parse F b) = Body.get k b.
Proof.
  intros Hne. unfold parse_string_field.
  destruct (truthy (Body.get F b) && is_string (Body.get F b)); [|done].
  destruct (Body.get F b) as [| |?|?|s|?|?]; try done.
  destruct (JSON_parse s); by rewrite get_set_ne.
Qed.

Lemma parse_string_field_get F b :
  Body.get F (parse_string_field JSON_parse F b) =
  match Body.get F b with
  | JStr s => if s =? "" then JStr s else parsed_or_singleton JSON_parse s
  | v => v
  end.
Proof.
  unfold parse_string_field, parsed_or_singleton.
  destruct (Body.get F b) as [| |[]|n|s|?|?] eqn:Hget; simpl; rewrite ?Hget; try done.
  - by destruct (negb (n =? 0)%Z).
  - destruct (s =? ""); simpl; [by rewrite Hget|].
    destruct (JSON_parse s); by rewrite get_set_eq.
Qed.

Lemma parse_string_field_NoDup F b :
  NoDup (Body.keys b) → NoDup (Body.keys (parse_string_field JSON_parse F b)).
Proof.
  intros Hnd. unfold parse_string_field.
  destruct (truthy (Body.get F b) && is_string (Body.get F b)); [|done].
  destruct (Body.get F b) as [| |?|?|s|?|?]; try done.
  destruct (JSON_parse s); by apply keys_set_NoDup.
Qed.

Lemma parse_string_field_entries F F' b :
  field_index F' F = None →
  indexed_entries F' (parse_string_field JSON_parse F b) = indexed_entries F' b.
Proof.
  intros Hi. unfold parse_string_field.
  destruct (truthy (Body.get F b) && is_string (Body.get F b)); [|done].
  destruct (Body.get F b) as [| |?|?|s|?|?]; try done.
  destruct (JSON_parse s); by apply indexed_entries_set.
Qed.

Lemma collect_frame (ks : list string) st k :
  plain_key k →
  Body.get k (c_body (fold_left collect_key ks st)) = Body.get k (c_body st).
Proof.
  intros Hk. revert st. induction ks as [|k0 ks IH]; intros st; simpl; [done|].
  by rewrite IH, collect_key_get.
Qed.

Lemma store_array_get_ne F a k b :
  F ≠ k → Body.get k (store_array F a b) = Body.get k b.
Proof.
  intros Hne. unfold store_array. destruct (0 <? arr_length a)%N; [|done].
  by apply get_set_ne.
Qed.

Lemma store_array_get F a b :
  Body.get F (store_array F a b) =
  if bool_decide (a = []) then Body.get F b else JArr (filter_Boolean a).
Proof.
  unfold store_array. rewrite arr_length_pos.
  destruct (bool_decide (a = [])); simpl; [done|]. apply get_set_eq.
Qed.

(** Keys other than [features], [tools] and their indexed forms pass
    through the normalisation untouched. *)
Lemma normalize_arrays_frame k b :
  plain_key k → k ≠ "features" → k ≠ "tools" →
  Body.get k (normalize_arrays JSON_parse b) = Body.get k b.
Proof.
  intros Hk Hf Ht. unfold normalize_arrays.
  rewrite !store_array_get_ne by done.
  unfold collect. rewrite collect_frame by done. simpl.
  by rewrite !parse_string_field_get_ne.
Qed.

Lemma filter_Boolean_put_all es :
  filter_Boolean (put_all es []) = reconstruct_spec es.
Proof. unfold filter_Boolean, reconstruct_spec. by rewrite put_all_spec. Qed.

Lemma put_all_empty es : put_all es [] = [] ↔ es = [].
Proof. rewrite put_all_nil. tauto. Qed.

Lemma normalize_arrays_features b :
  NoDup (Body.keys b) →
  Body.get "features" (normalize_arrays JSON_parse b) =
  if bool_decide (indexed_entries "features" b = [])
  then Body.get "features" (parse_string_field JSON_parse "features" b)
  else JArr (reconstruct_spec (indexed_entries "features" b)).
Proof.
  intros Hnd. unfold normalize_arrays.
  set (b2 := parse_string_field _ "tools" (parse_string_field _ "features" b)).
  assert (Hnd2 : NoDup (Body.keys b2)) by by do 2 apply parse_string_field_NoDup.
  destruct (collect_spec b2 Hnd2) as (Hf & Ht & Hb).
  rewrite store_array_get_ne by done. rewrite store_array_get, Hf.
  assert (He : indexed_entries "features" b2 = indexed_entries "features" b).
  { unfold b2. by rewrite !parse_string_field_entries. }
  rewrite He, filter_Boolean_put_all.
  rewrite (bool_decide_ext _ _ (put_all_empty _)).
  case_bool_decide; [|done].
  rewrite Hb by done. unfold b2. by rewrite parse_string_field_get_ne.
Qed.

Lemma normalize_arrays_tools b :
  NoDup (Body.keys b) →
  Body.get "tools" (normalize_arrays JSON_parse b) =
  if bool_decide (indexed_entries "tools" b = [])
  then Body.get "tools" (parse_string_field JSON_parse "tools" b)
  else JArr (reconstruct_spec (indexed_entries "tools" b)).
Proof.
  intros Hnd. unfold normalize_arrays.
  set (b2 := parse_string_field _ "tools" (parse_string_field _ "features" b)).
  assert (Hnd2 : NoDup (Body.keys b2)) by by do 2 apply parse_string_field_NoDup.
  destruct (collect_spec b2 Hnd2) as (Hf & Ht & Hb).
  rewrite store_array_get, Ht.
  assert (He : indexed_entries "tools" b2 = indexed_entries "tools" b).
  { unfold b2. by rewrite !parse_string_field_entries. }
  rewrite He, filter_Boolean_put_all.
  rewrite (bool_decide_ext _ _ (put_all_empty _)).
  case_bool_decide; [|done].
  rewrite store_array_get_ne by done.
  rewrite Hb by done. unfold b2.
  rewrite !parse_string_field_get.
  by rewrite parse_string_field_get_ne.
Qed.

Lemma normalize_arrays_field F b :
  F = "features" ∨ F = "tools" →
  NoDup (Body.keys b) →
  Body.get F (normalize_arrays JSON_parse b) =
  if bool_decide (indexed_entries F b = [])
  then Body.get F (parse_string_field JSON_parse F b)
  else JArr (reconstruct_spec (indexed_entries F b)).
Proof.
  intros [->| ->]; [apply normalize_arrays_features|apply normalize_arrays_tools].
Qed.


End NormalizeFacts.

(** ** Running the project handlers *)

Section HandlerFacts.
Variable E : services.
Implicit Types (w : world) (req : request).

#[local] Instance newer_first_total : Total newer_first.
Proof. intros p q. unfold newer_first. lia. Qed.
#[local] Instance newer_first_trans : Transitive newer_first.
Proof. intros p q r. unfold newer_first. lia. Qed.

Lemma Project_findById_run id w :
  Project_findById id w = (Value (projects w !! id), with_db_call (FindById id) w).
Proof. done. Qed.

Lemma getProjects_run req w :
  getProjects E req w =
  match find_sorted E (projects w) (db_calls w) with
  | inl ps => (send 200 (Many (List.length ps) ps), with_db_call Find w)
  | inr message =>
      (send 500 (Failure "Error fetching projects" message),
       with_console "Error fetching projects:" (with_db_call Find w))
  end.
Proof.
  unfold getProjects, Project_find_sorted. unfold_monad. simpl.
  by destruct (find_sorted E (projects w) (db_calls w)).
Qed.

(** Two listings of the same records by the same order are the same
    listing as soon as the order tells the records apart. *)
Lemma sorted_listing_unique {A} (R : relation A) (l1 l2 : list A) :
  StronglySorted R l1 → StronglySorted R l2 → l1 ≡ₚ l2 →
  (∀ x y, x ∈ l1 → y ∈ l1 → R x y → R y x → x = y) →
  l1 = l2.
Proof.
  intros H1. revert l2. induction H1 as [|x l1 Hs1 IH Hx]; intros l2 H2 Hp Hanti.
  - by apply Permutation_nil_l in Hp.
  - destruct H2 as [|y l2 Hs2 Hy].
    { by apply Permutation_nil_r in Hp. }
    assert (x = y) as <-.
    { assert (Hxin : x ∈ y :: l2) by (rewrite <- Hp; apply list_elem_of_here).
      assert (Hyin : y ∈ x :: l1) by (rewrite Hp; apply list_elem_of_here).
      apply elem_of_cons in Hxin as [Heq|Hxin]; [done|].
      apply elem_of_cons in Hyin as [Heq|Hyin]; [done|].
      rewrite Forall_forall in Hx, Hy.
      apply Hanti; [apply list_elem_of_here|by apply list_elem_of_further|auto..]. }
    f_equal. apply IH; [done|by apply Permutation_cons_inv in Hp|].
    intros a b Ha Hb. apply Hanti; by apply list_elem_of_further.
Qed.

(** C8 (amended).  [getProjects] sends the one listing query and passes
    on what the store answers: when the query resolves it replies 200 with
    the documents in the store's order and their number, when it rejects
    it replies 500; either way it writes nothing.  So when the store answers
    the listing query as specified (every record, newest first), the reply
    lists every record newest first, and a second call, which meets the
    same collection, lists the same records newest first again, in the
    very same order whenever no two records share a creation time; and
    whenever the store repeats its answer the second reply is the first. *)
Theorem getProjects_newest_first req w :
  let after := getProjects E req w in
  projects after.2 = projects w
  ∧ db_calls after.2 = (db_calls w ++ [Find])%list
  ∧ media_calls after.2 = media_calls w
  ∧ (∀ message, find_sorted E (projects w) (db_calls w) = inr message →
       after.1 = send 500 (Failure "Error fetching projects" message))
  ∧ (∀ ps, find_sorted E (projects w) (db_calls w) = inl ps →
       after.1 = send 200 (Many (List.length ps) ps)
       ∧ (newest_first_listing (projects w) ps →
          ps ≡ₚ (map_to_list (projects w)).*2
          ∧ StronglySorted newer_first ps
          ∧ ∀ req' ps',
              find_sorted E (projects after.2) (db_calls after.2) = inl ps' →
              newest_first_listing (projects after.2) ps' →
              (getProjects E req' after.2).1 = send 200 (Many (List.length ps') ps')
              ∧ ps' ≡ₚ ps
              ∧ StronglySorted newer_first ps'
              ∧ ((∀ p q, p ∈ ps → q ∈ ps → createdAt p = createdAt q → p = q) →
                 ps' = ps)
              ∧ (ps' = ps → (getProjects E req' after.2).1 = after.1))).
Proof.
  cbv zeta. rewrite getProjects_run.
  destruct (find_sorted E (projects w) (db_calls w)) as [ps0|m0] eqn:Hfirst; simpl.
  - split_and!; [done..| |]; [by intros m|].
    intros ps [= <-]. split; [done|]. intros [Hperm Hsorted].
    apply Sorted_StronglySorted in Hsorted; [|apply _].
    split_and!; [done..|].
    intros req' ps' Hsecond [Hperm' Hsorted'].
    apply Sorted_StronglySorted in Hsorted'; [|apply _].
    rewrite getProjects_run. simpl. rewrite Hsecond. simpl.
    assert (Hsame : ps' ≡ₚ ps0) by (by rewrite Hperm, Hperm').
    split_and!; [done..| |by intros ->].
    intros Hdistinct. apply sorted_listing_unique with newer_first; [done..|].
    intros p q Hp%(elem_of_Permutation_proper _ _ _ Hsame)
                Hq%(elem_of_Permutation_proper _ _ _ Hsame) Hpq Hqp.
    apply Hdistinct; [done..|]. unfold newer_first in *. lia.
  - split_and!; [done..| |by intros ps].
    by intros m [= <-].
Qed.

Lemma getProject_invalid req w :
  ObjectId_isValid E (params_id req) = false →
  getProject E req w = (send 400 (Message false "Invalid project ID format"), w).
Proof. intros H. unfold getProject. unfold_monad. by rewrite H. Qed.

Lemma updateProject_invalid req w :
  ObjectId_isValid E (params_id req) = false →
  updateProject E req w = (send 400 (Message false "Invalid project ID format"), w).
Proof. intros H. unfold updateProject. unfold_monad. by rewrite H. Qed.

Lemma deleteProject_invalid req w :
  ObjectId_isValid E (params_id req) = false →
  deleteProject E req w = (send 400 (Message false "Invalid project ID format"), w).
Proof. intros H. unfold deleteProject. unfold_monad. by rewrite H. Qed.

Lemma getProject_missing req w :
  ObjectId_isValid E (params_id req) = true →
  projects w !! params_id req = None →
  getProject E req w =
  (send 404 (Message false "Project not found"), with_db_call (FindById (params_id req)) w).
Proof.
  intros H Hn. unfold getProject, Project_findById. unfold_monad.
  rewrite H. simpl. by rewrite Hn.
Qed.

Lemma updateProject_missing req w :
  ObjectId_isValid E (params_id req) = true →
  projects w !! params_id req = None →
  updateProject E req w =
  (send 404 (Message false "Project not found"), with_db_call (FindById (params_id req)) w).
Proof.
  intros H Hn. unfold updateProject, Project_findById. unfold_monad.
  rewrite H. simpl. by rewrite Hn.
Qed.

Lemma deleteProject_missing req w :
  ObjectId_isValid E (params_id req) = true →
  projects w !! params_id req = None →
  deleteProject E req w =
  (send 404 (Message false "Project not found"), with_db_call (FindById (params_id req)) w).
Proof.
  intros H Hn. unfold deleteProject, Project_findById. unfold_monad.
  rewrite H. simpl. by rewrite Hn.
Qed.

(** [deleteProject] when the media store rejects a deletion it asks for:
    the exception leaves the [try] block before the record is deleted. *)
Lemma deleteProject_rejected req w p :
  ObjectId_isValid E (params_id req) = true →
  projects w !! params_id req = Some p →
  (cloudinaryVideoPublicId p ≠ ""
   ∧ destroy_resolves E Video (cloudinaryVideoPublicId p) = false)
  ∨ (cloudinaryThumbnailPublicId p ≠ ""
     ∧ destroy_resolves E Image (cloudinaryThumbnailPublicId p) = false) →
  ∃ w', deleteProject E req w
        = (send 500 (Failure "Error deleting project" "media store: destroy failed"), w')
        ∧ projects w' = projects w
        ∧ db_calls w' = (db_calls w ++ [FindById (params_id req)])%list.
Proof.
  intros H Hp Hrej. unfold deleteProject, Project_findById, deleteFromCloudinary.
  unfold_monad. rewrite H. simpl. rewrite Hp.
  destruct (String.eqb_spec (cloudinaryVideoPublicId p) "") as [Hv|Hv];
    destruct (destroy_resolves E Video (cloudinaryVideoPublicId p)) eqn:Hdv;
    destruct (String.eqb_spec (cloudinaryThumbnailPublicId p) "") as [Ht|Ht];
    destruct (destroy_resolves E Image (cloudinaryThumbnailPublicId p)) eqn:Hdt;
    simpl; rewrite ?Hdv, ?Hdt; simpl; eauto;
    destruct Hrej as [[? ?]|[? ?]]; congruence.
Qed.
End HandlerFacts.

(** ** Media calls of an update *)

Section MediaFacts.
Variable E : services.
Implicit Types (w : world) (req : request) (K : media_keys) (b : body).

Lemma destroyed_app k c1 c2 : destroyed k (c1 ++ c2) = (destroyed k c1 ++ destroyed k c2)%list.
Proof. unfold destroyed. apply omap_app. Qed.

Lemma same_kind_refl k : same_kind k k = true.
Proof. by destruct k. Qed.

(** A best-effort deletion issues its call and carries on. *)
Lemma destroy_quietly_run k publicId warning w :
  ∃ w', destroy_quietly E k publicId warning w = (Value tt, w')
        ∧ projects w' = projects w
        ∧ db_calls w' = db_calls w
        ∧ media_calls w' = (media_calls w ++ [Destroy k publicId])%list.
Proof.
  unfold destroy_quietly, deleteFromCloudinary. unfold_monad. simpl.
  destruct (destroy_resolves E k publicId); eauto.
Qed.

(** The world after one media block of [updateProject]: the collection is
    not touched, and the calls issued all concern the block's own kind. *)
Lemma update_media_world K existingId files b w o w' :
  update_media E K existingId files b w = (o, w') →
  projects w' = projects w
  ∧ db_calls w' = db_calls w
  ∧ ∃ calls, media_calls w' = (media_calls w ++ calls)%list
      ∧ (∀ k, same_kind k (kind K) = false → destroyed k calls = [])
      ∧ (truthy (Body.get (urlKey K) b) = true →
         truthy (Body.get (idKey K) b) = true →
         o = Value b
         ∧ destroyed (kind K) calls =
             if negb (existingId =? "")
                && negb (strict_eq_str (Body.get (idKey K) b) existingId)
             then [existingId] else []).
Proof.
  unfold update_media. unfold_monad.
  destruct (truthy (Body.get (urlKey K) b) && truthy (Body.get (idKey K) b)) eqn:Hpair.
  - destruct (negb (existingId =? "")
              && negb (strict_eq_str (Body.get (idKey K) b) existingId)) eqn:Hold.
    + destruct (destroy_quietly_run (kind K) existingId (warn_replaced K) w)
        as (w1 & -> & Hp & Hd & Hm).
      intros [= <- <-]. split_and!; [done..|].
      exists [Destroy (kind K) existingId]. split_and!; [done| |].
      * intros k Hk. simpl. destruct (kind K), k; by simplify_eq/=.
      * intros _ _. simpl. by rewrite same_kind_refl.
    + intros [= <- <-]. split_and!; [done..|].
      exists []. by rewrite app_nil_r.
  - assert (Hno : ¬ (truthy (Body.get (urlKey K) b) = true
                     ∧ truthy (Body.get (idKey K) b) = true)).
    { intros [H1 H2]. by rewrite H1, H2 in Hpair. }
    destruct (strict_eq_str (Body.get (removeKey K) b) "true"
              || strict_eq_str (Body.get (urlKey K) b) "").
    + destruct (negb (existingId =? "")).
      * destruct (destroy_quietly_run (kind K) existingId (warn_removed K) w)
          as (w1 & -> & Hp & Hd & Hm).
        intros [= <- <-]. split_and!; [done..|].
        exists [Destroy (kind K) existingId]. split_and!; [done| |tauto].
        intros k Hk. simpl. destruct (kind K), k; by simplify_eq/=.
      * intros [= <- <-]. split_and!; [done..|].
        exists []. rewrite app_nil_r. split_and!; [done..|tauto].
    + destruct (head files) as [input|].
      * assert (∃ w1, (if negb (existingId =? "")
                       then destroy_quietly E (kind K) existingId (warn_legacy K)
                       else λ w0, (Value (), w0)) w = (Value tt, w1)
                      ∧ projects w1 = projects w ∧ db_calls w1 = db_calls w
                      ∧ ∃ c1, media_calls w1 = (media_calls w ++ c1)%list
                              ∧ ∀ k, same_kind k (kind K) = false → destroyed k c1 = [])
          as (w1 & -> & Hp & Hd & c1 & Hm & Hc1).
        { destruct (negb (existingId =? "")).
          - destruct (destroy_quietly_run (kind K) existingId (warn_legacy K) w)
              as (w1 & -> & Hp & Hd & Hm).
            exists w1. split_and!; [done..|].
            exists [Destroy (kind K) existingId]. split; [done|].
            intros k Hk. simpl. destruct (kind K), k; by simplify_eq/=.
          - exists w. split_and!; [done..|]. exists []. by rewrite app_nil_r. }
        unfold uploadToCloudinary. unfold_monad. simpl.
        destruct (upload_result E (kind K) input) as [r|]; simpl;
          intros [= <- <-]; simpl; (split_and!; [done..|]);
          exists (c1 ++ [Upload (kind K) input])%list;
          (split_and!; [by rewrite Hm, app_assoc| |tauto]);
          intros k Hk; rewrite destroyed_app, Hc1 by done; done.
      * intros [= <- <-]. split_and!; [done..|].
        exists []. rewrite app_nil_r. split_and!; [done..|tauto].
Qed.
End MediaFacts.

(** ** Media pairs *)

Section PairingFacts.
Variable E : services.
Implicit Types (w : world) (req : request) (K : media_keys) (b : body).

(** A coherently supplied pair, laid over a paired record, stays paired. *)
Lemma stored_pair_unchanged (u p : jsval) (old_url old_id : string) :
  supplied_together u p →
  paired old_url old_id →
  paired (cast_or (cast_string u) old_url) (cast_or (cast_string p) old_id).
Proof. by intros [[-> ->]|(s & t & -> & -> & Hst)] Hold. Qed.

Lemma update_media_value K existingId old_url files b w b' w' :
  update_media E K existingId files b w = (Value b', w') →
  (∀ k, k ≠ urlKey K → k ≠ idKey K → Body.get k b' = Body.get k b)
  ∧ (urlKey K ≠ idKey K →
     uploads_paired E →
     supplied_together (Body.get (urlKey K) b) (Body.get (idKey K) b) →
     paired old_url existingId →
     paired (cast_or (cast_string (Body.get (urlKey K) b')) old_url)
            (cast_or (cast_string (Body.get (idKey K) b')) existingId)).
Proof.
  unfold update_media. unfold_monad.
  assert (Hcleared : ∀ b0, urlKey K ≠ idKey K →
            paired
              (cast_or (cast_string (Body.get (urlKey K)
                 (Body.set (idKey K) (JStr "") (Body.set (urlKey K) (JStr "") b0)))) old_url)
              (cast_or (cast_string (Body.get (idKey K)
                 (Body.set (idKey K) (JStr "") (Body.set (urlKey K) (JStr "") b0)))) existingId)).
  { intros b0 Hne. rewrite get_set_eq, get_set_ne, get_set_eq by done. done. }
  destruct (truthy (Body.get (urlKey K) b) && truthy (Body.get (idKey K) b)).
  { destruct (negb (existingId =? "")
              && negb (strict_eq_str (Body.get (idKey K) b) existingId)).
    - destruct (destroy_quietly_run E (kind K) existingId (warn_replaced K) w)
        as (w1 & -> & _).
      intros [= <- <-]. split; [done|]. intros. by apply stored_pair_unchanged.
    - intros [= <- <-]. split; [done|]. intros. by apply stored_pair_unchanged. }
  destruct (strict_eq_str (Body.get (removeKey K) b) "true"
            || strict_eq_str (Body.get (urlKey K) b) "").
  { destruct (negb (existingId =? "")).
    - destruct (destroy_quietly_run E (kind K) existingId (warn_removed K) w)
        as (w1 & -> & _).
      intros [= <- <-]. split.
      + intros k Hu Hi. by rewrite !get_set_ne.
      + intros Hne _ _ _. by apply Hcleared.
    - intros [= <- <-]. split; [done|]. intros. by apply stored_pair_unchanged. }
  destruct (head files) as [input|].
  - destruct (negb (existingId =? "")).
    + destruct (destroy_quietly_run E (kind K) existingId (warn_legacy K) w)
        as (w1 & -> & _).
      unfold uploadToCloudinary. unfold_monad. simpl.
      destruct (upload_result E (kind K) input) as [[u p]|] eqn:Hup; simpl; [|done].
      intros [= <- <-]. split.
      * intros k Hu Hi. by rewrite !get_set_ne.
      * intros Hne Hups _ _.
        rewrite get_set_eq, get_set_ne, get_set_eq by done. simpl.
        by eapply Hups.
    + unfold uploadToCloudinary. unfold_monad. simpl.
      destruct (upload_result E (kind K) input) as [[u p]|] eqn:Hup; simpl; [|done].
      intros [= <- <-]. split.
      * intros k Hu Hi. by rewrite !get_set_ne.
      * intros Hne Hups _ _.
        rewrite get_set_eq, get_set_ne, get_set_eq by done. simpl.
        by eapply Hups.
  - intros [= <- <-]. split; [done|]. intros. by apply stored_pair_unchanged.
Qed.

Lemma add_upload_value k urlK idK failure files b w b' w' :
  add_upload E k urlK idK failure files b w = (Value b', w') →
  projects w' = projects w
  ∧ db_calls w' = db_calls w
  ∧ (∀ k', k' ≠ urlK → k' ≠ idK → Body.get k' b' = Body.get k' b)
  ∧ (urlK ≠ idK →
     uploads_paired E →
     supplied_together (Body.get urlK b) (Body.get idK b) →
     paired (cast_or (cast_string (Body.get urlK b')) "")
            (cast_or (cast_string (Body.get idK b')) "")).
Proof.
  unfold add_upload. destruct (head files) as [input|].
  - unfold uploadToCloudinary. unfold_monad. simpl.
    destruct (upload_result E k input) as [[u p]|] eqn:Hup; simpl; [|done].
    intros [= <- <-]. split_and!; [done..| |].
    + intros k' Hu Hi. by rewrite !get_set_ne.
    + intros Hne Hups _.
      rewrite get_set_eq, get_set_ne, get_set_eq by done. simpl.
      by eapply Hups.
  - unfold_monad. intros [= <- <-]. split_and!; [done..|].
    intros. by apply stored_pair_unchanged.
Qed.
End PairingFacts.

(** ** The write handlers, step by step *)

Section WriteFacts.
Variable E : services.
Implicit Types (w : world) (req : request) (K : media_keys) (b : body).

Lemma update_media_outcome K existingId files b w o w' :
  update_media E K existingId files b w = (o, w') →
  (∃ b', o = Value b') ∨ (∃ r, o = Return r ∧ status r = 500).
Proof.
  unfold update_media. unfold_monad.
  repeat match goal with
  | |- context [destroy_quietly E ?k ?i ?m ?w0] =>
      let w1 := fresh "w" in
      destruct (destroy_quietly_run E k i m w0) as (w1 & -> & _)
  | |- context [if ?c then _ else _] => destruct c
  | |- context [match head ?f with _ => _ end] => destruct (head f)
  end;
  unfold uploadToCloudinary; unfold_monad; simpl;
  repeat match goal with
  | |- context [upload_result ?e ?k ?i] => destruct (upload_result e k i)
  end; simpl; intros [= <- <-]; eauto.
Qed.

Lemma add_upload_outcome k urlK idK failure files b w o w' :
  add_upload E k urlK idK failure files b w = (o, w') →
  (∃ b', o = Value b') ∨ (∃ r, o = Return r ∧ status r = 500).
Proof.
  unfold add_upload. destruct (head files) as [input|].
  - unfold uploadToCloudinary. unfold_monad. simpl.
    destruct (upload_result E k input); simpl; intros [= <- <-]; eauto.
  - unfold_monad. intros [= <- <-]. eauto.
Qed.

(** Saving stores the document, throws a validation error, or is rejected
    by the store. *)
Lemma Project_save_run b w :
  let doc := apply_body b (blank (new_ObjectId E (projects w)) (now E)) in
  Project_save E b w =
  match (body_cast_errors b ++ required_errors doc)%list with
  | [] =>
      match save_error E (projects w) doc with
      | Some message => (Throw (Rejected message), with_db_call Save w)
      | None =>
          (Value doc,
           with_projects (<[_id doc := doc]> (projects w)) (with_db_call Save w))
      end
  | errors => (Throw (ValidationError errors), with_db_call Save w)
  end.
Proof.
  intros doc. unfold Project_save. unfold_monad. simpl. fold doc.
  destruct (body_cast_errors b ++ required_errors doc)%list; [|done].
  by destruct (save_error E (projects w) doc).
Qed.

Lemma Project_findByIdAndUpdate_run id b w old :
  projects w !! id = Some old →
  let doc := apply_body b old in
  Project_findByIdAndUpdate id b w =
  match (body_cast_errors b ++ required_errors doc)%list with
  | [] => (Value (Some doc),
           with_projects (<[id := doc]> (projects w)) (with_db_call (FindByIdAndUpdate id) w))
  | errors => (Throw (ValidationError errors), with_db_call (FindByIdAndUpdate id) w)
  end.
Proof.
  intros Hold doc. unfold Project_findByIdAndUpdate. unfold_monad. simpl.
  rewrite Hold. fold doc.
  by destruct (body_cast_errors b ++ required_errors doc)%list.
Qed.

(** The reply of the write handlers once the body [b] is ready to be
    stored. *)
Lemma addProject_run req w :
  addProject E req w =
  let b0 := normalize_arrays (JSON_parse E) (req_body req) in
  let finish b w1 :=
    match Project_save E b w1 with
    | (Value doc, w2) =>
        (send 201 (One (Some "Project added successfully") (Some doc)), w2)
    | (Throw (ValidationError errors), w2) =>
        (send 400 (Invalid "Validation error" errors),
         with_console "Error adding project:" w2)
    | (Throw error, w2) =>
        (send 500 (Failure "Error adding project" (exn_message error)),
         with_console "Error adding project:" w2)
    | (Return r, w2) => (r, w2)
    end in
  if includes (default "" (content_type req)) "application/json" then finish b0 w
  else
    match add_upload E Video "cloudinaryVideoUrl" "cloudinaryVideoPublicId"
            "Error uploading video to Cloudinary" (files_video req) b0 w with
    | (Value b1, w1) =>
        match add_upload E Image "cloudinaryThumbnailUrl" "cloudinaryThumbnailPublicId"
                "Error uploading thumbnail to Cloudinary" (files_thumbnail req) b1 w1 with
        | (Value b2, w2) => finish b2 w2
        | (Return r, w2) => (r, w2)
        | (Throw error, w2) =>
            (send 500 (Failure "Error adding project" (exn_message error)),
             with_console "Error adding project:" w2)
        end
    | (Return r, w1) => (r, w1)
    | (Throw error, w1) =>
        (send 500 (Failure "Error adding project" (exn_message error)),
         with_console "Error adding project:" w1)
    end.
Proof.
  unfold addProject. unfold_monad. cbv zeta.
  destruct (includes _ _).
  - destruct (Project_save E _ w) as [[doc|r|[errors|m]] w2]; done.
  - destruct (add_upload E Video _ _ _ _ _ w) as [[b1|r1|e1] w1] eqn:H1.
    + destruct (add_upload E Image _ _ _ _ b1 w1) as [[b2|r2|e2] w2] eqn:H2.
      * destruct (Project_save E _ w2) as [[doc|r|[errors|m]] w3]; done.
      * done.
      * apply add_upload_outcome in H2 as [[? ?]|(? & ? & ?)]; done.
    + done.
    + apply add_upload_outcome in H1 as [[? ?]|(? & ? & ?)]; done.
Qed.

Lemma updateProject_run req w existing :
  ObjectId_isValid E (params_id req) = true →
  projects w !! params_id req = Some existing →
  updateProject E req w =
  let id := params_id req in
  let b0 := normalize_arrays (JSON_parse E) (req_body req) in
  match update_media E video_keys (cloudinaryVideoPublicId existing)
          (files_video req) b0 (with_db_call (FindById id) w) with
  | (Value b1, w1) =>
      match update_media E thumbnail_keys (cloudinaryThumbnailPublicId existing)
              (files_thumbnail req) b1 w1 with
      | (Value b2, w2) =>
          match Project_findByIdAndUpdate id b2 w2 with
          | (Value updated, w3) =>
              (send 200 (One (Some "Project updated successfully") updated), w3)
          | (Throw (ValidationError errors), w3) =>
              (send 400 (Invalid "Validation error" errors),
               with_console "Error updating project:" w3)
          | (Throw error, w3) =>
              (send 500 (Failure "Error updating project" (exn_message error)),
               with_console "Error updating project:" w3)
          | (Return r, w3) => (r, w3)
          end
      | (Return r, w2) => (r, w2)
      | (Throw error, w2) =>
          (send 500 (Failure "Error updating project" (exn_message error)),
           with_console "Error updating project:" w2)
      end
  | (Return r, w1) => (r, w1)
  | (Throw error, w1) =>
      (send 500 (Failure "Error updating project" (exn_message error)),
       with_console "Error updating project:" w1)
  end.
Proof.
  intros Hvalid Hfound. unfold updateProject, Project_findById. unfold_monad.
  rewrite Hvalid. simpl. rewrite Hfound. cbv zeta.
  destruct (update_media E video_keys _ _ _ _) as [[b1|r1|e1] w1] eqn:H1.
  - destruct (update_media E thumbnail_keys _ _ b1 w1) as [[b2|r2|e2] w2] eqn:H2.
    + destruct (Project_findByIdAndUpdate _ _ w2) as [[u|r|[errors|m]] w3]; done.
    + done.
    + apply update_media_outcome in H2 as [[? ?]|(? & ? & ?)]; done.
  - done.
  - apply update_media_outcome in H1 as [[? ?]|(? & ? & ?)]; done.
Qed.
End WriteFacts.

Section WriteTheorems.
Variable E : services.
Implicit Types (w : world) (req : request) (K : media_keys) (b : body).

Lemma cast_errors_nil {A} path (c : cast A) : cast_errors path c = [] → c ≠ CastError.
Proof. by destruct c. Qed.

Lemma media_key_frame k b :
  k = "cloudinaryVideoUrl" ∨ k = "cloudinaryVideoPublicId"
  ∨ k = "cloudinaryThumbnailUrl" ∨ k = "cloudinaryThumbnailPublicId" →
  Body.get k (normalize_arrays (JSON_parse E) b) = Body.get k b.
Proof.
  intros Hk. apply normalize_arrays_frame;
    destruct Hk as [->|[->|[->| ->]]]; done.
Qed.

Lemma normalize_pairs_supplied b :
  pairs_supplied_together b →
  pairs_supplied_together (normalize_arrays (JSON_parse E) b).
Proof. unfold pairs_supplied_together. rewrite !media_key_frame; tauto. Qed.

Lemma Project_save_stored b w doc w' :
  Project_save E b w = (Value doc, w') →
  doc = apply_body b (blank (new_ObjectId E (projects w)) (now E))
  ∧ (body_cast_errors b ++ required_errors doc)%list = []
  ∧ projects w' !! _id doc = Some doc.
Proof.
  rewrite Project_save_run. cbv zeta.
  destruct (body_cast_errors b ++ required_errors _)%list eqn:Herr; [|done].
  destruct (save_error E _ _); [done|].
  intros [= <- <-]. split_and!; [done..|]. simpl. apply lookup_insert_eq.
Qed.
End WriteTheorems.

Section Pairing.
Variable E : services.
Implicit Types (w : world) (req : request) (K : media_keys) (b : body).

(** A document saved from a body whose pairs are coherent is paired. *)
Lemma saved_paired b w doc w' :
  supplied_together (Body.get "cloudinaryVideoUrl" b)
                    (Body.get "cloudinaryVideoPublicId" b)
  ∨ paired (cast_or (cast_string (Body.get "cloudinaryVideoUrl" b)) "")
           (cast_or (cast_string (Body.get "cloudinaryVideoPublicId" b)) "") →
  supplied_together (Body.get "cloudinaryThumbnailUrl" b)
                    (Body.get "cloudinaryThumbnailPublicId" b)
  ∨ paired (cast_or (cast_string (Body.get "cloudinaryThumbnailUrl" b)) "")
           (cast_or (cast_string (Body.get "cloudinaryThumbnailPublicId" b)) "") →
  Project_save E b w = (Value doc, w') →
  media_paired doc ∧ projects w' !! _id doc = Some doc.
Proof.
  intros Hv Ht (-> & Herr & Hst)%Project_save_stored. split; [|done].
  split; simpl.
  - destruct Hv; [by apply stored_pair_unchanged|done].
  - destruct Ht; [by apply stored_pair_unchanged|done].
Qed.

Lemma Project_save_outcome b w o w' :
  Project_save E b w = (o, w') →
  (∃ doc, o = Value doc) ∨ (∃ e, o = Throw e).
Proof.
  rewrite Project_save_run. cbv zeta.
  destruct (_ ++ _)%list; [destruct (save_error E _ _)|]; intros [= <- <-]; eauto.
Qed.

Lemma addProject_pairing req w :
  uploads_paired E →
  pairs_supplied_together (req_body req) →
  status (addProject E req w).1 = 201 →
  ∃ doc, (addProject E req w).1
         = send 201 (One (Some "Project added successfully") (Some doc))
         ∧ media_paired doc
         ∧ projects (addProject E req w).2 !! _id doc = Some doc.
Proof.
  intros Hup Hs. apply (normalize_pairs_supplied E) in Hs as [Hv Ht].
  rewrite addProject_run. cbv zeta.
  set (b0 := normalize_arrays _ _) in *.
  destruct (includes _ _).
  - destruct (Project_save E b0 w) as [o w2] eqn:Hsave.
    destruct (Project_save_outcome _ _ _ _ Hsave) as [[doc ->]|[[errors|message] ->]]; [|done..].
    intros _. exists doc. split; [done|]. simpl.
    eapply saved_paired; [left; exact Hv|left; exact Ht|exact Hsave].
  - destruct (add_upload E Video _ _ _ _ b0 w) as [o1 w1] eqn:H1.
    destruct (add_upload_outcome _ _ _ _ _ _ _ _ _ _ H1) as [[b1 ->]|(r1 & -> & Hs1)];
      [|simpl; by rewrite Hs1].
    destruct (add_upload E Image _ _ _ _ b1 w1) as [o2 w2] eqn:H2.
    destruct (add_upload_outcome _ _ _ _ _ _ _ _ _ _ H2) as [[b2 ->]|(r2 & -> & Hs2)];
      [|simpl; by rewrite Hs2].
    destruct (add_upload_value _ _ _ _ _ _ _ _ _ _ H1) as (_ & _ & Hf1 & Hp1).
    destruct (add_upload_value _ _ _ _ _ _ _ _ _ _ H2) as (_ & _ & Hf2 & Hp2).
    destruct (Project_save E b2 w2) as [o w3] eqn:Hsave.
    destruct (Project_save_outcome _ _ _ _ Hsave) as [[doc ->]|[[errors|message] ->]]; [|done..].
    intros _. exists doc. split; [done|]. simpl.
    eapply saved_paired; [| |exact Hsave].
    + right.
      rewrite (Hf2 "cloudinaryVideoUrl"), (Hf2 "cloudinaryVideoPublicId") by done.
      by apply Hp1.
    + right. apply Hp2; try done.
      by rewrite (Hf1 "cloudinaryThumbnailUrl"), (Hf1 "cloudinaryThumbnailPublicId").
Qed.
End Pairing.

Section UpdateTheorems.
Variable E : services.
Implicit Types (w : world) (req : request) (K : media_keys) (b : body).

Lemma updateProject_status_200 req w :
  status (updateProject E req w).1 = 200 →
  ObjectId_isValid E (params_id req) = true
  ∧ ∃ existing, projects w !! params_id req = Some existing.
Proof.
  intros Hs. destruct (ObjectId_isValid E (params_id req)) eqn:Hv.
  - split; [done|]. destruct (projects w !! params_id req) as [p|] eqn:Hp; [eauto|].
    by rewrite updateProject_missing in Hs.
  - by rewrite updateProject_invalid in Hs.
Qed.

Lemma updateProject_pairing req w :
  uploads_paired E →
  pairs_supplied_together (req_body req) →
  (∀ existing, projects w !! params_id req = Some existing → media_paired existing) →
  status (updateProject E req w).1 = 200 →
  ∃ doc, (updateProject E req w).1
         = send 200 (One (Some "Project updated successfully") (Some doc))
         ∧ media_paired doc
         ∧ projects (updateProject E req w).2 !! params_id req = Some doc.
Proof.
  intros Hup Hs Hex H200.
  destruct (updateProject_status_200 _ _ H200) as (Hvalid & existing & Hfound).
  apply (normalize_pairs_supplied E) in Hs as [Hv Ht].
  destruct (Hex _ Hfound) as [Hpv Hpt]. clear Hex.
  revert H200. rewrite (updateProject_run E req w existing) by done. cbv zeta.
  set (b0 := normalize_arrays _ _) in *.
  destruct (update_media E video_keys _ _ b0 _) as [o1 w1] eqn:H1.
  destruct (update_media_outcome _ _ _ _ _ _ _ _ H1) as [[b1 ->]|(r1 & -> & Hs1)];
    [|simpl; by rewrite Hs1].
  destruct (update_media E thumbnail_keys _ _ b1 w1) as [o2 w2] eqn:H2.
  destruct (update_media_outcome _ _ _ _ _ _ _ _ H2) as [[b2 ->]|(r2 & -> & Hs2)];
    [|simpl; by rewrite Hs2].
  destruct (update_media_world _ _ _ _ _ _ _ _ H1) as (Hw1 & _).
  destruct (update_media_world _ _ _ _ _ _ _ _ H2) as (Hw2 & _).
  destruct (update_media_value E _ _ (cloudinaryVideoUrl existing) _ _ _ _ _ H1)
    as (Hf1 & Hp1).
  destruct (update_media_value E _ _ (cloudinaryThumbnailUrl existing) _ _ _ _ _ H2)
    as (Hf2 & Hp2).
  simpl in Hf1, Hp1, Hf2, Hp2.
  assert (Hfound2 : projects w2 !! params_id req = Some existing).
  { by rewrite Hw2, Hw1. }
  rewrite (Project_findByIdAndUpdate_run _ _ _ _ Hfound2). cbv zeta.
  destruct (body_cast_errors b2 ++ required_errors _)%list eqn:Herr; [|done].
  intros _. eexists. split; [done|]. split; [|simpl; apply lookup_insert_eq].
  split; simpl.
  - rewrite (Hf2 "cloudinaryVideoUrl"), (Hf2 "cloudinaryVideoPublicId") by done.
    by apply Hp1.
  - apply Hp2; try done.
    by rewrite (Hf1 "cloudinaryThumbnailUrl"), (Hf1 "cloudinaryThumbnailPublicId").
Qed.

Lemma db_step_media_calls id b w o w' :
  Project_findByIdAndUpdate id b w = (o, w') → media_calls w' = media_calls w.
Proof.
  unfold Project_findByIdAndUpdate. unfold_monad. simpl.
  destruct (projects w !! id); [|by intros [= <- <-]].
  destruct (_ ++ _)%list; by intros [= <- <-].
Qed.

(** The media-store calls of an update that found its record. *)
Lemma updateProject_calls req w existing :
  ObjectId_isValid E (params_id req) = true →
  projects w !! params_id req = Some existing →
  let b := req_body req in
  let after := updateProject E req w in
  ∃ calls, media_calls after.2 = (media_calls w ++ calls)%list
    ∧ (truthy (Body.get "cloudinaryVideoUrl" b) = true →
       truthy (Body.get "cloudinaryVideoPublicId" b) = true →
       destroyed Video calls =
         if negb (cloudinaryVideoPublicId existing =? "")
            && negb (strict_eq_str (Body.get "cloudinaryVideoPublicId" b)
                                   (cloudinaryVideoPublicId existing))
         then [cloudinaryVideoPublicId existing] else [])
    ∧ (truthy (Body.get "cloudinaryThumbnailUrl" b) = true →
       truthy (Body.get "cloudinaryThumbnailPublicId" b) = true →
       (status after.1 ≠ 500 →
        destroyed Image calls =
          if negb (cloudinaryThumbnailPublicId existing =? "")
             && negb (strict_eq_str (Body.get "cloudinaryThumbnailPublicId" b)
                                    (cloudinaryThumbnailPublicId existing))
          then [cloudinaryThumbnailPublicId existing] else [])
       ∧ (strict_eq_str (Body.get "cloudinaryThumbnailPublicId" b)
                        (cloudinaryThumbnailPublicId existing) = true →
          destroyed Image calls = [])
       ∧ (cloudinaryThumbnailPublicId existing = "" →
          destroyed Image calls = [])).
Proof.
  intros Hvalid Hfound b after. unfold after.
  rewrite (updateProject_run E req w existing) by done. cbv zeta.
  assert (Hb : ∀ k, k = "cloudinaryVideoUrl" ∨ k = "cloudinaryVideoPublicId"
                 ∨ k = "cloudinaryThumbnailUrl" ∨ k = "cloudinaryThumbnailPublicId" →
               Body.get k (normalize_arrays (JSON_parse E) (req_body req)) = Body.get k b).
  { intros k Hk. by apply media_key_frame. }
  set (b0 := normalize_arrays _ _) in *.
  destruct (update_media E video_keys _ _ b0 _) as [o1 w1] eqn:H1.
  destruct (update_media_world _ _ _ _ _ _ _ _ H1)
    as (_ & _ & c1 & Hm1 & Hother1 & Hown1).
  simpl in Hm1, Hown1. rewrite !Hb in Hown1 by tauto.
  destruct (update_media_outcome _ _ _ _ _ _ _ _ H1) as [[b1 ->]|(r1 & -> & Hs1)].
  2:{ exists c1. simpl. split_and!; [done| |].
      - intros ??. by apply Hown1.
      - intros Hu Hi. split_and!; [by rewrite Hs1|intros _; by apply Hother1..]. }
  destruct (update_media_value E _ _ "" _ _ _ _ _ H1) as (Hf1 & _).
  simpl in Hf1.
  destruct (update_media E thumbnail_keys _ _ b1 w1) as [o2 w2] eqn:H2.
  destruct (update_media_world _ _ _ _ _ _ _ _ H2)
    as (_ & _ & c2 & Hm2 & Hother2 & Hown2).
  simpl in Hm2, Hown2.
  rewrite (Hf1 "cloudinaryThumbnailUrl"), (Hf1 "cloudinaryThumbnailPublicId")
    in Hown2 by done.
  rewrite !Hb in Hown2 by tauto.
  assert (Hfinish : ∀ (r : response) w3,
    media_calls w3 = media_calls w2 →
    ∃ calls, media_calls (r, w3).2 = (media_calls w ++ calls)%list
    ∧ (truthy (Body.get "cloudinaryVideoUrl" b) = true →
       truthy (Body.get "cloudinaryVideoPublicId" b) = true →
       destroyed Video calls =
         if negb (cloudinaryVideoPublicId existing =? "")
            && negb (strict_eq_str (Body.get "cloudinaryVideoPublicId" b)
                                   (cloudinaryVideoPublicId existing))
         then [cloudinaryVideoPublicId existing] else [])
    ∧ (truthy (Body.get "cloudinaryThumbnailUrl" b) = true →
       truthy (Body.get "cloudinaryThumbnailPublicId" b) = true →
       (status (r, w3).1 ≠ 500 →
        destroyed Image calls =
          if negb (cloudinaryThumbnailPublicId existing =? "")
             && negb (strict_eq_str (Body.get "cloudinaryThumbnailPublicId" b)
                                    (cloudinaryThumbnailPublicId existing))
          then [cloudinaryThumbnailPublicId existing] else [])
       ∧ (strict_eq_str (Body.get "cloudinaryThumbnailPublicId" b)
                        (cloudinaryThumbnailPublicId existing) = true →
          destroyed Image calls = [])
       ∧ (cloudinaryThumbnailPublicId existing = "" →
          destroyed Image calls = []))).
  { intros r w3 Hm3. exists (c1 ++ c2)%list. simpl. split_and!.
    - by rewrite Hm3, Hm2, Hm1, app_assoc.
    - intros Hu Hi. rewrite destroyed_app, Hother2 by done.
      rewrite app_nil_r. by apply Hown1.
    - intros Hu Hi. destruct (Hown2 Hu Hi) as [_ Hd2]. split_and!.
      + intros _. by rewrite destroyed_app, Hother1.
      + intros Heq. rewrite destroyed_app, Hother1 by done.
        rewrite Hd2, Heq. by rewrite andb_false_r.
      + intros Hempty. rewrite destroyed_app, Hother1 by done.
        rewrite Hd2, Hempty. done. }
  destruct o2 as [b2|r2|e2]; [|by apply Hfinish..].
  destruct (Project_findByIdAndUpdate _ b2 w2) as [o3 w3] eqn:H3.
  apply db_step_media_calls in H3.
  destruct o3 as [u|r|[errors|m]]; by apply Hfinish.
Qed.
End UpdateTheorems.

(** ** What a successful write stores *)

Section StoredFacts.
Variable E : services.
Implicit Types (w : world) (req : request) (K : media_keys) (b : body).

(** A successful create stores the normalised body, up to the media keys
    that a server-side upload fills in. *)
Lemma addProject_stored req w :
  status (addProject E req w).1 = 201 →
  ∃ b' doc,
    (addProject E req w).1 = send 201 (One (Some "Project added successfully") (Some doc))
    ∧ doc = apply_body b' (blank (new_ObjectId E (projects w)) (now E))
    ∧ body_cast_errors b' = []
    ∧ Body.get "features" b'
      = Body.get "features" (normalize_arrays (JSON_parse E) (req_body req))
    ∧ Body.get "tools" b'
      = Body.get "tools" (normalize_arrays (JSON_parse E) (req_body req)).
Proof.
  rewrite addProject_run. cbv zeta.
  set (b0 := normalize_arrays _ _) in *.
  destruct (includes _ _).
  - destruct (Project_save E b0 w) as [o w2] eqn:Hsave.
    destruct (Project_save_outcome _ _ _ _ _ Hsave) as [[doc ->]|[[errors|message] ->]]; [|done..].
    intros _. apply Project_save_stored in Hsave as (Hdoc & [Herr _]%app_eq_nil & _).
    by exists b0, doc.
  - destruct (add_upload E Video _ _ _ _ b0 w) as [o1 w1] eqn:H1.
    destruct (add_upload_outcome _ _ _ _ _ _ _ _ _ _ H1) as [[b1 ->]|(r1 & -> & Hs1)];
      [|simpl; by rewrite Hs1].
    destruct (add_upload E Image _ _ _ _ b1 w1) as [o2 w2] eqn:H2.
    destruct (add_upload_outcome _ _ _ _ _ _ _ _ _ _ H2) as [[b2 ->]|(r2 & -> & Hs2)];
      [|simpl; by rewrite Hs2].
    destruct (add_upload_value _ _ _ _ _ _ _ _ _ _ H1) as (Hw1 & _ & Hf1 & _).
    destruct (add_upload_value _ _ _ _ _ _ _ _ _ _ H2) as (Hw2 & _ & Hf2 & _).
    destruct (Project_save E b2 w2) as [o w3] eqn:Hsave.
    destruct (Project_save_outcome _ _ _ _ _ Hsave) as [[doc ->]|[[errors|message] ->]]; [|done..].
    intros _. apply Project_save_stored in Hsave as (Hdoc & [Herr _]%app_eq_nil & _).
    exists b2, doc. rewrite Hw2, Hw1 in Hdoc.
    split_and!; [done..| |]; by rewrite Hf2, Hf1.
Qed.

Lemma updateProject_stored req w :
  status (updateProject E req w).1 = 200 →
  ∃ existing b' doc,
    projects w !! params_id req = Some existing
    ∧ (updateProject E req w).1
      = send 200 (One (Some "Project updated successfully") (Some doc))
    ∧ doc = apply_body b' existing
    ∧ body_cast_errors b' = []
    ∧ Body.get "features" b'
      = Body.get "features" (normalize_arrays (JSON_parse E) (req_body req))
    ∧ Body.get "tools" b'
      = Body.get "tools" (normalize_arrays (JSON_parse E) (req_body req)).
Proof.
  intros H200.
  destruct (updateProject_status_200 _ _ _ H200) as (Hvalid & existing & Hfound).
  revert H200. rewrite (updateProject_run E req w existing) by done. cbv zeta.
  set (b0 := normalize_arrays _ _) in *.
  destruct (update_media E video_keys _ _ b0 _) as [o1 w1] eqn:H1.
  destruct (update_media_outcome _ _ _ _ _ _ _ _ H1) as [[b1 ->]|(r1 & -> & Hs1)];
    [|simpl; by rewrite Hs1].
  destruct (update_media E thumbnail_keys _ _ b1 w1) as [o2 w2] eqn:H2.
  destruct (update_media_outcome _ _ _ _ _ _ _ _ H2) as [[b2 ->]|(r2 & -> & Hs2)];
    [|simpl; by rewrite Hs2].
  destruct (update_media_world _ _ _ _ _ _ _ _ H1) as (Hw1 & _).
  destruct (update_media_world _ _ _ _ _ _ _ _ H2) as (Hw2 & _).
  destruct (update_media_value E _ _ "" _ _ _ _ _ H1) as (Hf1 & _).
  destruct (update_media_value E _ _ "" _ _ _ _ _ H2) as (Hf2 & _).
  simpl in Hf1, Hf2.
  assert (Hfound2 : projects w2 !! params_id req = Some existing).
  { by rewrite Hw2, Hw1. }
  rewrite (Project_findByIdAndUpdate_run _ _ _ _ Hfound2). cbv zeta.
  destruct (body_cast_errors b2 ++ required_errors _)%list eqn:Herr; [|done].
  apply app_eq_nil in Herr as [Herr _].
  intros _. exists existing, b2, (apply_body b2 existing).
  split_and!; [done..| |]; by rewrite Hf2, Hf1.
Qed.

Lemma cast_strings_elem vs l s :
  cast_strings vs = Some l → s ∈ l → JStr s ∈ vs.
Proof.
  revert l. induction vs as [|v vs IH]; intros l; simpl.
  - intros [= <-] Hin. by apply elem_of_nil in Hin.
  - destruct v as [| |?|?|t|?|?]; try done.
    destruct (cast_strings vs) as [l'|]; [|done]. simpl.
    intros [= <-] [->|Hin]%elem_of_cons.
    + apply elem_of_cons. by left.
    + apply elem_of_cons. right. by eapply IH.
Qed.

(** The strings stored for an array field that the body gives as a list
    of values. *)
Lemma stored_list_elem b F vs (old : list string) s :
  Body.get F b = JArr vs →
  cast_string_list (Body.get F b) ≠ CastError →
  s ∈ cast_or (cast_string_list (Body.get F b)) old →
  JStr s ∈ vs.
Proof.
  intros ->. simpl. destruct (cast_strings vs) as [l|] eqn:Hl; [|done].
  simpl. intros _ Hin. by eapply cast_strings_elem.
Qed.

Lemma list_casts_ok b :
  body_cast_errors b = [] →
  cast_string_list (Body.get "features" b) ≠ CastError
  ∧ cast_string_list (Body.get "tools" b) ≠ CastError.
Proof.
  intros Hc. unfold body_cast_errors in Hc.
  repeat (apply app_eq_nil in Hc as [? Hc]).
  split; by eapply cast_errors_nil.
Qed.
End StoredFacts.

(** ** Array fields *)

Section ArrayFieldClaims.
Variable JSON_parse : string → option jsval.


End ArrayFieldClaims.



(** ** Project records *)

Section ProjectClaims.
Variable E : services.
Implicit Types (w : world) (req : request) (b : body).

Lemma reconstruct_spec_elem es v :
  v ∈ reconstruct_spec es ↔ truthy v = true ∧ ∃ i, by_index es !! i = Some v.
Proof.
  unfold reconstruct_spec. rewrite list_elem_of_fmap. split.
  - intros [[i v'] [-> Hin]]. simpl.
    apply list_elem_of_filter in Hin as [Ht Hin]. simpl in Ht.
    rewrite merge_sort_Permutation in Hin.
    apply elem_of_map_to_list in Hin. eauto.
  - intros [Ht [i Hi]]. exists (i, v). split; [done|].
    apply list_elem_of_filter. split; [done|].
    rewrite merge_sort_Permutation. by apply elem_of_map_to_list.
Qed.

Lemma stored_list_get F b old :
  F = "features" ∨ F = "tools" →
  stored_list F (apply_body b old)
  = cast_or (cast_string_list (Body.get F b)) (stored_list F old).
Proof. by intros [-> | ->]. Qed.

Lemma stored_list_truthy F b old vs :
  F = "features" ∨ F = "tools" →
  body_cast_errors b = [] →
  Body.get F b = JArr vs →
  (∀ v, v ∈ vs → truthy v = true) →
  "" ∉ stored_list F (apply_body b old).
Proof.
  intros HF Herr Hget Hvs Hin. rewrite stored_list_get in Hin by done.
  apply list_casts_ok in Herr as [Hcf Hct].
  assert (Hc : cast_string_list (Body.get F b) ≠ CastError).
  { by destruct HF as [-> | ->]. }
  by apply (stored_list_elem b F vs _ "" Hget Hc), Hvs in Hin.
Qed.

(** C9.  When a body has indexed keys for [F] ([features] or [tools]), the
    reconstructed list holds exactly the truthy values of the indexed
    entries: every falsy value is dropped, the empty string among them, so
    that the list stored by a successful create or update never holds an
    empty string. *)
Theorem falsy_entries_dropped (F : string) req w :
  F = "features" ∨ F = "tools" →
  NoDup (Body.keys (req_body req)) →
  indexed_entries F (req_body req) ≠ [] →
  (∃ l, Body.get F (normalize_arrays (JSON_parse E) (req_body req)) = JArr l
        ∧ (∀ v, v ∈ l ↔ truthy v = true
                        ∧ ∃ i, by_index (indexed_entries F (req_body req)) !! i = Some v)
        ∧ JStr "" ∉ l)
  ∧ (∀ doc, (addProject E req w).1
            = send 201 (One (Some "Project added successfully") (Some doc)) →
            "" ∉ stored_list F doc)
  ∧ (∀ doc, (updateProject E req w).1
            = send 200 (One (Some "Project updated successfully") (Some doc)) →
            "" ∉ stored_list F doc).
Proof.
  intros HF Hnd Hne.
  assert (Hget : Body.get F (normalize_arrays (JSON_parse E) (req_body req))
                 = JArr (reconstruct_spec (indexed_entries F (req_body req)))).
  { rewrite normalize_arrays_field by done. by rewrite bool_decide_eq_false_2. }
  assert (Htruthy : ∀ v, v ∈ reconstruct_spec (indexed_entries F (req_body req)) →
                         truthy v = true).
  { intros v Hv. by apply reconstruct_spec_elem in Hv as [? _]. }
  split_and!.
  - eexists. split; [exact Hget|]. split.
    + intros v. apply reconstruct_spec_elem.
    + intros Hin. by apply Htruthy in Hin.
  - intros doc Hdoc.
    destruct (addProject_stored E req w) as (b' & doc' & Hr & -> & Herr & Hf & Ht).
    { by rewrite Hdoc. }
    rewrite Hr in Hdoc. injection Hdoc as <-.
    eapply stored_list_truthy; [done..| |exact Htruthy].
    destruct HF as [-> | ->]; [by rewrite Hf|by rewrite Ht].
  - intros doc Hdoc.
    destruct (updateProject_stored E req w)
      as (existing & b' & doc' & _ & Hr & -> & Herr & Hf & Ht).
    { by rewrite Hdoc. }
    rewrite Hr in Hdoc. injection Hdoc as <-.
    eapply stored_list_truthy; [done..| |exact Htruthy].
    destruct HF as [-> | ->]; [by rewrite Hf|by rewrite Ht].
Qed.

(** C1 (what the code does).  When the stored record names a video or a
    thumbnail and the media store rejects its deletion, [deleteProject]
    answers 500 and leaves the collection as it was: the exception skips
    [Project.findByIdAndDelete] and reaches the outer [catch], and the one
    query sent to the collection is the lookup. *)
Theorem deleteProject_media_failure req w p :
  ObjectId_isValid E (params_id req) = true →
  projects w !! params_id req = Some p →
  (cloudinaryVideoPublicId p ≠ ""
   ∧ destroy_resolves E Video (cloudinaryVideoPublicId p) = false)
  ∨ (cloudinaryThumbnailPublicId p ≠ ""
     ∧ destroy_resolves E Image (cloudinaryThumbnailPublicId p) = false) →
  status (deleteProject E req w).1 = 500
  ∧ projects (deleteProject E req w).2 = projects w
  ∧ db_calls (deleteProject E req w).2 = (db_calls w ++ [FindById (params_id req)])%list.
Proof.
  intros Hv Hp Hrej.
  destruct (deleteProject_rejected E req w p Hv Hp Hrej) as (w' & -> & ? & ?).
  done.
Qed.

(** C2 (amended).  When each media URL comes with its publicId (both
    absent, or both strings that are empty together) and server-side
    uploads answer with a URL and a publicId that are both set, a
    successful create stores a record whose media fields are paired, and
    so does a successful update of a record that was paired. *)
Theorem media_pairing_after_write req w :
  uploads_paired E →
  pairs_supplied_together (req_body req) →
  (status (addProject E req w).1 = 201 →
   ∃ doc, (addProject E req w).1
          = send 201 (One (Some "Project added successfully") (Some doc))
          ∧ media_paired doc
          ∧ projects (addProject E req w).2 !! _id doc = Some doc)
  ∧ ((∀ existing, projects w !! params_id req = Some existing → media_paired existing) →
     status (updateProject E req w).1 = 200 →
     ∃ doc, (updateProject E req w).1
            = send 200 (One (Some "Project updated successfully") (Some doc))
            ∧ media_paired doc
            ∧ projects (updateProject E req w).2 !! params_id req = Some doc).
Proof.
  intros Hup Hs. split.
  - by apply addProject_pairing.
  - by apply updateProject_pairing.
Qed.

(** C3.  For an id that [ObjectId.isValid] rejects, get, update and delete
    answer 400 and leave the world as it was, so no query reaches the
    collection; for an accepted id that no record has, they answer 404
    after the one lookup. *)
Theorem malformed_and_unknown_ids req w :
  (ObjectId_isValid E (params_id req) = false →
   let bad := (send 400 (Message false "Invalid project ID format"), w) in
   getProject E req w = bad
   ∧ updateProject E req w = bad
   ∧ deleteProject E req w = bad)
  ∧ (ObjectId_isValid E (params_id req) = true →
     projects w !! params_id req = None →
     let missing := (send 404 (Message false "Project not found"),
                     with_db_call (FindById (params_id req)) w) in
     getProject E req w = missing
     ∧ updateProject E req w = missing
     ∧ deleteProject E req w = missing).
Proof.
  split.
  - intros Hbad. cbv zeta. split_and!.
    + by apply getProject_invalid.
    + by apply updateProject_invalid.
    + by apply deleteProject_invalid.
  - intros Hok Hnone. cbv zeta. split_and!.
    + by apply getProject_missing.
    + by apply updateProject_missing.
    + by apply deleteProject_missing.
Qed.

Lemma strict_eq_str_true v s : strict_eq_str v s = true ↔ v = JStr s.
Proof.
  destruct v as [| |?|?|t|?|?]; simpl; try (split; [done|by intros [=]]).
  rewrite String.eqb_eq. split; [by intros ->|by intros [= ->]].
Qed.

Lemma strict_eq_str_false v s : v ≠ JStr s → strict_eq_str v s = false.
Proof.
  intros Hne. destruct (strict_eq_str v s) eqn:Heq; [|done].
  by apply strict_eq_str_true in Heq.
Qed.

(** C4 (amended).  An update that found its record and whose body names a
    video URL and publicId (both non-empty) issues exactly one video
    deletion, against the stored publicId, when that stored publicId is
    non-empty and differs from the new one, and none when the two are
    equal.  The same holds of the thumbnail, for an update that is not cut
    short (status 500) by a failed server-side video upload.  When the
    record stores no publicId there is nothing to delete and no deletion
    is issued. *)
Theorem update_replaces_media req w existing :
  ObjectId_isValid E (params_id req) = true →
  projects w !! params_id req = Some existing →
  let b := req_body req in
  let after := updateProject E req w in
  ∃ calls, media_calls after.2 = (media_calls w ++ calls)%list
    ∧ (truthy (Body.get "cloudinaryVideoUrl" b) = true →
       truthy (Body.get "cloudinaryVideoPublicId" b) = true →
       (cloudinaryVideoPublicId existing ≠ "" →
        Body.get "cloudinaryVideoPublicId" b ≠ JStr (cloudinaryVideoPublicId existing) →
        destroyed Video calls = [cloudinaryVideoPublicId existing])
       ∧ (Body.get "cloudinaryVideoPublicId" b = JStr (cloudinaryVideoPublicId existing)
          ∨ cloudinaryVideoPublicId existing = "" →
          destroyed Video calls = []))
    ∧ (truthy (Body.get "cloudinaryThumbnailUrl" b) = true →
       truthy (Body.get "cloudinaryThumbnailPublicId" b) = true →
       (cloudinaryThumbnailPublicId existing ≠ "" →
        Body.get "cloudinaryThumbnailPublicId" b
        ≠ JStr (cloudinaryThumbnailPublicId existing) →
        status after.1 ≠ 500 →
        destroyed Image calls = [cloudinaryThumbnailPublicId existing])
       ∧ (Body.get "cloudinaryThumbnailPublicId" b
          = JStr (cloudinaryThumbnailPublicId existing)
          ∨ cloudinaryThumbnailPublicId existing = "" →
          destroyed Image calls = [])).
Proof.
  intros Hvalid Hfound b after. subst b after.
  destruct (updateProject_calls E req w existing Hvalid Hfound)
    as (calls & Hcalls & Hvideo & Hthumb).
  exists calls. split; [done|]. split.
  - intros Hu Hi. rewrite (Hvideo Hu Hi). split.
    + intros Hold Hnew. apply String.eqb_neq in Hold.
      by rewrite Hold, strict_eq_str_false.
    + intros [Hsame| ->].
      * apply strict_eq_str_true in Hsame. rewrite Hsame.
        by rewrite andb_false_r.
      * done.
  - intros Hu Hi. destruct (Hthumb Hu Hi) as [Hdiff [Hsame Hnone]]. split.
    + intros Hold Hnew H500. rewrite (Hdiff H500).
      apply String.eqb_neq in Hold.
      by rewrite Hold, strict_eq_str_false.
    + intros [Heq|Hempty].
      * apply Hsame. by apply strict_eq_str_true.
      * by apply Hnone.
Qed.

End ProjectClaims.

(** ** Throttle, login, upload signature *)

Section ThrottleFacts.
Import Throttle.
Context {Args : Type}.
Variable limit : Z.
Implicit Types (st : @state Args) (es : list (@event Args)) (e : @event Args).

Lemma run_snoc st es e :
  run limit st (es ++ [e]) = run limit st es ≫= λ st', step limit st' e.
Proof.
  revert st. induction es as [|e0 es IH]; intros st; simpl.
  - by destruct (step limit st e).
  - destruct (step limit st e0); [apply IH|done].
Qed.

Lemma latest_args_snoc es e :
  latest_args (es ++ [e]) =
  match e with
  | Call _ a => Some a
  | Fire _ _ => latest_args es
  end.
Proof.
  induction es as [|e0 es IH]; simpl.
  - by destruct e.
  - rewrite IH. destruct e; [done|]. done.
Qed.

Lemma clearTimeout_single id delay : clearTimeout id [(id, delay)] = [].
Proof. unfold clearTimeout. simpl. by rewrite Pos.eqb_refl. Qed.

Lemma step_inv es st e st' :
  reachable_inv es st → step limit st e = Some st' → reachable_inv (es ++ [e]) st'.
Proof.
  intros [Ht Ha Hl] Hstep. destruct e as [now a|id now]; simpl in Hstep.
  - injection Hstep as <-. unfold throttled.
    destruct ((limit - (now - lastCall st) <=? 0)
              || (limit - (now - lastCall st) >? limit))%Z.
    + constructor; simpl.
      * destruct (timeoutId st) as [id|]; [|done].
        destruct Ht as [delay ->]. apply clearTimeout_single.
      * by rewrite latest_args_snoc.
      * by rewrite last_snoc.
    + destruct (timeoutId st) as [id|] eqn:Hid; constructor; simpl.
      * done.
      * by rewrite latest_args_snoc.
      * done.
      * rewrite Ht. eauto.
      * by rewrite latest_args_snoc.
      * done.
  - destruct (existsb _ (timers st)) eqn:Hex; [|done].
    injection Hstep as <-. constructor; simpl.
    + destruct (timeoutId st) as [id0|].
      * destruct Ht as [delay Ht]. rewrite Ht in Hex |- *. simpl in Hex.
        rewrite orb_false_r in Hex. apply Pos.eqb_eq in Hex as ->.
        apply clearTimeout_single.
      * by rewrite Ht in Hex.
    + by rewrite latest_args_snoc.
    + by rewrite last_snoc.
Qed.

Lemma run_inv es st :
  run limit initial es = Some st → reachable_inv es st.
Proof.
  revert st. induction es as [|e es IH] using rev_ind; intros st.
  - intros [= <-]. by constructor.
  - rewrite run_snoc. destruct (run limit initial es) as [st0|]; [|done].
    simpl. intros Hstep. eapply step_inv; [|done]. by apply IH.
Qed.

(** Calls are always possible: a sequence of calls alone runs to the end. *)
Lemma run_calls st es :
  Forall (λ e, match e with Call _ _ => True | Fire _ _ => False end) es →
  is_Some (run limit st es).
Proof.
  intros Hes. revert st. induction Hes as [|e es He _ IH]; intros st; simpl.
  - by eexists.
  - destruct e; [apply IH|done].
Qed.

(** A timer is only ever pending after a call. *)
Lemma run_pending es st :
  run limit initial es = Some st → timers st ≠ [] → is_Some (latest_args es).
Proof.
  destruct es as [|e es _] using rev_ind.
  - by intros [= <-].
  - rewrite run_snoc, latest_args_snoc.
    destruct (run limit initial es) as [st0|] eqn:Hrun; [|done]. simpl.
    destruct e as [now a|id now]; [by eauto|]. simpl.
    apply run_inv in Hrun as [Ht _ _].
    destruct (existsb _ (timers st0)) eqn:Hex; [|done].
    intros [= <-]. simpl.
    destruct (timeoutId st0) as [id0|].
    + destruct Ht as [delay Ht]. rewrite Ht in Hex |- *. simpl in Hex.
      rewrite orb_false_r in Hex. apply Pos.eqb_eq in Hex as ->.
      by rewrite clearTimeout_single.
    + by rewrite Ht.
Qed.

(** C10.  After any sequence of calls and timer firings:
    - at most one timer, hence one trailing invocation, is pending;
    - a call always replaces the stored arguments;
    - whenever the next event applies [func], immediately or from the
      timer, it applies it at most once and to the arguments of the most
      recent call;
    - a call that comes at least [limit] after the last application (the
      first call of a quiet period) applies [func] at once, and cancels
      the timer if one was still pending;
    - [lastCall] is the time of the last application;
    - a pending timer can fire, and when it does [func] is applied once,
      to the arguments of the most recent call, and no timer is left;
    - a call that comes while the window is open applies nothing: it sets
      the one timer, due when the window closes, unless a timer is pending
      already, which it leaves as it is. *)
Theorem throttled_trailing_invocation es st :
  run limit initial es = Some st →
  (List.length (timers st) <= 1)%nat
  ∧ (∀ now a, lastArgs (throttled limit now a st) = Some a)
  ∧ (∀ e st', step limit st e = Some st' →
       ∃ new, applied st' = (applied st ++ new)%list
              ∧ (List.length new <= 1)%nat
              ∧ ∀ t a, (t, a) ∈ new → a = latest_args (es ++ [e]))
  ∧ (∀ now a, (limit <= now - lastCall st)%Z →
       applied (throttled limit now a st) = (applied st ++ [(now, Some a)])%list
       ∧ timers (throttled limit now a st) = [])
  ∧ lastCall st = default 0%Z (fst <$> last (applied st))
  ∧ (∀ id delay now, (id, delay) ∈ timers st →
       ∃ a st', latest_args es = Some a
                ∧ step limit st (Fire id now) = Some st'
                ∧ applied st' = (applied st ++ [(now, Some a)])%list
                ∧ timers st' = []
                ∧ timeoutId st' = None
                ∧ lastCall st' = now)
  ∧ (∀ now a, (0 < limit - (now - lastCall st) <= limit)%Z →
       applied (throttled limit now a st) = applied st
       ∧ (timers st = [] →
          timers (throttled limit now a st)
          = [(next_timer st, (limit - (now - lastCall st))%Z)])
       ∧ (timers st ≠ [] → timers (throttled limit now a st) = timers st)).
Proof.
  intros Hrun. pose proof (run_pending es st Hrun) as Hpending. revert Hrun.
  intros [Ht Ha Hl]%run_inv. split_and!.
  - destruct (timeoutId st); [destruct Ht as [? ->]|rewrite Ht]; simpl; lia.
  - intros now a. unfold throttled. by repeat case_match.
  - intros e st' Hstep. destruct e as [now a|id now]; simpl in Hstep.
    + injection Hstep as <-. rewrite latest_args_snoc. unfold throttled.
      destruct (_ || _)%Z; simpl.
      * exists [(now, Some a)]. split_and!; [done|simpl; lia|].
        by intros t a' [= -> ->]%list_elem_of_singleton.
      * exists []. rewrite app_nil_r.
        split_and!; [by destruct (timeoutId st)|simpl; lia|].
        by intros t a' ?%elem_of_nil.
    + destruct (existsb _ _); [|done]. injection Hstep as <-.
      rewrite latest_args_snoc. simpl.
      exists [(now, lastArgs st)]. split_and!; [done|simpl; lia|].
      by intros t a' [= -> ->]%list_elem_of_singleton.
  - intros now a Hq. unfold throttled.
    assert ((limit - (now - lastCall st) <=? 0)%Z = true) as -> by (apply Z.leb_le; lia).
    simpl. split; [done|].
    destruct (timeoutId st); [|done].
    destruct Ht as [delay ->]. apply clearTimeout_single.
  - done.
  - intros id delay now Hin.
    destruct Hpending as [a Hargs]; [by intros Hnil; rewrite Hnil in Hin; inversion Hin|].
    destruct (timeoutId st) as [id0|]; [|by rewrite Ht in Hin; inversion Hin].
    destruct Ht as [delay0 Ht]. rewrite Ht in Hin.
    apply list_elem_of_singleton in Hin as [= -> ->].
    exists a. eexists. split; [done|]. simpl. rewrite Ht. simpl.
    rewrite Pos.eqb_refl. simpl. split; [reflexivity|]. simpl.
    rewrite Ha, Hargs, ?Ht, ?clearTimeout_single. done.
  - intros now a [Hlow Hhigh]. unfold throttled.
    assert ((limit - (now - lastCall st) <=? 0)%Z = false) as -> by (apply Z.leb_gt; lia).
    assert ((limit - (now - lastCall st) >? limit)%Z = false) as ->
      by (rewrite Z.gtb_ltb; apply Z.ltb_ge; lia).
    simpl. destruct (timeoutId st) as [id0|]; simpl.
    + destruct Ht as [delay0 Ht]. split_and!; [done| |done]. by rewrite Ht.
    + split_and!; [done| |done]. by rewrite Ht.
Qed.
End ThrottleFacts.

Section AuthFacts.
Import Auth.
Variable jwt_sign : claims → option string → string → option string.
Variable process_env : env.
Variable users : list User.



End AuthFacts.

Section SignatureFacts.
Import Signature.
Variable api_sign_request : params → string → string.
Variable process_env : env.
Variable now_ms : Z.

Lemma folder_params_only folder ps k v :
  folder_params folder = Some ps → (k, v) ∈ ps →
  k = "folder" ∧ ∃ f, folder = JStr f ∧ trim f ≠ "" ∧ v = JStr (trim f).
Proof.
  unfold folder_params. destruct (truthy folder).
  - destruct folder as [| |?|?|f|?|?]; try done.
    destruct (String.eqb_spec (trim f) ""); simpl.
    + intros [= <-] Hin. by apply elem_of_nil in Hin.
    + intros [= <-] [= -> ->]%list_elem_of_singleton. eauto.
  - intros [= <-] Hin. by apply elem_of_nil in Hin.
Qed.

(** C7 (amended).  When a credential is unset the handler answers 500.
    Otherwise, whenever it signs, the signed parameters hold the timestamp,
    the trimmed folder when the folder is a string that is not empty once
    trimmed, and nothing else (neither the resource type nor the cloud name
    or API key), and the reply is 200 with signature, timestamp, folder,
    resource type, API key and cloud name.  It does sign whenever the
    folder is absent, falsy or a string. *)
Theorem signature_payload (folder resource_type : jsval) :
  let r := cloudinary_signature api_sign_request process_env now_ms folder resource_type in
  (unset (CLOUDINARY_API_SECRET process_env) = true
   ∨ unset (CLOUDINARY_API_KEY process_env) = true
   ∨ unset (CLOUDINARY_CLOUD_NAME process_env) = true →
   status r = 500)
  ∧ (∀ secret key name,
       CLOUDINARY_API_SECRET process_env = Some secret → secret ≠ "" →
       CLOUDINARY_API_KEY process_env = Some key → key ≠ "" →
       CLOUDINARY_CLOUD_NAME process_env = Some name → name ≠ "" →
       ∀ ps, signed_params folder now_ms = Some ps →
         (∃ f rt,
            r = {| status := 200;
                   json := Signed (api_sign_request ps secret) (seconds now_ms)
                                  f rt key name |}
            ∧ f = match folder with
                  | JStr s => trim s
                  | _ => ""
                  end
            ∧ rt = if truthy resource_type then resource_type else JStr "auto")
         ∧ ("timestamp", JNum (seconds now_ms)) ∈ ps
         ∧ (∀ s, folder = JStr s → trim s ≠ "" → ("folder", JStr (trim s)) ∈ ps)
         ∧ (∀ k v, (k, v) ∈ ps →
              k = "timestamp" ∧ v = JNum (seconds now_ms)
              ∨ k = "folder" ∧ ∃ s, folder = JStr s ∧ trim s ≠ "" ∧ v = JStr (trim s)))
  ∧ (truthy folder = false ∨ is_string folder = true →
     is_Some (signed_params folder now_ms)).
Proof.
  intros r. unfold r, cloudinary_signature. split_and!.
  3:{ unfold signed_params, folder_params.
      intros [-> | Hs]; [done|].
      destruct folder as [| |?|?|s|?|?]; try done.
      destruct (truthy (JStr s)); [|done]. by destruct (negb _). }
  - intros H.
    assert (unset (CLOUDINARY_API_SECRET process_env)
            || unset (CLOUDINARY_API_KEY process_env)
            || unset (CLOUDINARY_CLOUD_NAME process_env) = true) as ->; [|done].
    destruct H as [->|[->| ->]]; by rewrite ?orb_true_r.
  - intros secret key name -> Hs -> Hk -> Hn ps Hps. simpl.
    apply String.eqb_neq in Hs, Hk, Hn. rewrite Hs, Hk, Hn. simpl.
    rewrite Hps. unfold signed_params in Hps.
    destruct (folder_params folder) as [fp|] eqn:Hfp; [|done].
    injection Hps as <-. split_and!.
    + eexists _, _. split; [reflexivity|]. split.
      * unfold folder_params in Hfp. destruct (truthy folder) eqn:Htr.
        -- destruct folder as [| |?|?|s|?|?]; try done.
           destruct (String.eqb_spec (trim s) "") as [->|]; simpl in Hfp;
             by injection Hfp as <-.
        -- injection Hfp as <-. simpl.
           destruct folder as [| |?|?|s|?|?]; try done.
           simpl in Htr. apply negb_false_iff, String.eqb_eq in Htr as ->. done.
      * by destruct resource_type.
    + apply elem_of_app. right. by apply list_elem_of_singleton.
    + intros s -> Hne. apply elem_of_app. left.
      unfold folder_params in Hfp. simpl in Hfp.
      assert (s ≠ "") as Hs' by (by intros ->).
      apply String.eqb_neq in Hs', Hne. rewrite Hs', Hne in Hfp. simpl in Hfp.
      injection Hfp as <-. by apply list_elem_of_singleton.
    + intros k v [Hin|[= -> ->]%list_elem_of_singleton]%elem_of_app; [|by left].
      right. by eapply folder_params_only.
Qed.
End SignatureFacts.

(** ** Project handlers: reads, deletions, best-effort clean-up *)

Section ReadFacts.
Variable E : services.
Implicit Types (w : world) (req : request).

(** X1.  [getProject] only reads: it leaves the collection and the media
    store as they are and sends at most the one lookup.  It answers 200,
    with the stored record, exactly when the id is well-formed and names a
    record. *)
Theorem getProject_reads_only req w :
  let after := getProject E req w in
  projects after.2 = projects w
  ∧ media_calls after.2 = media_calls w
  ∧ (db_calls after.2 = db_calls w
     ∨ db_calls after.2 = (db_calls w ++ [FindById (params_id req)])%list)
  ∧ (∀ p, ObjectId_isValid E (params_id req) = true →
          projects w !! params_id req = Some p →
          after.1 = send 200 (One None (Some p)))
  ∧ (status after.1 = 200 →
     ObjectId_isValid E (params_id req) = true
     ∧ is_Some (projects w !! params_id req)).
Proof.
  cbv zeta.
  destruct (ObjectId_isValid E (params_id req)) eqn:Hvalid.
  - destruct (projects w !! params_id req) as [p|] eqn:Hp.
    + assert (Hrun : getProject E req w
                     = (send 200 (One None (Some p)),
                        with_db_call (FindById (params_id req)) w)).
      { unfold getProject, Project_findById. unfold_monad.
        rewrite Hvalid. simpl. by rewrite Hp. }
      rewrite Hrun. simpl. split_and!; [done|done|by right| |by eauto].
      by intros p' _ [= ->].
    + rewrite getProject_missing by done. simpl.
      split_and!; [done|done|by right|done|done].
  - rewrite getProject_invalid by done. simpl.
    split_and!; [done|done|by left|done|done].
Qed.



(** X3.  [deleteProject] deletes the video before the thumbnail and
    stops at the first failure.  When the video's deletion is rejected the
    thumbnail's is never asked for.  When the video's goes through and the
    thumbnail's is rejected, the request answers 500 and the record stays,
    still naming the video that is gone from the media store. *)
Theorem deleteProject_partial_failure req w p :
  ObjectId_isValid E (params_id req) = true →
  projects w !! params_id req = Some p →
  let after := deleteProject E req w in
  (cloudinaryVideoPublicId p ≠ "" →
   destroy_resolves E Video (cloudinaryVideoPublicId p) = false →
   media_calls after.2
   = (media_calls w ++ [Destroy Video (cloudinaryVideoPublicId p)])%list)
  ∧ (cloudinaryVideoPublicId p ≠ "" →
     destroy_resolves E Video (cloudinaryVideoPublicId p) = true →
     cloudinaryThumbnailPublicId p ≠ "" →
     destroy_resolves E Image (cloudinaryThumbnailPublicId p) = false →
     status after.1 = 500
     ∧ projects after.2 !! params_id req = Some p
     ∧ media_calls after.2
       = (media_calls w ++ [Destroy Video (cloudinaryVideoPublicId p);
                            Destroy Image (cloudinaryThumbnailPublicId p)])%list).
Proof.
  intros Hvalid Hp. cbv zeta.
  unfold deleteProject, Project_findById, Project_findByIdAndDelete, deleteFromCloudinary.
  unfold_monad. rewrite Hvalid. simpl. rewrite Hp. split.
  - intros Hve%String.eqb_neq Hrej. rewrite Hve. simpl. rewrite Hrej. done.
  - intros Hve%String.eqb_neq Hok Hte%String.eqb_neq Hrej.
    rewrite Hve. simpl. rewrite Hok. simpl. rewrite Hte. simpl. rewrite Hrej. simpl.
    by rewrite <- app_assoc.
Qed.
End ReadFacts.

Section BestEffort.
Variable E : services.
Variable f : media_kind → string → bool.
Implicit Types (w : world) (req : request) (K : media_keys) (b : body).

Lemma same_store_console w w' msg :
  same_store w w' → same_store (with_console msg w) w'.
Proof. by intros (? & ? & ?). Qed.

Lemma same_store_sym w w' : same_store w w' → same_store w' w.
Proof. by intros (? & ? & ?). Qed.

Lemma destroy_quietly_same k publicId msg w w' :
  same_store w w' →
  ∃ w1 w1', destroy_quietly E k publicId msg w = (Value tt, w1)
            ∧ destroy_quietly (with_destroy f E) k publicId msg w' = (Value tt, w1')
            ∧ same_store w1 w1'.
Proof.
  intros (Hp & Hd & Hm).
  unfold destroy_quietly, deleteFromCloudinary. unfold_monad. simpl.
  destruct (destroy_resolves E k publicId), (f k publicId);
    eexists _, _; (split_and!; [done|done|]);
    unfold same_store; simpl; by rewrite Hp, Hd, Hm.
Qed.

Lemma upload_same k input w w' :
  same_store w w' →
  ∃ o w1 w1', uploadToCloudinary E k input w = (o, w1)
              ∧ uploadToCloudinary (with_destroy f E) k input w' = (o, w1')
              ∧ same_store w1 w1'.
Proof.
  intros (Hp & Hd & Hm). unfold uploadToCloudinary. unfold_monad. simpl.
  destruct (upload_result E k input);
    eexists _, _, _; (split_and!; [done|done|]);
    unfold same_store; simpl; by rewrite Hp, Hd, Hm.
Qed.

Lemma update_media_same K existingId files b w w' :
  same_store w w' →
  ∃ o w1 w1', update_media E K existingId files b w = (o, w1)
              ∧ update_media (with_destroy f E) K existingId files b w' = (o, w1')
              ∧ same_store w1 w1'.
Proof.
  intros Hs. unfold update_media. unfold_monad.
  destruct (truthy (Body.get (urlKey K) b) && truthy (Body.get (idKey K) b)).
  { destruct (negb (existingId =? "")
              && negb (strict_eq_str (Body.get (idKey K) b) existingId)).
    - destruct (destroy_quietly_same (kind K) existingId (warn_replaced K) w w' Hs)
        as (w1 & w1' & -> & -> & Hs1). by eexists _, _, _.
    - by eexists _, _, _. }
  destruct (strict_eq_str (Body.get (removeKey K) b) "true"
            || strict_eq_str (Body.get (urlKey K) b) "").
  { destruct (negb (existingId =? "")).
    - destruct (destroy_quietly_same (kind K) existingId (warn_removed K) w w' Hs)
        as (w1 & w1' & -> & -> & Hs1). by eexists _, _, _.
    - by eexists _, _, _. }
  destruct (head files) as [input|]; [|by eexists _, _, _].
  assert (∃ w1 w1',
            (if negb (existingId =? "")
             then destroy_quietly E (kind K) existingId (warn_legacy K)
             else λ w0, (Value (), w0)) w = (Value tt, w1)
            ∧ (if negb (existingId =? "")
               then destroy_quietly (with_destroy f E) (kind K) existingId (warn_legacy K)
               else λ w0, (Value (), w0)) w' = (Value tt, w1')
            ∧ same_store w1 w1') as (w1 & w1' & -> & -> & Hs1).
  { destruct (negb (existingId =? "")); [|by eexists _, _].
    apply destroy_quietly_same, Hs. }
  destruct (upload_same (kind K) input w1 w1' Hs1) as (o & w2 & w2' & -> & -> & Hs2).
  destruct o as [r|r|e]; eexists _, _, _; (split_and!; [done|done|]); [done|done|].
  by apply same_store_console, same_store_sym, same_store_console, same_store_sym.
Qed.

Lemma findByIdAndUpdate_same id b w w' :
  same_store w w' →
  ∃ o w1 w1', Project_findByIdAndUpdate id b w = (o, w1)
              ∧ Project_findByIdAndUpdate id b w' = (o, w1')
              ∧ same_store w1 w1'.
Proof.
  intros (Hp & Hd & Hm). unfold Project_findByIdAndUpdate. unfold_monad. simpl.
  rewrite <- Hp. destruct (projects w !! id) as [old|].
  - destruct (_ ++ _)%list; eexists _, _, _; (split_and!; [done|done|]);
      unfold same_store; simpl; by rewrite ?Hp, Hd, Hm.
  - eexists _, _, _; (split_and!; [done|done|]);
      unfold same_store; simpl; by rewrite ?Hp, Hd, Hm.
Qed.

(** X4.  However the media store answers the deletions an update asks
    for, the update replies the same, stores the same, and issues the same
    queries and media calls: only the console can tell the difference. *)
Theorem updateProject_survives_failed_deletions req w :
  let plain := updateProject E req w in
  let other := updateProject (with_destroy f E) req w in
  other.1 = plain.1 ∧ same_store other.2 plain.2.
Proof.
  cbv zeta.
  destruct (ObjectId_isValid E (params_id req)) eqn:Hvalid.
  2:{ rewrite !updateProject_invalid by done. done. }
  destruct (projects w !! params_id req) as [existing|] eqn:Hfound.
  2:{ rewrite !updateProject_missing by done. done. }
  rewrite (updateProject_run E req w existing) by done.
  rewrite (updateProject_run (with_destroy f E) req w existing) by done.
  cbv zeta. cbn [JSON_parse with_destroy].
  set (b0 := normalize_arrays _ _).
  set (w0 := with_db_call _ w).
  destruct (update_media_same video_keys (cloudinaryVideoPublicId existing)
              (files_video req) b0 w0 w0) as (o1 & w1 & w1' & -> & -> & Hs1); [done|].
  destruct o1 as [b1|r1|e1]; [|by split; [|apply same_store_sym]|].
  2:{ split; [done|]. by apply same_store_console, same_store_sym, same_store_console. }
  destruct (update_media_same thumbnail_keys (cloudinaryThumbnailPublicId existing)
              (files_thumbnail req) b1 w1 w1') as (o2 & w2 & w2' & -> & -> & Hs2); [done|].
  destruct o2 as [b2|r2|e2]; [|by split; [|apply same_store_sym]|].
  2:{ split; [done|]. by apply same_store_console, same_store_sym, same_store_console. }
  destruct (findByIdAndUpdate_same (params_id req) b2 w2 w2' Hs2)
    as (o3 & w3 & w3' & -> & -> & Hs3).
  destruct o3 as [u|r|[errors|m]]; (split; [done|]);
    try (by apply same_store_sym);
    by apply same_store_console, same_store_sym, same_store_console.
Qed.
End BestEffort.

Section UpdateBranches.
Variable E : services.
Implicit Types (w : world) (req : request) (K : media_keys) (b : body).

(** The removal branch of a media block, on a record that has an asset. *)
Lemma update_media_removal K existingId files b w :
  truthy (Body.get (urlKey K) b) && truthy (Body.get (idKey K) b) = false →
  strict_eq_str (Body.get (removeKey K) b) "true"
  || strict_eq_str (Body.get (urlKey K) b) "" = true →
  existingId ≠ "" →
  ∃ w', update_media E K existingId files b w
        = (Value (Body.set (idKey K) (JStr "") (Body.set (urlKey K) (JStr "") b)), w')
        ∧ projects w' = projects w
        ∧ db_calls w' = db_calls w
        ∧ media_calls w' = (media_calls w ++ [Destroy (kind K) existingId])%list.
Proof.
  intros Hpair Hrm Hold%String.eqb_neq. unfold update_media. unfold_monad.
  rewrite Hpair, Hrm, Hold. simpl.
  destruct (destroy_quietly_run E (kind K) existingId (warn_removed K) w)
    as (w1 & -> & ? & ? & ?). by exists w1.
Qed.

(** The legacy branch of a media block when the upload is rejected. *)
Lemma update_media_upload_rejected K existingId input files b w :
  truthy (Body.get (urlKey K) b) && truthy (Body.get (idKey K) b) = false →
  strict_eq_str (Body.get (removeKey K) b) "true"
  || strict_eq_str (Body.get (urlKey K) b) "" = false →
  head files = Some input →
  upload_result E (kind K) input = None →
  ∃ w', update_media E K existingId files b w
        = (Return (send 500 (Failure (upload_failure K) "media store: upload failed")), w')
        ∧ projects w' = projects w
        ∧ db_calls w' = db_calls w
        ∧ media_calls w'
          = (media_calls w
             ++ (if existingId =? "" then [] else [Destroy (kind K) existingId])
             ++ [Upload (kind K) input])%list.
Proof.
  intros Hpair Hrm Hfile Hup. unfold update_media. unfold_monad.
  rewrite Hpair, Hrm, Hfile.
  destruct (existingId =? ""); simpl.
  - unfold uploadToCloudinary. unfold_monad. simpl. rewrite Hup. simpl.
    eexists. split_and!; done.
  - destruct (destroy_quietly_run E (kind K) existingId (warn_legacy K) w)
      as (w1 & -> & Hp & Hd & Hm).
    unfold uploadToCloudinary. unfold_monad. simpl. rewrite Hup. simpl.
    eexists. split_and!; [done|done|done|]. simpl. by rewrite Hm, <- app_assoc.
Qed.

Lemma remove_key_frame k b :
  k = "removeVideo" ∨ k = "removeThumbnail" →
  Body.get k (normalize_arrays (JSON_parse E) b) = Body.get k b.
Proof. intros [-> | ->]; by apply normalize_arrays_frame. Qed.

(** X5.  An update that asks for the removal of the video of a record that
    has one issues one deletion, against the stored publicId, and, when it
    succeeds, stores the record with both video fields empty. *)
Theorem updateProject_removes_video req w existing :
  ObjectId_isValid E (params_id req) = true →
  projects w !! params_id req = Some existing →
  truthy (Body.get "cloudinaryVideoUrl" (req_body req))
  && truthy (Body.get "cloudinaryVideoPublicId" (req_body req)) = false →
  strict_eq_str (Body.get "removeVideo" (req_body req)) "true"
  || strict_eq_str (Body.get "cloudinaryVideoUrl" (req_body req)) "" = true →
  cloudinaryVideoPublicId existing ≠ "" →
  let after := updateProject E req w in
  (∃ calls, media_calls after.2 = (media_calls w ++ calls)%list
            ∧ destroyed Video calls = [cloudinaryVideoPublicId existing])
  ∧ (status after.1 = 200 →
     ∃ doc, after.1 = send 200 (One (Some "Project updated successfully") (Some doc))
            ∧ projects after.2 !! params_id req = Some doc
            ∧ cloudinaryVideoUrl doc = ""
            ∧ cloudinaryVideoPublicId doc = "").
Proof.
  intros Hvalid Hfound Hpair Hrm Hold. cbv zeta.
  rewrite (updateProject_run E req w existing) by done. cbv zeta.
  set (b0 := normalize_arrays _ _).
  set (w0 := with_db_call _ w).
  destruct (update_media_removal video_keys (cloudinaryVideoPublicId existing)
              (files_video req) b0 w0) as (w1 & -> & Hp1 & Hd1 & Hm1).
  { simpl. unfold b0. by rewrite !media_key_frame by tauto. }
  { simpl. unfold b0. rewrite remove_key_frame, media_key_frame by tauto. done. }
  { done. }
  simpl in Hm1 |- *.
  set (b1 := Body.set _ _ _).
  destruct (update_media E thumbnail_keys _ _ b1 w1) as [o2 w2] eqn:H2.
  destruct (update_media_world _ _ _ _ _ _ _ _ H2)
    as (Hp2 & Hd2 & c2 & Hm2 & Hother2 & _).
  assert (Hcalls : ∀ (r : response) w3, media_calls w3 = media_calls w2 →
            ∃ calls, media_calls (r, w3).2 = (media_calls w ++ calls)%list
                     ∧ destroyed Video calls = [cloudinaryVideoPublicId existing]).
  { intros r w3 Hm3. exists ([Destroy Video (cloudinaryVideoPublicId existing)] ++ c2)%list.
    split; [simpl; by rewrite Hm3, Hm2, Hm1, <- app_assoc|].
    rewrite destroyed_app, Hother2 by done. done. }
  destruct (update_media_outcome _ _ _ _ _ _ _ _ H2) as [[b2 ->]|(r2 & -> & Hs2)].
  2:{ split; [by apply Hcalls|]. simpl. by rewrite Hs2. }
  destruct (update_media_value E _ _ "" _ _ _ _ _ H2) as [Hf2 _]. simpl in Hf2.
  assert (Hfound2 : projects w2 !! params_id req = Some existing).
  { by rewrite Hp2, Hp1. }
  rewrite (Project_findByIdAndUpdate_run _ _ _ _ Hfound2). cbv zeta.
  destruct (body_cast_errors b2 ++ required_errors _)%list eqn:Herr.
  - split; [by apply Hcalls|]. intros _. eexists. split; [done|].
    simpl. split; [apply lookup_insert_eq|].
    rewrite (Hf2 "cloudinaryVideoUrl"), (Hf2 "cloudinaryVideoPublicId") by done.
    unfold b1. rewrite get_set_ne, !get_set_eq by done. done.
  - split; [by apply Hcalls|]. done.
Qed.

(** X6.  When the legacy server-side upload of a new video is rejected,
    the update answers 500 and leaves the record as it was, without any
    update query; yet the deletion of the record's old video was already
    issued, before the upload was tried. *)
Theorem updateProject_upload_rejected req w existing input :
  ObjectId_isValid E (params_id req) = true →
  projects w !! params_id req = Some existing →
  truthy (Body.get "cloudinaryVideoUrl" (req_body req))
  && truthy (Body.get "cloudinaryVideoPublicId" (req_body req)) = false →
  strict_eq_str (Body.get "removeVideo" (req_body req)) "true"
  || strict_eq_str (Body.get "cloudinaryVideoUrl" (req_body req)) "" = false →
  head (files_video req) = Some input →
  upload_result E Video input = None →
  let after := updateProject E req w in
  after.1 = send 500 (Failure "Error uploading video to Cloudinary"
                              "media store: upload failed")
  ∧ projects after.2 = projects w
  ∧ db_calls after.2 = (db_calls w ++ [FindById (params_id req)])%list
  ∧ media_calls after.2
    = (media_calls w
       ++ (if cloudinaryVideoPublicId existing =? "" then []
           else [Destroy Video (cloudinaryVideoPublicId existing)])
       ++ [Upload Video input])%list.
Proof.
  intros Hvalid Hfound Hpair Hrm Hfile Hup. cbv zeta.
  rewrite (updateProject_run E req w existing) by done. cbv zeta.
  set (b0 := normalize_arrays _ _).
  set (w0 := with_db_call _ w).
  destruct (update_media_upload_rejected video_keys (cloudinaryVideoPublicId existing)
              input (files_video req) b0 w0) as (w1 & -> & Hp1 & Hd1 & Hm1); try done.
  { simpl. unfold b0. by rewrite !media_key_frame by tauto. }
  { simpl. unfold b0. rewrite remove_key_frame, media_key_frame by tauto. done. }
Qed.
End UpdateBranches.

Section CreateFacts.
Variable E : services.
Implicit Types (w : world) (req : request) (b : body).

(** X7.  A create request sent as JSON never reaches the media store,
    whatever files come with it.  It issues the one save and answers 201
    when the document is stored, 400 when validation fails and 500, with
    the store's message, when the store rejects a valid document; in the
    last two cases the collection is unchanged. *)
Theorem addProject_json_no_media req w :
  includes (default "" (content_type req)) "application/json" = true →
  let after := addProject E req w in
  let b := normalize_arrays (JSON_parse E) (req_body req) in
  let doc := apply_body b (blank (new_ObjectId E (projects w)) (now E)) in
  media_calls after.2 = media_calls w
  ∧ db_calls after.2 = (db_calls w ++ [Save])%list
  ∧ (status after.1 = 201
     ∨ (status after.1 = 400 ∨ status after.1 = 500) ∧ projects after.2 = projects w)
  ∧ (∀ message,
       (body_cast_errors b ++ required_errors doc)%list = [] →
       save_error E (projects w) doc = Some message →
       after.1 = send 500 (Failure "Error adding project" message))
  ∧ (status after.1 = 201 → save_error E (projects w) doc = None)
  ∧ ∀ videos thumbnails,
      addProject E {| params_id := params_id req; content_type := content_type req;
                      req_body := req_body req; files_video := videos;
                      files_thumbnail := thumbnails |} w
      = after.
Proof.
  intros Hjson. cbv zeta. split_and!.
  6:{ intros videos thumbnails. rewrite !addProject_run. cbv zeta. simpl.
      by rewrite Hjson. }
  all: rewrite addProject_run; cbv zeta; rewrite Hjson, Project_save_run; cbv zeta;
    destruct (body_cast_errors _ ++ required_errors _)%list;
    [destruct (save_error E _ _) eqn:Hstore|]; simpl; eauto.
  all: try (by intros message _ [= ->]); try done.
Qed.

Lemma add_upload_rejected k urlK idK failure input files b w :
  head files = Some input →
  upload_result E k input = None →
  add_upload E k urlK idK failure files b w
  = (Return (send 500 (Failure failure "media store: upload failed")),
     with_console (String.append failure ":") (with_media_call (Upload k input) w)).
Proof.
  intros Hfile Hup. unfold add_upload. rewrite Hfile.
  unfold uploadToCloudinary. unfold_monad. simpl. by rewrite Hup.
Qed.

Lemma add_upload_resolved k urlK idK failure input files b w url publicId :
  head files = Some input →
  upload_result E k input = Some (url, publicId) →
  add_upload E k urlK idK failure files b w
  = (Value (Body.set idK (JStr publicId) (Body.set urlK (JStr url) b)),
     with_media_call (Upload k input) w).
Proof.
  intros Hfile Hup. unfold add_upload. rewrite Hfile.
  unfold uploadToCloudinary. unfold_monad. simpl. by rewrite Hup.
Qed.

(** X8.  On the multipart path a rejected upload ends the request with
    500 before anything is saved.  When it is the video that fails, the
    thumbnail is never uploaded; when the video went through and the
    thumbnail fails, the uploaded video stays in the media store with no
    record naming it. *)
Theorem addProject_upload_rejected req w video :
  includes (default "" (content_type req)) "application/json" = false →
  head (files_video req) = Some video →
  let after := addProject E req w in
  (upload_result E Video video = None →
   after.1 = send 500 (Failure "Error uploading video to Cloudinary"
                               "media store: upload failed")
   ∧ projects after.2 = projects w
   ∧ db_calls after.2 = db_calls w
   ∧ media_calls after.2 = (media_calls w ++ [Upload Video video])%list)
  ∧ (∀ thumbnail, is_Some (upload_result E Video video) →
       head (files_thumbnail req) = Some thumbnail →
       upload_result E Image thumbnail = None →
       after.1 = send 500 (Failure "Error uploading thumbnail to Cloudinary"
                                   "media store: upload failed")
       ∧ projects after.2 = projects w
       ∧ db_calls after.2 = db_calls w
       ∧ media_calls after.2
         = (media_calls w ++ [Upload Video video; Upload Image thumbnail])%list).
Proof.
  intros Hmulti Hvideo. cbv zeta. rewrite addProject_run. cbv zeta. rewrite Hmulti.
  split.
  - intros Hup. by rewrite (add_upload_rejected _ _ _ _ video).
  - intros thumbnail [[url publicId] Hup] Hthumb Hrej.
    rewrite (add_upload_resolved _ _ _ _ video _ _ _ url publicId) by done.
    rewrite (add_upload_rejected _ _ _ _ thumbnail) by done.
    simpl. by rewrite <- app_assoc.
Qed.

(** The record a successful create replies with is the one it stored. *)
Lemma addProject_created req w :
  status (addProject E req w).1 = 201 →
  ∃ doc, (addProject E req w).1
         = send 201 (One (Some "Project added successfully") (Some doc))
         ∧ projects (addProject E req w).2 !! _id doc = Some doc.
Proof.
  rewrite addProject_run. cbv zeta.
  set (b0 := normalize_arrays _ _) in *.
  destruct (includes _ _).
  - destruct (Project_save E b0 w) as [o w2] eqn:Hsave.
    destruct (Project_save_outcome _ _ _ _ _ Hsave) as [[doc ->]|[[errors|message] ->]]; [|done..].
    intros _. apply Project_save_stored in Hsave as (_ & _ & Hst). by exists doc.
  - destruct (add_upload E Video _ _ _ _ b0 w) as [o1 w1] eqn:H1.
    destruct (add_upload_outcome _ _ _ _ _ _ _ _ _ _ H1) as [[b1 ->]|(r1 & -> & Hs1)];
      [|simpl; by rewrite Hs1].
    destruct (add_upload E Image _ _ _ _ b1 w1) as [o2 w2] eqn:H2.
    destruct (add_upload_outcome _ _ _ _ _ _ _ _ _ _ H2) as [[b2 ->]|(r2 & -> & Hs2)];
      [|simpl; by rewrite Hs2].
    destruct (Project_save E b2 w2) as [o w3] eqn:Hsave.
    destruct (Project_save_outcome _ _ _ _ _ Hsave) as [[doc ->]|[[errors|message] ->]]; [|done..].
    intros _. apply Project_save_stored in Hsave as (_ & _ & Hst). by exists doc.
Qed.

(** A successful update leaves the document it answers with under the
    requested id. *)
Lemma updateProject_updated req w doc :
  (updateProject E req w).1
  = send 200 (One (Some "Project updated successfully") (Some doc)) →
  projects (updateProject E req w).2 !! params_id req = Some doc.
Proof.
  intros Hreply.
  destruct (updateProject_stored E req w) as (existing & b' & doc' & Hfound & _).
  { by rewrite Hreply. }
  assert (H200 : status (updateProject E req w).1 = 200) by by rewrite Hreply.
  destruct (updateProject_status_200 _ _ _ H200) as (Hvalid & _).
  revert Hreply. rewrite (updateProject_run E req w existing) by done. cbv zeta.
  set (b0 := normalize_arrays _ _) in *.
  destruct (update_media E video_keys _ _ b0 _) as [o1 w1] eqn:H1.
  destruct (update_media_outcome _ _ _ _ _ _ _ _ H1) as [[b1 ->]|(r1 & -> & Hs1)].
  2:{ simpl. intros ->. done. }
  destruct (update_media E thumbnail_keys _ _ b1 w1) as [o2 w2] eqn:H2.
  destruct (update_media_outcome _ _ _ _ _ _ _ _ H2) as [[b2 ->]|(r2 & -> & Hs2)].
  2:{ simpl. intros ->. done. }
  destruct (update_media_world _ _ _ _ _ _ _ _ H1) as (Hw1 & _).
  destruct (update_media_world _ _ _ _ _ _ _ _ H2) as (Hw2 & _).
  assert (Hfound2 : projects w2 !! params_id req = Some existing).
  { by rewrite Hw2, Hw1. }
  rewrite (Project_findByIdAndUpdate_run _ _ _ _ Hfound2). cbv zeta.
  destruct (body_cast_errors b2 ++ required_errors _)%list eqn:Herr; [|done].
  simpl. intros [= <-]. apply lookup_insert_eq.
Qed.

(** X9.  What a write replies is what a read finds: after a successful
    create, and after a successful update, [getProject] for the record's id
    answers 200 with exactly the record the write replied with. *)
Theorem written_record_is_read_back req w :
  (∀ doc, (addProject E req w).1
          = send 201 (One (Some "Project added successfully") (Some doc)) →
          ∀ req', params_id req' = _id doc →
                  ObjectId_isValid E (_id doc) = true →
                  (getProject E req' (addProject E req w).2).1
                  = send 200 (One None (Some doc)))
  ∧ (∀ doc, (updateProject E req w).1
            = send 200 (One (Some "Project updated successfully") (Some doc)) →
            (getProject E req (updateProject E req w).2).1
            = send 200 (One None (Some doc))).
Proof.
  split.
  - intros doc Hreply req' Hid Hvalid.
    destruct (addProject_created req w) as (doc' & Hreply' & Hst).
    { by rewrite Hreply. }
    rewrite Hreply in Hreply'. injection Hreply' as <-.
    unfold getProject, Project_findById. unfold_monad.
    rewrite Hid, Hvalid. simpl. by rewrite Hst.
  - intros doc Hreply.
    destruct (updateProject_stored E req w) as (existing & b' & doc' & Hfound & Hreply' & _).
    { by rewrite Hreply. }
    assert (H200 : status (updateProject E req w).1 = 200) by by rewrite Hreply.
    destruct (updateProject_status_200 _ _ _ H200) as (Hvalid & _).
    assert (Hst : projects (updateProject E req w).2 !! params_id req = Some doc).
    { revert Hreply. rewrite (updateProject_run E req w existing) by done. cbv zeta.
      set (b0 := normalize_arrays _ _) in *.
      destruct (update_media E video_keys _ _ b0 _) as [o1 w1] eqn:H1.
      destruct (update_media_outcome _ _ _ _ _ _ _ _ H1) as [[b1 ->]|(r1 & -> & Hs1)].
      2:{ simpl. intros ->. done. }
      destruct (update_media E thumbnail_keys _ _ b1 w1) as [o2 w2] eqn:H2.
      destruct (update_media_outcome _ _ _ _ _ _ _ _ H2) as [[b2 ->]|(r2 & -> & Hs2)].
      2:{ simpl. intros ->. done. }
      destruct (update_media_world _ _ _ _ _ _ _ _ H1) as (Hw1 & _).
      destruct (update_media_world _ _ _ _ _ _ _ _ H2) as (Hw2 & _).
      assert (Hfound2 : projects w2 !! params_id req = Some existing).
      { by rewrite Hw2, Hw1. }
      rewrite (Project_findByIdAndUpdate_run _ _ _ _ Hfound2). cbv zeta.
      destruct (body_cast_errors b2 ++ required_errors _)%list eqn:Herr; [|done].
      simpl. intros [= <-]. apply lookup_insert_eq. }
    unfold getProject, Project_findById. unfold_monad.
    rewrite Hvalid. simpl. by rewrite Hst.
Qed.
End CreateFacts.

(** ** Indexed form fields *)

Section DecimalFacts.
#[local] Arguments String.append !_ _ / : simpl nomatch.

Lemma parseInt_digits_from ds : parseInt_digits ds = parse_from 0 ds.
Proof. reflexivity. Qed.

Lemma digit_value_char d : (d < 10)%N → digit_value (digit_char d) = d.
Proof.
  intros Hd. unfold digit_value, digit_char.
  rewrite N_ascii_embedding by lia. lia.
Qed.

Lemma is_digit_char d : (d < 10)%N → is_digit (digit_char d) = true.
Proof.
  intros Hd. unfold is_digit, digit_char.
  rewrite N_ascii_embedding by lia.
  apply andb_true_iff. split; apply N.leb_le; lia.
Qed.

Lemma parse_decimal_digits fuel n acc :
  (n < 2 ^ N.of_nat fuel)%N →
  parse_from 0 (decimal_digits fuel n acc) = parse_from n acc.
Proof.
  revert n acc. induction fuel as [|fuel IH]; intros n acc Hn.
  - simpl in *. by replace n with 0%N by lia.
  - cbn [decimal_digits]. cbv zeta.
    assert (Hmod : (n mod 10 < 10)%N) by (apply N.mod_lt; lia).
    destruct (N.ltb_spec n 10) as [Hlt|Hge].
    + cbn [parse_from]. rewrite digit_value_char by done.
      rewrite N.mod_small by done. f_equal.
    + rewrite IH.
      * cbn [parse_from]. rewrite digit_value_char by done.
        f_equal. rewrite (N.div_mod n 10) at 3 by lia. done.
      * rewrite Nat2N.inj_succ, N.pow_succ_r' in Hn.
        apply N.Div0.div_lt_upper_bound. lia.
Qed.

Lemma parseInt_to_decimal n : parseInt_digits (to_decimal n) = n.
Proof.
  rewrite parseInt_digits_from. unfold to_decimal.
  rewrite parse_decimal_digits; [done|].
  rewrite Nat2N.inj_succ, N2Nat.id.
  destruct (N.eq_dec n 0) as [->|Hn]; [done|].
  apply N.log2_spec. lia.
Qed.

Lemma decimal_digits_shape fuel n acc :
  ∃ ds, decimal_digits fuel n acc = String.append ds acc
        ∧ all_digits ds = true
        ∧ (fuel ≠ O → ds ≠ "").
Proof.
  revert n acc. induction fuel as [|fuel IH]; intros n acc.
  - by exists "".
  - cbn [decimal_digits]. cbv zeta.
    assert (Hmod : (n mod 10 < 10)%N) by (apply N.mod_lt; lia).
    destruct (n <? 10)%N.
    + exists (String (digit_char (n mod 10)) ""). simpl.
      by rewrite is_digit_char.
    + destruct (IH (n / 10)%N (String (digit_char (n mod 10)) acc))
        as (ds & Heq & Hds & _).
      rewrite Heq. clear Heq.
      exists (String.append ds (String (digit_char (n mod 10)) "")).
      split_and!.
      * clear. induction ds as [|c ds IH]; cbn [String.append]; [done|]. by rewrite IH.
      * clear -Hds Hmod. induction ds as [|c ds IH]; cbn [String.append all_digits] in *.
        -- by rewrite is_digit_char.
        -- apply andb_true_iff in Hds as [-> Hds]. simpl. by apply IH.
      * intros _. by destruct ds.
Qed.

Lemma to_decimal_shape n :
  all_digits (to_decimal n) = true ∧ to_decimal n ≠ "".
Proof.
  unfold to_decimal.
  destruct (decimal_digits_shape (S (N.to_nat (N.log2 n))) n "") as (ds & -> & Hds & Hne).
  assert (String.append ds "" = ds) as ->.
  { clear. induction ds as [|c ds IH]; simpl; [done|]. by rewrite IH. }
  split; [done|]. by apply Hne.
Qed.

Lemma span_digits_bracket ds rest :
  all_digits ds = true →
  span_digits (String.append ds (String "]" rest)) = (ds, String "]" rest).
Proof.
  induction ds as [|c ds IH]; simpl; [done|].
  intros [-> Hds]%andb_true_iff. by rewrite IH.
Qed.

Lemma match_index_bracket ds rest :
  all_digits ds = true → ds ≠ "" →
  match_index (String "[" (String.append ds (String "]" rest))) = Some ds.
Proof.
  intros Hds Hne. cbn [match_index]. rewrite Ascii.eqb_refl.
  rewrite span_digits_bracket by done.
  destruct ds as [|d ds]; [done|]. by rewrite Ascii.eqb_refl.
Qed.

Lemma startsWith_nil s : startsWith s "" = true.
Proof. by destruct s. Qed.

Lemma field_index_indexed_key F n :
  F = "features" ∨ F = "tools" → field_index F (indexed_key F n) = Some n.
Proof.
  destruct (to_decimal_shape n) as [Hds Hne].
  intros [-> | ->]; unfold field_index.
  - change (startsWith (indexed_key "features" n) (String.append "features" "["))
      with (startsWith (String.append (to_decimal n) "]") "").
    change (match_index (indexed_key "features" n))
      with (match_index (String "[" (String.append (to_decimal n) "]"))).
    rewrite startsWith_nil, match_index_bracket by done. simpl.
    by rewrite parseInt_to_decimal.
  - change (startsWith (indexed_key "tools" n) (String.append "tools" "["))
      with (startsWith (String.append (to_decimal n) "]") "").
    change (match_index (indexed_key "tools" n))
      with (match_index (String "[" (String.append (to_decimal n) "]"))).
    rewrite startsWith_nil, match_index_bracket by done. simpl.
    by rewrite parseInt_to_decimal.
Qed.
End DecimalFacts.

Section RoundTrip.
Variable E : services.
Implicit Types (b : body) (l : list jsval) (F : string).

Lemma cast_strings_strings (l : list string) : cast_strings (JStr <$> l) = Some l.
Proof.
  induction l as [|s l IH]; [done|].
  rewrite fmap_cons. cbn [cast_strings]. by rewrite IH.
Qed.

Lemma truthy_strings (ss : list string) :
  filter (λ v, truthy v = true) (JStr <$> ss) = JStr <$> filter (λ s, s ≠ "") ss.
Proof.
  induction ss as [|s ss IH]; [done|]. rewrite fmap_cons.
  destruct (String.eqb_spec s "") as [->|Hs].
  - rewrite (filter_cons_False (λ v, truthy v = true)) by done.
    by rewrite (filter_cons_False (λ s, s ≠ "")) by (by intros ?).
  - rewrite (filter_cons_True (λ v, truthy v = true))
      by (simpl; by apply negb_true_iff, String.eqb_neq).
    rewrite (filter_cons_True (λ s, s ≠ "")) by done.
    by rewrite fmap_cons, IH.
Qed.

Lemma indexed_entries_app F b1 b2 :
  indexed_entries F (b1 ++ b2)%list = (indexed_entries F b1 ++ indexed_entries F b2)%list.
Proof. unfold indexed_entries. apply omap_app. Qed.

(** The entries of a list laid out at the indices [g 0], [g 1], ... *)
Lemma indexed_entries_fields F l (g : nat → N) :
  F = "features" ∨ F = "tools" →
  (∀ i, (i < List.length l)%nat → is_array_index (g i) = true) →
  indexed_entries F (imap (λ i v, (indexed_key F (g i), v)) l)
  = imap (λ i v, (g i, v)) l.
Proof.
  intros HF. revert g. induction l as [|v l IH]; intros g Hg; [done|].
  cbn [imap]. rewrite indexed_entries_cons.
  rewrite field_index_indexed_key by done.
  rewrite Hg by (simpl; lia). f_equal.
  apply (IH (g ∘ S)). intros i Hi. apply Hg. simpl. lia.
Qed.

Lemma arr_put_last i v (a : jsarray) :
  Forall (λ x, (x.1 < i)%N) a → arr_put i v a = (a ++ [(i, v)])%list.
Proof.
  induction 1 as [|[j w] a Hj _ IH]; simpl; [done|].
  simpl in Hj.
  destruct (N.ltb_spec i j); [lia|].
  destruct (N.eqb_spec i j); [lia|]. by rewrite IH.
Qed.

Lemma put_all_in_order l (g : nat → N) (a : jsarray) :
  (∀ i, (g i < g (S i))%N) →
  Forall (λ x, (x.1 < g 0%nat)%N) a →
  put_all (imap (λ i v, (g i, v)) l) a = (a ++ imap (λ i v, (g i, v)) l)%list.
Proof.
  revert g a. induction l as [|v l IH]; intros g a Hg Ha.
  - by rewrite app_nil_r.
  - cbn [imap]. unfold put_all. cbn [fold_left fst snd].
    rewrite arr_put_last by done.
    change (fold_left _ ?es ?a0) with (put_all es a0).
    rewrite (IH (g ∘ S)).
    + by rewrite <- app_assoc.
    + intros i. apply Hg.
    + apply Forall_app. split.
      * eapply Forall_impl; [exact Ha|]. simpl. intros x Hx. specialize (Hg 0%nat). lia.
      * repeat constructor. simpl. apply Hg.
Qed.

Lemma filter_Boolean_in_order l (g : nat → N) :
  filter_Boolean (imap (λ i v, (g i, v)) l) = filter (λ v, truthy v = true) l.
Proof.
  unfold filter_Boolean. revert g. induction l as [|v l IH]; intros g; [done|].
  cbn [imap]. destruct (decide (truthy v = true)) as [Hv|Hv].
  - rewrite (filter_cons_True (λ v0, truthy v0 = true)) by done.
    rewrite (filter_cons_True (λ e : N * jsval, truthy e.2 = true)) by done.
    rewrite fmap_cons. simpl. f_equal. apply (IH (g ∘ S)).
  - rewrite (filter_cons_False (λ v0, truthy v0 = true)) by done.
    rewrite (filter_cons_False (λ e : N * jsval, truthy e.2 = true)) by done.
    apply (IH (g ∘ S)).
Qed.

(** X10.  Array format, [features[0]], [features[1]], ...: the key
    [F[i]], written with the decimal digits of [i], is read back as index
    [i]; so a list sent as the fields [F[0]], [F[1]], ... comes out of the
    normalisation under [F] in the order it was sent, without its falsy
    items, and when the items are strings a successful create or update
    leaves in the collection the record it answers with, which holds them
    in that order, without the empty ones. *)
Theorem indexed_fields_round_trip F l b :
  F = "features" ∨ F = "tools" →
  l ≠ [] →
  (N.of_nat (List.length l) <= 2 ^ 32 - 1)%N →
  indexed_entries F b = [] →
  NoDup (Body.keys (b ++ indexed_fields F l)%list) →
  (∀ i, field_index F (indexed_key F i) = Some i)
  ∧ Body.get F (normalize_arrays (JSON_parse E) (b ++ indexed_fields F l)%list)
    = JArr (filter (λ v, truthy v = true) l)
  ∧ (∀ ss req w doc,
       l = JStr <$> ss →
       req_body req = (b ++ indexed_fields F l)%list →
       ((addProject E req w).1
        = send 201 (One (Some "Project added successfully") (Some doc)) →
        projects (addProject E req w).2 !! _id doc = Some doc
        ∧ stored_list F doc = filter (λ s, s ≠ "") ss)
       ∧ ((updateProject E req w).1
          = send 200 (One (Some "Project updated successfully") (Some doc)) →
          projects (updateProject E req w).2 !! params_id req = Some doc
          ∧ stored_list F doc = filter (λ s, s ≠ "") ss)).
Proof.
  intros HF Hl Hlen Hb Hnd.
  assert (Hnorm : Body.get F (normalize_arrays (JSON_parse E) (b ++ indexed_fields F l)%list)
                  = JArr (filter (λ v, truthy v = true) l)).
  { rewrite normalize_arrays_field by done.
    rewrite indexed_entries_app, Hb. simpl.
    unfold indexed_fields.
    rewrite (indexed_entries_fields F l N.of_nat HF).
    2:{ intros i Hi. apply N.ltb_lt. lia. }
    rewrite bool_decide_eq_false_2 by (by destruct l).
    rewrite <- filter_Boolean_put_all.
    rewrite (put_all_in_order l N.of_nat []); [|intros; lia|constructor].
    apply f_equal, (filter_Boolean_in_order l N.of_nat). }
  split_and!; [intros i; by apply field_index_indexed_key|done|].
  intros ss req w doc -> Hbody.
  rewrite <- Hbody, truthy_strings in Hnorm.
  assert (Hstored : ∀ b' old,
            Body.get F b' = Body.get F (normalize_arrays (JSON_parse E) (req_body req)) →
            stored_list F (apply_body b' old) = filter (λ s, s ≠ "") ss).
  { intros b' old Hget. rewrite stored_list_get by done.
    rewrite Hget, Hnorm. simpl. by rewrite cast_strings_strings. }
  split.
  - intros Hadd. split.
    + destruct (addProject_created E req w) as (doc' & Hr & Hkept).
      { by rewrite Hadd. }
      rewrite Hr in Hadd. by injection Hadd as <-.
    + destruct (addProject_stored E req w) as (b' & doc' & Hr & -> & _ & Hf & Ht).
      { by rewrite Hadd. }
      rewrite Hr in Hadd. injection Hadd as <-.
      apply Hstored. by destruct HF as [-> | ->].
  - intros Hupd. split; [by apply updateProject_updated|].
    destruct (updateProject_stored E req w)
      as (existing & b' & doc' & _ & Hr & -> & _ & Hf & Ht).
    { by rewrite Hupd. }
    rewrite Hr in Hupd. injection Hupd as <-.
    apply Hstored. by destruct HF as [-> | ->].
Qed.
End RoundTrip.

Section ConsumedKeys.
Variable JSON_parse : string → option jsval.
Implicit Types (b : body) (k : string) (st : collected).

Lemma keys_del_subseteq k k' b : k' ∈ Body.keys (Body.del k b) → k' ∈ Body.keys b.
Proof.
  unfold Body.keys. induction b as [|[k0 w] b IH]; simpl; [done|].
  destruct (k0 =? k); simpl.
  - intros Hin. apply elem_of_cons. by right.
  - intros [->|Hin]%elem_of_cons; apply elem_of_cons; [by left|right; by apply IH].
Qed.

Lemma keys_del_NoDup k b : NoDup (Body.keys b) → NoDup (Body.keys (Body.del k b)).
Proof.
  unfold Body.keys. induction b as [|[k0 w] b IH]; simpl; [done|].
  intros [Hk0 Hnd]%NoDup_cons. destruct (k0 =? k); simpl; [done|].
  apply NoDup_cons. split; [|by apply IH].
  intros Hin. apply Hk0. by apply (keys_del_subseteq k).
Qed.

Lemma keys_del_gone k b : NoDup (Body.keys b) → k ∉ Body.keys (Body.del k b).
Proof.
  unfold Body.keys. induction b as [|[k0 w] b IH]; simpl.
  - intros _ Hin. by apply elem_of_nil in Hin.
  - intros [Hk0 Hnd]%NoDup_cons.
    destruct (String.eqb_spec k0 k) as [->|Hne]; simpl; [done|].
    intros [->|Hin]%elem_of_cons; [done|]. by apply IH.
Qed.

Lemma keys_set_elem k k' v b :
  k' ∈ Body.keys (Body.set k v b) → k' = k ∨ k' ∈ Body.keys b.
Proof.
  unfold Body.keys. induction b as [|[k0 w] b IH]; simpl.
  - intros ->%list_elem_of_singleton. by left.
  - destruct (String.eqb_spec k0 k) as [->|Hne]; simpl.
    + intros [->|Hin]%elem_of_cons; [by left|]. right. apply elem_of_cons. by right.
    + intros [->|Hin]%elem_of_cons.
      * right. apply elem_of_cons. by left.
      * destruct (IH Hin) as [->|?]; [by left|]. right. apply elem_of_cons. by right.
Qed.

Lemma collect_key_consumed st k :
  is_Some (field_index "features" k) ∨ is_Some (field_index "tools" k) →
  c_body (collect_key st k) = Body.del k (c_body st).
Proof.
  rewrite field_index_features, field_index_tools. unfold collect_key.
  destruct (startsWith k "features[") eqn:Hf.
  - destruct (startsWith k "tools[") eqn:Ht.
    { by rewrite (tools_key_not_features k Ht) in Hf. }
    destruct (match_index k); simpl; [done|]. by intros [[? ?]|[? ?]].
  - destruct (startsWith k "tools["); [|by intros [[? ?]|[? ?]]].
    destruct (match_index k); simpl; [done|]. by intros [[? ?]|[? ?]].
Qed.

Lemma collect_keys (ks : list string) st :
  NoDup (Body.keys (c_body st)) →
  NoDup (Body.keys (c_body (fold_left collect_key ks st)))
  ∧ (∀ k, k ∈ Body.keys (c_body (fold_left collect_key ks st)) →
          k ∈ Body.keys (c_body st))
  ∧ (∀ k, k ∈ ks →
          is_Some (field_index "features" k) ∨ is_Some (field_index "tools" k) →
          k ∉ Body.keys (c_body (fold_left collect_key ks st))).
Proof.
  revert st. induction ks as [|k0 ks IH]; intros st Hnd; simpl.
  - split_and!; [done|done|]. intros k Hin. by apply elem_of_nil in Hin.
  - assert (Hnd1 : NoDup (Body.keys (c_body (collect_key st k0)))).
    { destruct (collect_key_body st k0) as [->|[-> _]]; [done|].
      by apply keys_del_NoDup. }
    assert (Hsub1 : ∀ k, k ∈ Body.keys (c_body (collect_key st k0)) →
                         k ∈ Body.keys (c_body st)).
    { intros k. destruct (collect_key_body st k0) as [->|[-> _]]; [done|].
      apply keys_del_subseteq. }
    destruct (IH _ Hnd1) as (Hnd' & Hsub & Hgone).
    split_and!; [done|by intros k ?%Hsub%Hsub1|].
    intros k [->|Hin]%elem_of_cons Hk; [|by apply Hgone].
    intros Hin%Hsub. rewrite collect_key_consumed in Hin by done.
    by apply keys_del_gone in Hin.
Qed.

Lemma keys_store_array F a b k :
  k ∈ Body.keys (store_array F a b) → k = F ∨ k ∈ Body.keys b.
Proof.
  unfold store_array. destruct (0 <? arr_length a)%N; [|by right].
  apply keys_set_elem.
Qed.

Lemma keys_parse_string_field F b k :
  k ∈ Body.keys (parse_string_field JSON_parse F b) → k = F ∨ k ∈ Body.keys b.
Proof.
  unfold parse_string_field.
  destruct (truthy (Body.get F b) && is_string (Body.get F b)); [|by right].
  destruct (Body.get F b) as [| |?|?|s|?|?]; try by right.
  destruct (JSON_parse s); apply keys_set_elem.
Qed.

(** X11.  The reconstruction consumes every indexed key: whatever its
    index, a key [features[i]] or [tools[i]] is gone from the body that is
    stored, while every other key, apart from [features] and [tools]
    themselves, keeps its value. *)
Theorem indexed_keys_consumed b :
  NoDup (Body.keys b) →
  (∀ k, is_Some (field_index "features" k) ∨ is_Some (field_index "tools" k) →
        k ∉ Body.keys (normalize_arrays JSON_parse b))
  ∧ (∀ k, plain_key k → k ≠ "features" → k ≠ "tools" →
          Body.get k (normalize_arrays JSON_parse b) = Body.get k b)
  ∧ (∀ k, k ∈ Body.keys (normalize_arrays JSON_parse b) →
          k = "features" ∨ k = "tools" ∨ k ∈ Body.keys b).
Proof.
  intros Hnd.
  set (b2 := parse_string_field JSON_parse "tools"
               (parse_string_field JSON_parse "features" b)).
  assert (Hnd2 : NoDup (Body.keys b2)) by by do 2 apply parse_string_field_NoDup.
  destruct (collect_keys (Body.keys b2) {| c_body := b2; c_features := []; c_tools := [] |})
    as (_ & Hsub & Hgone); [done|].
  fold (collect b2) in Hsub, Hgone. simpl in Hsub.
  assert (Hkeys : ∀ k, k ∈ Body.keys (normalize_arrays JSON_parse b) →
                       k = "features" ∨ k = "tools" ∨ k ∈ Body.keys (c_body (collect b2))).
  { intros k. unfold normalize_arrays. fold b2.
    intros [->|[->|Hin]%keys_store_array]%keys_store_array; tauto. }
  split_and!.
  - intros k Hk Hin.
    assert (Hnf : k ≠ "features") by (intros ->; by destruct Hk as [[? ?]|[? ?]]).
    assert (Hnt : k ≠ "tools") by (intros ->; by destruct Hk as [[? ?]|[? ?]]).
    destruct (Hkeys k Hin) as [?|[?|Hc]]; [done..|].
    apply (Hgone k); [by apply Hsub|done|done].
  - intros k Hk Hf Ht. by apply normalize_arrays_frame.
  - intros k Hin. destruct (Hkeys k Hin) as [?|[?|Hc%Hsub]]; [tauto..|].
    unfold b2 in Hc.
    apply keys_parse_string_field in Hc as [->|Hc]; [tauto|].
    apply keys_parse_string_field in Hc as [->|Hc]; tauto.
Qed.
End ConsumedKeys.

(** ** Throttle and debounce *)

Section ThrottleBounds.
Import Throttle.
Context {Args : Type}.
Variable limit : Z.
Implicit Types (st : @state Args) (es : list (@event Args)) (e : @event Args).

Lemma call_count_snoc es e :
  call_count (es ++ [e]) =
  match e with
  | Call _ _ => S (call_count es)
  | Fire _ _ => call_count es
  end.
Proof.
  induction es as [|e0 es IH]; simpl.
  - by destruct e.
  - rewrite IH. by destruct e0, e.
Qed.

(** What was applied, and what is still owed, against what was called. *)
Lemma run_budget es st :
  run limit initial es = Some st →
  (List.length (applied st) + List.length (timers st) <= call_count es)%nat
  ∧ (timeoutId st = None →
     match latest_args es with
     | Some a => ∃ t, last (applied st) = Some (t, Some a)
     | None => applied st = []
     end)
  ∧ (is_Some (timeoutId st) → is_Some (latest_args es)).
Proof.
  revert st. induction es as [|e es IH] using rev_ind; intros st.
  - intros [= <-]. simpl. split_and!; [lia|done|]. by intros [? ?].
  - rewrite run_snoc. destruct (run limit initial es) as [st0|] eqn:Hrun; [|done].
    simpl. intros Hstep.
    destruct (IH st0 eq_refl) as (Hcount & Hlast & Hsome).
    destruct (run_inv limit es st0 Hrun) as [Ht Ha Hl].
    rewrite call_count_snoc, latest_args_snoc.
    destruct e as [now a|id now]; simpl in Hstep.
    + injection Hstep as <-. unfold throttled.
      destruct ((limit - (now - lastCall st0) <=? 0)
                || (limit - (now - lastCall st0) >? limit))%Z; simpl.
      * split_and!; [|intros _; rewrite last_snoc; eauto|by intros [? ?]].
        rewrite length_app. simpl.
        destruct (timeoutId st0) as [id|].
        -- destruct Ht as [delay Ht]. rewrite Ht in Hcount |- *.
           rewrite clearTimeout_single. simpl in *. lia.
        -- rewrite Ht in Hcount |- *. simpl in *. lia.
      * destruct (timeoutId st0) as [id|] eqn:Hid; simpl.
        -- split_and!; [lia|done|eauto].
        -- rewrite Ht in Hcount |- *. rewrite length_app. simpl in *.
           split_and!; [lia|done|eauto].
    + destruct (existsb _ (timers st0)) eqn:Hex; [|done].
      injection Hstep as <-. simpl.
      destruct (timeoutId st0) as [id0|] eqn:Hid; [|by rewrite Ht in Hex].
      destruct Ht as [delay Ht]. rewrite Ht in Hex, Hcount |- *. simpl in Hex.
      rewrite orb_false_r in Hex. apply Pos.eqb_eq in Hex as ->.
      rewrite clearTimeout_single, length_app. simpl in *.
      split_and!; [lia| |by intros [? ?]].
      intros _. destruct Hsome as [a0 Ha0]; [eauto|].
      rewrite Ha0. rewrite last_snoc. exists now. by rewrite Ha, Ha0.
Qed.

(** X12.  A throttled function never runs [func] more often than it was
    called: the applications made so far, plus the one a pending timer
    still owes, never outnumber the calls. *)
Theorem throttle_applies_at_most_once_per_call es st :
  run limit initial es = Some st →
  (List.length (applied st) + List.length (timers st) <= call_count es)%nat.
Proof. intros Hrun. by destruct (run_budget es st Hrun) as (? & _). Qed.

(** X13.  No call is lost: whenever no timer is pending, the last
    application of [func] was made on the arguments of the most recent
    call. *)
Theorem throttle_keeps_last_call es st a :
  run limit initial es = Some st →
  timers st = [] →
  latest_args es = Some a →
  ∃ t, last (applied st) = Some (t, Some a).
Proof.
  intros Hrun Hnone Hlatest.
  destruct (run_budget es st Hrun) as (_ & Hlast & _).
  destruct (run_inv limit es st Hrun) as [Ht _ _].
  destruct (timeoutId st) as [id|].
  - destruct Ht as [delay Ht]. by rewrite Ht in Hnone.
  - specialize (Hlast eq_refl). by rewrite Hlatest in Hlast.
Qed.
End ThrottleBounds.

Section DebounceFacts.
Import Debounce.
Context {Args : Type}.
Variable wait : Z.
Variable immediate : bool.
Implicit Types (st : @state Args) (es : list (@event Args)) (e : @event Args).

Lemma debounce_run_snoc st es e :
  run wait immediate st (es ++ [e]) = run wait immediate st es ≫= λ st', step wait immediate st' e.
Proof.
  revert st. induction es as [|e0 es IH]; intros st; simpl.
  - by destruct (step wait immediate st e).
  - destruct (step wait immediate st e0); [apply IH|done].
Qed.

Lemma latest_call_snoc es e :
  latest_call (es ++ [e]) =
  match e with
  | Call now a => Some (now, a)
  | Fire _ _ => latest_call es
  end.
Proof.
  induction es as [|e0 es IH]; simpl.
  - by destruct e.
  - rewrite IH. by destruct e.
Qed.

Lemma debounce_step_inv es st e st' :
  reachable_inv wait es st → step wait immediate st e = Some st' →
  reachable_inv wait (es ++ [e]) st'.
Proof.
  intros [Ht] Hstep. destruct e as [now a|id now]; simpl in Hstep.
  - injection Hstep as <-. constructor. simpl.
    exists now, a. rewrite latest_call_snoc. split; [done|].
    destruct (timeout st) as [id|]; simpl.
    + destruct Ht as (t & a0 & _ & ->).
      unfold clearTimeout. simpl. by rewrite Pos.eqb_refl.
    + by rewrite Ht.
  - destruct (find _ (timers st)) as [t|] eqn:Hfind; [|done].
    destruct (_ <=? now)%Z; [|done]. injection Hstep as <-.
    constructor. simpl.
    destruct (timeout st) as [id0|].
    + destruct Ht as (t0 & a0 & _ & Ht). rewrite Ht in Hfind |- *. simpl in *.
      by destruct (Pos.eqb_spec id0 id).
    + by rewrite Ht in Hfind.
Qed.

Lemma debounce_run_inv es st :
  run wait immediate initial es = Some st → reachable_inv wait es st.
Proof.
  revert st. induction es as [|e es IH] using rev_ind; intros st.
  - intros [= <-]. by constructor.
  - rewrite debounce_run_snoc. destruct (run wait immediate initial es) as [st0|]; [|done].
    simpl. intros Hstep. eapply debounce_step_inv; [|done]. by apply IH.
Qed.

(** X14.  Debouncing on the trailing edge: a call never runs [func]
    itself, it only restarts the one timer; when that timer fires, [func]
    runs once, on the arguments of the most recent call, and at least
    [wait] after that call. *)
Theorem debounce_trailing es st :
  immediate = false →
  run wait immediate initial es = Some st →
  (List.length (timers st) <= 1)%nat
  ∧ (∀ now a,
       applied (debounced wait immediate now a st) = applied st
       ∧ ∃ t, timers (debounced wait immediate now a st) = [t]
              ∧ set_at t = now ∧ delay t = wait ∧ captured t = a)
  ∧ (∀ id now st', step wait immediate st (Fire id now) = Some st' →
       ∃ called a, latest_call es = Some (called, a)
                   ∧ applied st' = (applied st ++ [(now, a)])%list
                   ∧ (called + wait <= now)%Z
                   ∧ timers st' = []).
Proof.
  intros Himm [Ht]%debounce_run_inv. split_and!.
  - destruct (timeout st); [destruct Ht as (? & ? & _ & ->)|rewrite Ht]; simpl; lia.
  - intros now a. split; [simpl; by rewrite Himm|]. simpl.
    destruct (timeout st) as [id|]; simpl.
    + destruct Ht as (t & a0 & _ & ->). simpl. rewrite Pos.eqb_refl. simpl. eauto.
    + rewrite Ht. simpl. eauto.
  - intros id now st' Hstep. simpl in Hstep.
    destruct (find _ (timers st)) as [t|] eqn:Hfind; [|done].
    destruct (Z.leb_spec (set_at t + Z.max 0 (delay t)) now) as [Hdue|]; [|done].
    injection Hstep as <-. simpl.
    destruct (timeout st) as [id0|]; [|by rewrite Ht in Hfind].
    destruct Ht as (called & a & Hlatest & Ht). rewrite Ht in Hfind |- *. simpl in *.
    destruct (Pos.eqb_spec id0 id) as [->|]; [|done].
    injection Hfind as <-. simpl in *.
    exists called, a. rewrite Himm. split_and!; [done|done|lia|done].
Qed.

(** X15.  Debouncing on the leading edge: a timer never runs [func]; a
    call runs it, on its own arguments, exactly when no timer is pending,
    that is on the first call and on the first call after the timer
    fired. *)
Theorem debounce_leading es st :
  immediate = true →
  run wait immediate initial es = Some st →
  (∀ id now st', step wait immediate st (Fire id now) = Some st' →
                 applied st' = applied st ∧ timers st' = [])
  ∧ (∀ now a,
       applied (debounced wait immediate now a st)
       = if bool_decide (timers st = []) then (applied st ++ [(now, a)])%list
         else applied st)
  ∧ (∀ now a now' a',
       applied (debounced wait immediate now' a' (debounced wait immediate now a st))
       = applied (debounced wait immediate now a st)).
Proof.
  intros Himm [Ht]%debounce_run_inv. split_and!.
  - intros id now st' Hstep. simpl in Hstep.
    destruct (find _ (timers st)) as [t|] eqn:Hfind; [|done].
    destruct (_ <=? now)%Z; [|done]. injection Hstep as <-. simpl.
    rewrite Himm. split; [done|].
    destruct (timeout st) as [id0|]; [|by rewrite Ht in Hfind].
    destruct Ht as (called & a & Hlatest & Ht). rewrite Ht in Hfind |- *. simpl in *.
    by destruct (Pos.eqb_spec id0 id).
  - intros now a. simpl. rewrite Himm.
    destruct (timeout st) as [id|]; simpl.
    + destruct Ht as (? & ? & _ & ->). done.
    + by rewrite Ht.
  - intros now a now' a'. simpl. by rewrite Himm.
Qed.
End DebounceFacts.

(** ** Device performance *)

Section PerformanceFacts.
Import Performance.
Import QArith_base.
Implicit Types (d : device).

(** X16.  The score of [getDevicePerformance] lies between 1 and 10.  The
    quality is high exactly for a device that is not mobile, has four cores
    or more, and is not both short of memory and set to reduced motion; it
    is minimal exactly for a mobile device with fewer than four cores that
    is short of memory or set to reduced motion.  3D is disabled exactly at
    minimal quality, and the particle multiplier is the one of the quality
    level. *)
Theorem performance_profile_table d :
  let p := getDevicePerformance d in
  let slow_cpu := (cpuCores d <? 4)%N in
  (1 <= score p <= 10)%Z
  ∧ (quality p = "high" ↔
     isMobile p = false ∧ slow_cpu = false
     ∧ (isLowMemory d = false ∨ reducedMotion p = false))
  ∧ (quality p = "minimal" ↔
     isMobile p = true ∧ slow_cpu = true
     ∧ (isLowMemory d = true ∨ reducedMotion p = true))
  ∧ (shouldDisable3D p = true ↔ quality p = "minimal")
  ∧ (quality p = "high" ∧ particleMultiplier p = 1 # 1
     ∨ quality p = "medium" ∧ particleMultiplier p = 6 # 10
     ∨ quality p = "low" ∧ particleMultiplier p = 3 # 10
     ∨ quality p = "minimal" ∧ particleMultiplier p = 1 # 10).
Proof.
  cbv zeta. unfold getDevicePerformance. cbv zeta.
  generalize (test_words_i mobile_words (userAgent d)) (cpuCores d <? 4)%N
    (isLowMemory d) (prefers_reduced_motion d).
  intros [] [] [] []; simpl; (split_and!; [lia|lia| | | |]);
    try (split; intros; first [done | intuition congruence]);
    first [by left | by right; left | by right; right; left | by right; right; right].
Qed.

(** X17.  A browser that does not tell its number of cores, or tells
    zero, is taken to have two: it loses the points of a slow processor and
    never gets high quality. *)
Theorem unknown_core_count_is_penalised d :
  hardwareConcurrency d = None ∨ hardwareConcurrency d = Some 0%N →
  let p := getDevicePerformance d in
  cpuCores d = 2%N ∧ (score p <= 7)%Z ∧ quality p ≠ "high".
Proof.
  intros Hhc. cbv zeta.
  assert (Hc : cpuCores d = 2%N).
  { unfold cpuCores. by destruct Hhc as [-> | ->]. }
  split; [done|].
  unfold getDevicePerformance. cbv zeta. rewrite Hc.
  generalize (test_words_i mobile_words (userAgent d))
    (isLowMemory d) (prefers_reduced_motion d).
  intros [] [] []; simpl; split; (lia || done).
Qed.
End PerformanceFacts.

(** ** Session cookies *)

Section SessionFacts.
Import Auth Session.
Variable jwt_sign : claims → option string → string → option string.
Variable process_env : env.
Variable users : list User.

(** The one cookie [loginUser] can set. *)
Lemma loginUser_cookie (req : request) c :
  c ∈ cookies (loginUser jwt_sign process_env users req) →
  ∃ token,
    c = {| cookie_name := "token";
           cookie_value := token;
           httpOnly := true;
           cookie_secure := isProduction process_env req;
           sameSite := if isProduction process_env req then "None" else "Lax";
           maxAge := 24 * 60 * 60 * 1000;
           cookie_path := "/" |}.
Proof.
  unfold loginUser.
  destruct (User_findOne users (body_username req)) as [u|]; simpl.
  2:{ by intros ?%elem_of_nil. }
  destruct (negb (password u =? body_password req)); simpl.
  { by intros ?%elem_of_nil. }
  destruct (jwt_sign _ _ _) as [token|]; simpl.
  2:{ by intros ?%elem_of_nil. }
  intros ->%list_elem_of_singleton. by exists token.
Qed.

(** X18.  [loginUser] sets a cookie only with a 200; the cookie is always
    HTTP-only on path [/], and it is [SameSite=None] exactly when it is
    [Secure], [SameSite=Lax] otherwise.  Every other reply (401, 404, 500)
    sets no cookie and names no user. *)
Theorem login_cookie_attributes (req : request) :
  let r := loginUser jwt_sign process_env users req in
  (status r = 200 ∨ status r = 401 ∨ status r = 404 ∨ status r = 500)
  ∧ (status r = 200 ↔ cookies r ≠ [])
  ∧ (status r ≠ 200 → user r = None)
  ∧ (∀ c, c ∈ cookies r →
       cookie_name c = "token" ∧ httpOnly c = true ∧ cookie_path c = "/"
       ∧ cookie_secure c = isProduction process_env req
       ∧ (cookie_secure c = true ∧ sameSite c = "None"
          ∨ cookie_secure c = false ∧ sameSite c = "Lax")).
Proof.
  cbv zeta. split_and!.
  4:{ intros c [token ->]%loginUser_cookie. simpl.
      split_and!; [done..|]. destruct (isProduction process_env req); tauto. }
  all: unfold loginUser;
    destruct (User_findOne users (body_username req)) as [u|]; simpl; [|tauto || done];
    destruct (negb (password u =? body_password req)); simpl; [tauto || done|];
    destruct (jwt_sign _ _ _) as [token|]; simpl; tauto || done.
Qed.

(** X19.  [logoutUser] always answers 200, and clears the cookie [token]
    with the very options [loginUser] sets it with, as long as the two
    requests come in over the same kind of transport. *)
Theorem logout_clears_login_cookie (login logout : request) :
  secure logout = secure login →
  x_forwarded_proto logout = x_forwarded_proto login →
  logout_status (logoutUser process_env logout) = 200
  ∧ ∀ c, c ∈ cookies (loginUser jwt_sign process_env users login) →
         cleared (logoutUser process_env logout) = [(cookie_name c, options_of c)].
Proof.
  intros Hs Hx. split; [done|].
  assert (Hp : isProduction process_env logout = isProduction process_env login).
  { unfold isProduction. by rewrite Hs, Hx. }
  intros c [token ->]%loginUser_cookie.
  unfold logoutUser, options_of. simpl. by rewrite Hp.
Qed.
End SessionFacts.

(** ** Direct uploads *)

Section TrimFacts.
#[local] Arguments String.append !_ _ / : simpl nomatch.

Lemma string_length_ind (P : string → Prop) :
  (∀ s, (∀ t, (String.length t < String.length s)%nat → P t) → P s) → ∀ s, P s.
Proof.
  intros H s. remember (String.length s) as n eqn:Hn. revert s Hn.
  induction n as [n IH] using lt_wf_ind. intros s ->.
  apply H. intros t Ht. by eapply IH.
Qed.

Lemma trim_start_clean s : starts_clean (trim_start s).
Proof.
  unfold starts_clean. induction s as [s IH] using string_length_ind.
  destruct s as [|c1 r1]; [done|]. cbn [trim_start].
  destruct (is_space c1) eqn:H1; [apply IH; simpl; lia|].
  destruct r1 as [|c2 r2]; [cbn [begins_blank]; by rewrite H1|].
  destruct (is_space2 c1 c2) eqn:H2; [apply IH; simpl; lia|].
  destruct r2 as [|c3 r3]; [cbn [begins_blank]; by rewrite H1, H2|].
  destruct (is_space3 c1 c2 c3) eqn:H3; [apply IH; simpl; lia|].
  cbn [begins_blank]. by rewrite H1, H2, H3.
Qed.

Lemma trim_start_of_clean s : starts_clean s → trim_start s = s.
Proof.
  unfold starts_clean. destruct s as [|c1 r1]; [done|]. cbn [trim_start begins_blank].
  destruct (is_space c1); [done|].
  destruct r1 as [|c2 r2]; [done|].
  destruct (is_space2 c1 c2); [done|].
  destruct r2 as [|c3 r3]; [done|].
  by destruct (is_space3 c1 c2 c3).
Qed.

Lemma starts_clean_prefix p q : starts_clean (p ++ q) → starts_clean p.
Proof.
  unfold starts_clean. destruct p as [|c1 r1]; [done|]. cbn [begins_blank String.append].
  destruct (is_space c1); [done|].
  destruct r1 as [|c2 r2]; [done|]. cbn [String.append].
  destruct (is_space2 c1 c2); [done|].
  destruct r2 as [|c3 r3]; [done|]. done.
Qed.

(** White space at the head of [p ++ q] when [p] is nothing else. *)
Lemma trim_start_app p q : trim_start p = "" → trim_start (p ++ q) = trim_start q.
Proof.
  induction p as [p IH] using string_length_ind.
  destruct p as [|c1 r1]; [done|]. cbn [trim_start String.append].
  destruct (is_space c1) eqn:H1; [intros; apply IH; [simpl; lia|done]|].
  destruct r1 as [|c2 r2]; [done|]. cbn [String.append].
  destruct (is_space2 c1 c2) eqn:H2; [intros; apply IH; [simpl; lia|done]|].
  destruct r2 as [|c3 r3]; [done|]. cbn [String.append].
  destruct (is_space3 c1 c2 c3) eqn:H3; [intros; apply IH; [simpl; lia|done]|].
  done.
Qed.

(** What [trim_end] removes is white space. *)
Lemma trim_end_split s : ∃ q, s = trim_end s ++ q ∧ trim_start q = "".
Proof.
  induction s as [|c rest (q & Hq & Hblank)]; [by exists ""|].
  cbn [trim_end]. destruct (String.eqb_spec (trim_start (String c rest)) "") as [Hb|Hb].
  - by exists (String c rest).
  - exists q. cbn [String.append]. by rewrite <- Hq.
Qed.

Lemma trim_end_idemp s : trim_end (trim_end s) = trim_end s.
Proof.
  induction s as [|c rest IH]; [done|]. cbn [trim_end].
  destruct (String.eqb_spec (trim_start (String c rest)) "") as [Hb|Hb]; [done|].
  cbn [trim_end]. rewrite IH.
  destruct (String.eqb_spec (trim_start (String c (trim_end rest))) "") as [Hb'|]; [|done].
  destruct (trim_end_split rest) as (q & Hq & Hblank).
  contradict Hb. rewrite Hq.
  change (String c (trim_end rest ++ q)) with (String c (trim_end rest) ++ q).
  by rewrite trim_start_app.
Qed.

Lemma trim_end_clean s : starts_clean s → starts_clean (trim_end s).
Proof.
  intros Hs. destruct (trim_end_split s) as (q & Hq & _).
  rewrite Hq in Hs. by eapply starts_clean_prefix.
Qed.

Lemma trim_idemp s : trim (trim s) = trim s.
Proof.
  unfold trim.
  rewrite (trim_start_of_clean (trim_end (trim_start s))).
  - apply trim_end_idemp.
  - apply trim_end_clean, trim_start_clean.
Qed.
End TrimFacts.

Section UploadFacts.
Import Signature CloudinaryClient Backend.
Variable api_sign_request : params → string → string.
Variable process_env : env.
Variable now_ms : Z.
Implicit Types (K : upload_kind) (cfg : config).

(** What is signed for a folder given as a string. *)
Lemma signed_params_string folder :
  signed_params (JStr folder) now_ms
  = Some ((if trim folder =? "" then [] else [("folder", JStr (trim folder))])
          ++ [("timestamp", JNum (seconds now_ms))])%list.
Proof.
  unfold signed_params, folder_params. simpl.
  destruct (String.eqb_spec folder "") as [->|Hf]; simpl; [done|].
  by destruct (trim folder =? "").
Qed.

(** The parameters the client reads from a reply of the configured back
    end. *)
Lemma endpoint_reply folder resource_type secret key name :
  CLOUDINARY_API_SECRET process_env = Some secret → secret ≠ "" →
  CLOUDINARY_API_KEY process_env = Some key → key ≠ "" →
  CLOUDINARY_CLOUD_NAME process_env = Some name → name ≠ "" →
  resource_type ≠ "" →
  ∃ ps, signed_params (JStr folder) now_ms = Some ps
    ∧ uploadParams (signature_endpoint api_sign_request process_env now_ms
                      {| sent_folder := folder; sent_resource_type := resource_type |})
      = JObj [("success", JBool true);
              ("signature", JStr (api_sign_request ps secret));
              ("timestamp", JNum (seconds now_ms));
              ("folder", JStr (trim folder));
              ("resource_type", JStr resource_type);
              ("api_key", JStr key);
              ("cloud_name", JStr name)].
Proof.
  intros Hsecret Hs%String.eqb_neq Hkey Hk%String.eqb_neq Hname Hn%String.eqb_neq
    Hrt%String.eqb_neq.
  eexists. split; [apply signed_params_string|].
  unfold signature_endpoint, cloudinary_signature. cbn [sent_folder sent_resource_type].
  rewrite Hsecret, Hkey, Hname. cbn [unset]. rewrite Hs, Hk, Hn. cbn [orb].
  rewrite signed_params_string. cbn [default truthy]. rewrite Hrt. cbn [negb].
  unfold over_the_wire. cbn [status json Nat.leb andb uploadParams reply_json].
  do 5 f_equal.
  by destruct (String.eqb_spec (trim folder) "") as [->|Hne].
Qed.

(** X20.  With credentials configured, the form the client builds from the
    back end's reply sends every parameter that was signed, with the signed
    value, and nothing else apart from the file, the API key, the
    signature, the resource type and, for videos, the chunk size. *)
Theorem signed_form_matches_signature K file folder cfg secret key name :
  K = video ∨ K = image →
  CLOUDINARY_API_SECRET process_env = Some secret → secret ≠ "" →
  CLOUDINARY_API_KEY process_env = Some key → key ≠ "" →
  CLOUDINARY_CLOUD_NAME process_env = Some name → name ≠ "" →
  (∀ ps, api_sign_request ps secret ≠ "") →
  let reply := signature_endpoint api_sign_request process_env now_ms
                 {| sent_folder := folder; sent_resource_type := resource K |} in
  ∃ ps fields,
    signed_params (JStr folder) now_ms = Some ps
    ∧ build_form K file folder cfg (uploadParams reply) = Some fields
    ∧ ("signature", Field (JStr (api_sign_request ps secret))) ∈ fields
    ∧ ("api_key", Field (JStr key)) ∈ fields
    ∧ (∀ k v, (k, v) ∈ ps → (k, Field v) ∈ fields)
    ∧ (∀ k v, (k, v) ∈ fields →
         k ∈ unsigned_names ∨ ∃ v', v = Field v' ∧ (k, v') ∈ ps).
Proof.
  intros HK Hsecret Hs Hkey Hk Hname Hn Hsig. cbv zeta.
  destruct (endpoint_reply folder (resource K) secret key name)
    as (ps & Hps & ->); try done.
  { by destruct HK as [-> | ->]. }
  exists ps. rewrite Hps. rewrite signed_params_string in Hps. injection Hps as <-.
  unfold build_form. cbn [truthy prop Body.get String.eqb Ascii.eqb Bool.eqb andb].
  specialize (Hsig ((if trim folder =? "" then [] else [("folder", JStr (trim folder))])
                    ++ [("timestamp", JNum (seconds now_ms))])%list).
  apply String.eqb_neq in Hsig as Hsig'. rewrite Hsig'. cbn [negb].
  unfold folder_fields. cbn [truthy]. rewrite trim_idemp.
  destruct (String.eqb_spec (trim folder) "") as [Ht|Ht]; cbn [negb app];
    destruct HK as [-> | ->]; cbn [resource chunked strict_eq_str String.eqb Ascii.eqb
                                   Bool.eqb negb andb app];
    (eexists; split; [done|]; split; [done|]);
    unfold unsigned_names; (split_and!; [in_list|in_list| |]);
    intros k v Hin; cases_in Hin; injection Hin as -> ->;
    first [in_list | left; in_list | right; eexists; split; [reflexivity|in_list]].
Qed.

(** The form of an unsigned upload. *)
Lemma build_form_unsigned K file folder cfg params :
  truthy params && truthy (prop params "signature") = false →
  build_form K file folder cfg params
  = Some ([("file", Blob file);
           ("upload_preset", Field (or_else (uploadPreset cfg) (JStr (default_preset K))));
           ("folder", Field (JStr folder));
           ("resource_type", Field (JStr (resource K)))]
          ++ (if chunked K then [("chunk_size", Field (JStr "6000000"))] else []))%list.
Proof. intros H. unfold build_form. by rewrite H. Qed.

(** X21.  A form is signed or carries an upload preset, never both and
    never neither.  When the back end cannot be reached, answers with an
    error, or has a credential unset, the form is the unsigned one: the
    preset of the configuration, or the default of the upload's kind when
    none is configured, and the folder as the caller gave it. *)
Theorem unsigned_fallback_form K file folder cfg :
  (∀ params fields,
     build_form K file folder cfg params = Some fields →
     ("signature" ∈ names fields ∧ "api_key" ∈ names fields
      ∧ ("upload_preset" ∉ names fields))
     ∨ ("upload_preset" ∈ names fields ∧ ("signature" ∉ names fields)
        ∧ ("api_key" ∉ names fields)))
  ∧ (∀ reply,
       reply = NetworkError ∨ (∃ data, reply = Response false data)
       ∨ reply = Response true None
       ∨ (reply = signature_endpoint api_sign_request process_env now_ms
                    {| sent_folder := folder; sent_resource_type := resource K |}
          ∧ (unset (CLOUDINARY_API_SECRET process_env) = true
             ∨ unset (CLOUDINARY_API_KEY process_env) = true
             ∨ unset (CLOUDINARY_CLOUD_NAME process_env) = true)) →
       build_form K file folder cfg (uploadParams reply)
       = Some ([("file", Blob file);
                ("upload_preset",
                 Field (or_else (uploadPreset cfg) (JStr (default_preset K))));
                ("folder", Field (JStr folder));
                ("resource_type", Field (JStr (resource K)))]
               ++ (if chunked K then [("chunk_size", Field (JStr "6000000"))] else []))%list).
Proof.
  split.
  - intros params fields. unfold build_form.
    destruct (truthy params && truthy (prop params "signature")).
    + destruct (folder_fields (prop params "folder")) as [ff|] eqn:Hff; [|done].
      intros [= <-]. left.
      assert (Hfolder : ff = [] ∨ ∃ v, ff = [("folder", v)]).
      { unfold folder_fields in Hff. destruct (truthy (prop params "folder")).
        - destruct (prop params "folder"); try done.
          destruct (negb _); injection Hff as <-; eauto.
        - injection Hff as <-. by left. }
      unfold names. split_and!; [simpl; in_list..|].
      rewrite !fmap_cons, !fmap_app. cbn [fst]. intros Hin.
      do 4 (apply elem_of_cons in Hin as [Hin|Hin]; [done|]).
      apply elem_of_app in Hin as [Hin|Hin].
      * destruct Hfolder as [->|[v ->]]; simpl in Hin; cases_in Hin; done.
      * apply elem_of_app in Hin as [Hin|Hin].
        -- destruct (_ && _); simpl in Hin; cases_in Hin; done.
        -- destruct (chunked K); simpl in Hin; cases_in Hin; done.
    + intros [= <-]. right. unfold names. split_and!; [simpl; in_list| |].
      * simpl. intros Hin. do 4 (apply elem_of_cons in Hin as [Hin|Hin]; [done|]).
        destruct (chunked K); simpl in Hin; cases_in Hin; done.
      * simpl. intros Hin. do 4 (apply elem_of_cons in Hin as [Hin|Hin]; [done|]).
        destruct (chunked K); simpl in Hin; cases_in Hin; done.
  - intros reply Hreply. apply build_form_unsigned.
    destruct Hreply as [->|[[data ->]|[->|[-> Hunset]]]]; [done..|].
    unfold signature_endpoint, cloudinary_signature. cbn [sent_folder sent_resource_type].
    assert (unset (CLOUDINARY_API_SECRET process_env)
            || unset (CLOUDINARY_API_KEY process_env)
            || unset (CLOUDINARY_CLOUD_NAME process_env) = true) as ->; [|done].
    destruct Hunset as [->|[->| ->]]; by rewrite ?orb_true_r.
Qed.

(** X22.  Without a cloud name an upload fails before any request is made;
    with one, it asks for exactly one signature, for the folder and
    resource type of the upload.  [getCloudinaryConfig] never caches a
    configuration without a cloud name, and once it has cached one it
    returns it without asking the back end again. *)
Theorem upload_needs_cloud_name (client : client_env) backend cache
    (sign : signature_request → fetched) K file folder :
  (∀ cached, cache = Some cached → truthy (cloudName cached) = true) →
  let '(cfg, cache', asked) := getCloudinaryConfig client backend cache in
  (∀ cached, cache' = Some cached → truthy (cloudName cached) = true)
  ∧ (∀ cached, cache = Some cached → cfg = cached ∧ cache' = cache ∧ asked = false)
  ∧ (truthy (cloudName cfg) = true → cache' = Some cfg)
  ∧ (truthy (cloudName cfg) = false →
     cache' = None
     ∧ ∃ message, prepare_upload sign K file folder cfg = (NotConfigured message, []))
  ∧ (truthy (cloudName cfg) = true →
     (prepare_upload sign K file folder cfg).2
     = [{| sent_folder := folder; sent_resource_type := resource K |}]).
Proof.
  intros Hcache.
  destruct (getCloudinaryConfig client backend cache) as [[cfg cache'] asked] eqn:Hget.
  assert (Hprep : ∀ cfg0,
    (truthy (cloudName cfg0) = false →
     ∃ message, prepare_upload sign K file folder cfg0 = (NotConfigured message, []))
    ∧ (truthy (cloudName cfg0) = true →
       (prepare_upload sign K file folder cfg0).2
       = [{| sent_folder := folder; sent_resource_type := resource K |}])).
  { intros cfg0. unfold prepare_upload. split; intros ->; simpl; [eauto|].
    by destruct (build_form _ _ _ _ _). }
  unfold getCloudinaryConfig in Hget.
  destruct cache as [cached|].
  { injection Hget as <- <- <-. specialize (Hcache cached eq_refl).
    split_and!.
    - by intros ? [= <-].
    - by intros ? [= <-].
    - done.
    - by rewrite Hcache.
    - intros _. by apply Hprep. }
  assert (Hempty : ∀ asked0, (empty_config, @None config, asked0) = (cfg, cache', asked) →
    (∀ cached, cache' = Some cached → truthy (cloudName cached) = true)
    ∧ (∀ cached, @None config = Some cached → cfg = cached ∧ cache' = None ∧ asked = false)
    ∧ (truthy (cloudName cfg) = true → cache' = Some cfg)
    ∧ (truthy (cloudName cfg) = false →
       cache' = None
       ∧ ∃ message, prepare_upload sign K file folder cfg = (NotConfigured message, []))
    ∧ (truthy (cloudName cfg) = true →
       (prepare_upload sign K file folder cfg).2
       = [{| sent_folder := folder; sent_resource_type := resource K |}])).
  { intros asked0 [= <- <- <-]. split_and!; try done.
    intros _. split; [done|]. by apply Hprep. }
  assert (Hfound : ∀ c asked0, truthy (cloudName c) = true →
    (c, Some c, asked0) = (cfg, cache', asked) →
    (∀ cached, cache' = Some cached → truthy (cloudName cached) = true)
    ∧ (∀ cached, @None config = Some cached → cfg = cached ∧ cache' = None ∧ asked = false)
    ∧ (truthy (cloudName cfg) = true → cache' = Some cfg)
    ∧ (truthy (cloudName cfg) = false →
       cache' = None
       ∧ ∃ message, prepare_upload sign K file folder cfg = (NotConfigured message, []))
    ∧ (truthy (cloudName cfg) = true →
       (prepare_upload sign K file folder cfg).2
       = [{| sent_folder := folder; sent_resource_type := resource K |}])).
  { intros c asked0 Hc [= <- <- <-]. split_and!; try done.
    - by intros ? [= <-].
    - by rewrite Hc.
    - intros _. by apply Hprep. }
  cbv zeta in Hget.
  destruct (truthy (env_value (VITE_CLOUDINARY_CLOUD_NAME client))) eqn:Henv.
  { eapply Hfound; [|exact Hget]. exact Henv. }
  destruct backend as [|[] [data|]]; try (by eapply Hempty).
  destruct data; try (by eapply Hempty);
    match type of Hget with
    | context [truthy (prop ?d "cloudName")] =>
        destruct (truthy (prop d "cloudName")) eqn:Hd;
        [eapply Hfound; [|exact Hget]; exact Hd|by eapply Hempty]
    end.
Qed.
End UploadFacts.

(** ** Origins, database connection *)

Section CorsFacts.
Import Cors.
#[local] Arguments String.append !_ _ / : simpl nomatch.
Variable toLowerCase : string → string.

Lemma strip_slash_added s : strip_slash (String.append s "/") = s.
Proof.
  induction s as [|c s IH]; [done|].
  simpl. rewrite IH.
  assert ((String.append s "/" =? "") = false) as ->; [by destruct s|].
  by rewrite andb_false_r.
Qed.

Lemma exact_is_normalized a o :
  (a =? o) = true → (normalized toLowerCase a =? normalized toLowerCase o) = true.
Proof. intros ->%String.eqb_eq. apply String.eqb_refl. Qed.

(** The verdict on an origin that is not empty. *)
Lemma origin_normalized_allowed FRONTEND_URL o :
  o ≠ "" →
  origin_normalized toLowerCase FRONTEND_URL (Some o) = Allowed
  ↔ existsb (λ a, normalized toLowerCase a =? normalized toLowerCase o)
            (allowedOrigins FRONTEND_URL) = true.
Proof.
  intros Ho%String.eqb_neq. unfold origin_normalized. rewrite Ho.
  cbv zeta. by destruct (existsb _ _).
Qed.

(** X23.  The normalising origin check lets through every request without
    an [Origin] header and the two built-in origins, whatever the
    environment and whatever lower-casing does; every other origin it
    either lets through or refuses with a message that names it.  Its
    verdict is the same for two origins that lower-case and strip to the
    same string: so for an origin and its lower-cased form, where
    lower-casing twice is lower-casing once, and for an origin and the
    same with a slash added, where lower-casing leaves that slash alone and
    the lower-cased origin ends in none.  And it lets through whatever the
    exact-match check of the other configuration lets through. *)
Theorem cors_origin_is_normalised (FRONTEND_URL : option string) :
  origin_normalized toLowerCase FRONTEND_URL None = Allowed
  ∧ origin_normalized toLowerCase FRONTEND_URL (Some "http://localhost:5173") = Allowed
  ∧ origin_normalized toLowerCase FRONTEND_URL
      (Some "https://portfolio-advance-version-frontend.vercel.app") = Allowed
  ∧ (∀ o, origin_normalized toLowerCase FRONTEND_URL (Some o) = Allowed
          ∨ origin_normalized toLowerCase FRONTEND_URL (Some o)
            = Refused (String.append "Not allowed by CORS. Origin: " o))
  ∧ (∀ o o', o ≠ "" → o' ≠ "" →
       normalized toLowerCase o' = normalized toLowerCase o →
       origin_normalized toLowerCase FRONTEND_URL (Some o') = Allowed
       ↔ origin_normalized toLowerCase FRONTEND_URL (Some o) = Allowed)
  ∧ (∀ o, o ≠ "" → toLowerCase o ≠ "" →
       toLowerCase (toLowerCase o) = toLowerCase o →
       origin_normalized toLowerCase FRONTEND_URL (Some (toLowerCase o)) = Allowed
       ↔ origin_normalized toLowerCase FRONTEND_URL (Some o) = Allowed)
  ∧ (∀ o, o ≠ "" →
       toLowerCase (String.append o "/") = String.append (toLowerCase o) "/" →
       strip_slash (toLowerCase o) = toLowerCase o →
       origin_normalized toLowerCase FRONTEND_URL (Some (String.append o "/")) = Allowed
       ↔ origin_normalized toLowerCase FRONTEND_URL (Some o) = Allowed)
  ∧ (∀ origin, origin_exact FRONTEND_URL origin = Allowed →
               origin_normalized toLowerCase FRONTEND_URL origin = Allowed).
Proof.
  assert (Hbuiltin : ∀ o, o ≠ "" → o ∈ allowedOrigins FRONTEND_URL →
            origin_normalized toLowerCase FRONTEND_URL (Some o) = Allowed).
  { intros o Ho Hin. apply origin_normalized_allowed; [done|].
    apply existsb_exists. exists o. split; [by apply list_elem_of_In|].
    apply String.eqb_refl. }
  split_and!.
  - done.
  - apply Hbuiltin; [done|]. apply list_elem_of_here.
  - apply Hbuiltin; [done|]. apply list_elem_of_further, list_elem_of_here.
  - intros o. unfold origin_normalized. destruct (o =? ""); [by left|]. cbv zeta.
    destruct (existsb _ _); [by left|by right].
  - intros o o' Ho Ho' Hsame. rewrite !origin_normalized_allowed by done.
    by rewrite Hsame.
  - intros o Ho Hlow Hidem. rewrite !origin_normalized_allowed by done.
    unfold normalized. by rewrite Hidem.
  - intros o Ho Hslash Hclean.
    assert (String.append o "/" ≠ "") by (by destruct o).
    rewrite !origin_normalized_allowed by done.
    unfold normalized. by rewrite Hslash, strip_slash_added, Hclean.
  - intros [o|]; [|done]. unfold origin_exact.
    destruct (String.eqb_spec o "") as [->|Ho]; [done|].
    destruct (existsb (λ a, a =? o) _) eqn:Hex; [|done]. intros _.
    apply origin_normalized_allowed; [done|].
    apply existsb_exists in Hex as (a & Hin & Ha).
    apply existsb_exists. exists a. split; [done|]. by apply exact_is_normalized.
Qed.
End CorsFacts.

Section DbFacts.
Import Db.

(** X24.  [connectDB] resolves only when a URI is set and either a
    connection is already open or [mongoose.connect] succeeds.  It hands
    the URI to [mongoose.connect] at most once, and never when the URI is
    unset or a connection is open.  When it fails it ends the process unless
    [VERCEL] is set, in which case it rejects instead. *)
Theorem connectDB_outcomes (process_env : env) (readyState : Z)
    (mongoose_connect : string → connect_result) :
  let '(result, connects) := connectDB process_env readyState mongoose_connect in
  (List.length connects <= 1)%nat
  ∧ (unset (MONGODB_URI process_env) = true ∨ readyState = 1%Z → connects = [])
  ∧ (∀ uri, uri ∈ connects → MONGODB_URI process_env = Some uri)
  ∧ (result = Resolved ↔
     ∃ uri, MONGODB_URI process_env = Some uri ∧ uri ≠ ""
            ∧ (readyState = 1%Z ∨ ∃ host, mongoose_connect uri = Connected host))
  ∧ (unset (VERCEL process_env) = false → ∀ code, result ≠ Exited code)
  ∧ (unset (VERCEL process_env) = true → ∀ message, result ≠ Rejected message).
Proof.
  unfold connectDB.
  assert (Hfailed : ∀ message,
            (unset (VERCEL process_env) = false →
             ∀ code, connection_failed process_env message ≠ Exited code)
            ∧ (unset (VERCEL process_env) = true →
               ∀ m, connection_failed process_env message ≠ Rejected m)
            ∧ connection_failed process_env message ≠ Resolved).
  { intros message. unfold connection_failed.
    destruct (unset (VERCEL process_env)); split_and!; done. }
  destruct (MONGODB_URI process_env) as [uri|] eqn:Huri.
  2:{ destruct (Hfailed "MONGODB_URI not set in environment") as (He & Hr & Hn).
      split_and!; [simpl; lia|done|by intros ? ?%elem_of_nil| |done|done].
      split; [done|]. by intros (? & ? & _). }
  destruct (String.eqb_spec uri "") as [->|Hne].
  { destruct (Hfailed "MONGODB_URI not set in environment") as (He & Hr & Hn).
    split_and!; [simpl; lia|done|by intros ? ?%elem_of_nil| |done|done].
    split; [done|]. by intros (? & [= <-] & ? & _). }
  destruct (Z.eqb_spec readyState 1) as [->|Hrs].
  { split_and!; [simpl; lia|done|by intros ? ?%elem_of_nil| |done|done].
    split; [|done]. intros _. exists uri. split_and!; [done|done|by left]. }
  destruct (mongoose_connect uri) as [host|message] eqn:Hc.
  - split_and!; [simpl; lia| |by intros ? ->%list_elem_of_singleton| |done|done].
    + intros [Hu|?]; [|done]. simpl in Hu. by apply String.eqb_eq in Hu.
    + split; [|done]. intros _. exists uri. split_and!; [done|done|]. right. eauto.
  - destruct (Hfailed message) as (He & Hr & Hn).
    split_and!; [simpl; lia| |by intros ? ->%list_elem_of_singleton| |done|done].
    + intros [Hu|?]; [|done]. simpl in Hu. by apply String.eqb_eq in Hu.
    + split; [done|]. intros (? & [= <-] & _ & [?|[? ?]]); congruence.
Qed.

Lemma serve_connected requests :
  serve true requests = ((λ _, Next) <$> requests, O, true).
Proof.
  induction requests as [|c rest IH]; [done|].
  simpl. by rewrite IH.
Qed.

(** X25.  Once one request got through [ensureDBConnection], the flag is
    set: every later request is passed on without calling [connectDB]
    again.  Before that, each request calls [connectDB] once; a rejected
    connection answers 500 and leaves the flag unset, so that the next
    request tries again. *)
Theorem ensureDBConnection_connects_once (failures : list string) (later : list outcome) :
  serve false ((Rejected <$> failures) ++ Resolved :: later)%list
  = (((Respond 500 "Database connection failed" <$> failures)
       ++ Next :: ((λ _, Next) <$> later))%list,
     S (List.length failures), true)
  ∧ serve false (Rejected <$> failures)
    = (Respond 500 "Database connection failed" <$> failures, List.length failures, false).
Proof.
  assert (Hstep : ∀ m rest,
            serve false (Rejected m :: rest)
            = (Respond 500 "Database connection failed" m :: (serve false rest).1.1,
               S (serve false rest).1.2, (serve false rest).2)).
  { intros m rest. simpl. by destruct (serve false rest) as [[hs n] final]. }
  split.
  - induction failures as [|m failures IH].
    + simpl. by rewrite serve_connected.
    + rewrite !fmap_cons, <- app_comm_cons, Hstep, IH. done.
  - induction failures as [|m failures IH]; [done|].
    rewrite !fmap_cons, Hstep, IH. done.
Qed.
End DbFacts.

(** ** API base URL, upload filter *)

Section UrlFacts.
Import Urls.
#[local] Arguments String.append !_ _ / : simpl nomatch.

Lemma endsWith_refl s : endsWith s s = true.
Proof. destruct s; [done|]. cbn [endsWith]. by rewrite String.eqb_refl. Qed.

Lemma endsWith_app s suffix : endsWith (String.append s suffix) suffix = true.
Proof.
  induction s as [|c s IH]; [apply endsWith_refl|].
  simpl. rewrite IH. apply orb_true_r.
Qed.

Lemma startsWith_app p s : startsWith (String.append p s) p = true.
Proof.
  induction p as [|c p IH]; simpl; [by destruct s|].
  by rewrite Ascii.eqb_refl.
Qed.

Lemma startsWith_inv s p :
  startsWith s p = true → ∃ rest, s = String.append p rest.
Proof.
  revert s. induction p as [|c p IH]; intros s.
  - exists s. done.
  - destruct s as [|d s]; [done|]. cbn [startsWith].
    intros [->%Ascii.eqb_eq Hs]%andb_true_iff.
    destruct (IH s Hs) as [rest ->]. by exists rest.
Qed.

Lemma skip_app p s : skip (String.length p) (String.append p s) = s.
Proof. induction p as [|c p IH]; simpl; [done|]. apply IH. Qed.

Lemma replace_unfold s p r :
  replace s p r =
  if startsWith s p then String.append r (skip (String.length p) s)
  else match s with
       | EmptyString => EmptyString
       | String c rest => String c (replace rest p r)
       end.
Proof. by destruct s. Qed.

Lemma replace_prefix p r s :
  replace (String.append p s) p r = String.append r s.
Proof. by rewrite replace_unfold, startsWith_app, skip_app. Qed.

(** X26.  The API base always ends in [/api], and computing it again
    changes nothing.  On a page served over https, a base URL that begins
    with [http://] is rewritten to begin with [https://], the rest
    unchanged; anywhere else, and for every other URL, [ensureHttps] is the
    identity. *)
Theorem api_base_url_shape (protocol VITE_API_BASE_URL : option string) :
  let base := BASE_URL protocol VITE_API_BASE_URL in
  endsWith (API_BASE_URL base) "/api" = true
  ∧ API_BASE_URL (API_BASE_URL base) = API_BASE_URL base
  ∧ (API_BASE_URL base = base ∨ API_BASE_URL base = String.append base "/api")
  ∧ (∀ rest, ensureHttps (Some "https:") (String.append "http://" rest)
             = String.append "https://" rest)
  ∧ (∀ url, startsWith url "http://" = false → ensureHttps protocol url = url)
  ∧ (∀ url, protocol ≠ Some "https:" → ensureHttps protocol url = url)
  ∧ (protocol = Some "https:" → startsWith base "http://" = false).
Proof.
  cbv zeta.
  assert (Hends : ∀ b, endsWith (API_BASE_URL b) "/api" = true).
  { intros b. unfold API_BASE_URL. destruct (endsWith b "/api") eqn:Hb; [done|].
    apply endsWith_app. }
  assert (Hup : ∀ rest, ensureHttps (Some "https:") (String.append "http://" rest)
                        = String.append "https://" rest).
  { intros rest. unfold ensureHttps.
    rewrite (startsWith_app "http://" rest). cbn [String.eqb Ascii.eqb Bool.eqb andb].
    apply (replace_prefix "http://" "https://" rest). }
  split_and!.
  - apply Hends.
  - unfold API_BASE_URL at 1. by rewrite Hends.
  - unfold API_BASE_URL. destruct (endsWith _ "/api"); tauto.
  - apply Hup.
  - intros url Hurl. unfold ensureHttps. destruct protocol; [|done].
    by rewrite Hurl, andb_false_r.
  - intros url Hp. unfold ensureHttps. destruct protocol as [p|]; [|done].
    destruct (String.eqb_spec p "https:") as [->|]; done.
  - intros ->. unfold BASE_URL.
    set (url := match VITE_API_BASE_URL with Some u => _ | None => _ end).
    clearbody url.
    destruct (startsWith url "http://") eqn:Hs.
    + apply startsWith_inv in Hs as [rest ->]. by rewrite Hup.
    + unfold ensureHttps. by rewrite Hs, andb_false_r.
Qed.
End UrlFacts.

Section UploadFilterFacts.
Import Upload.
Variable extname : string → string.
Variable toLowerCase : string → string.

(** X27.  The filter of the two-file upload accepts a file only under the
    field [video] or [thumbnail], and never a file whose extension
    lower-cases to the empty string (so none without an extension, the
    empty string being its own lower case) or whose MIME type is empty,
    whatever the rest says.  A file under [video] whose lower-cased
    extension is one of the listed ones and whose MIME type begins with
    [video/] is accepted; likewise for [thumbnail] and [image/]. *)
Theorem fileFilter_requirements (f : file) :
  (fileFilter extname toLowerCase f = Accept →
   (fieldname f = "video" ∨ fieldname f = "thumbnail")
   ∧ toLowerCase (extname (originalname f)) ≠ ""
   ∧ (toLowerCase "" = "" → extname (originalname f) ≠ "")
   ∧ mimetype f ≠ "")
  ∧ (fieldname f ≠ "video" → fieldname f ≠ "thumbnail" →
     fileFilter extname toLowerCase f = Reject "Invalid file type!")
  ∧ (fieldname f = "video" →
     toLowerCase (extname (originalname f))
       ∈ [".mp4"; ".mov"; ".avi"; ".wmv"; ".flv"; ".webm"; ".mkv"] →
     startsWith (mimetype f) "video/" = true →
     fileFilter extname toLowerCase f = Accept)
  ∧ (fieldname f = "thumbnail" →
     toLowerCase (extname (originalname f))
       ∈ [".jpeg"; ".jpg"; ".png"; ".gif"; ".webp"] →
     startsWith (mimetype f) "image/" = true →
     fileFilter extname toLowerCase f = Accept).
Proof.
  unfold fileFilter, videoFilter, imageFilter. cbv zeta.
  assert (Hv : test_words video_words "" = false) by done.
  assert (Hi : test_words image_words "" = false) by done.
  split_and!.
  - destruct (String.eqb_spec (fieldname f) "video") as [Hf|Hf].
    + destruct (test_words video_words (toLowerCase _)) eqn:Hext; [|done].
      destruct (test_words video_words (mimetype f) || _) eqn:Hmime; [|done].
      intros _. split_and!; [by left| | |].
      * intros He. by rewrite He in Hext.
      * intros Hempty He. by rewrite He, Hempty in Hext.
      * intros Hm. by rewrite Hm in Hmime.
    + destruct (String.eqb_spec (fieldname f) "thumbnail") as [Hf'|Hf']; [|done].
      destruct (test_words image_words (toLowerCase _)) eqn:Hext; [|done].
      destruct (test_words image_words (mimetype f) || _) eqn:Hmime; [|done].
      intros _. split_and!; [by right| | |].
      * intros He. by rewrite He in Hext.
      * intros Hempty He. by rewrite He, Hempty in Hext.
      * intros Hm. by rewrite Hm in Hmime.
  - intros Hv'%String.eqb_neq Ht'%String.eqb_neq. by rewrite Hv', Ht'.
  - intros -> Hext Hmime. simpl. rewrite Hmime, orb_true_r.
    cases_in Hext; by rewrite Hext.
  - intros -> Hext Hmime. simpl. rewrite Hmime, orb_true_r.
    cases_in Hext; by rewrite Hext.
Qed.
End UploadFilterFacts.

(** ** The project form *)

Section DashboardFacts.
Import CloudinaryClient Dashboard.
Implicit Types (fd : body) (st : editor).

Lemma without_index_length {A} (l : list A) index :
  List.length (without_index index l)
  = if (index <? List.length l)%nat then pred (List.length l) else List.length l.
Proof.
  revert index. induction l as [|x l IH]; intros index; [by destruct index|].
  destruct index as [|index]; simpl; [done|].
  rewrite IH. change (S index <? S (List.length l))%nat with (index <? List.length l)%nat.
  destruct (Nat.ltb_spec index (List.length l)); [|done].
  destruct l; simpl in *; lia.
Qed.

Lemma without_index_last {A} (l : list A) x :
  without_index (List.length l) (l ++ [x]) = l.
Proof. induction l as [|y l IH]; simpl; [done|]. by rewrite IH. Qed.

Lemma without_index_sublist {A} (l : list A) index x :
  x ∈ without_index index l → x ∈ l.
Proof.
  revert index. induction l as [|y l IH]; intros index; [by destruct index|].
  destruct index as [|index]; simpl.
  - intros Hin. apply elem_of_cons. by right.
  - intros [->|Hin]%elem_of_cons; apply elem_of_cons; [by left|right; by eapply IH].
Qed.

Lemma without_index_fmap {A B} (f : A → B) (l : list A) index :
  without_index index (f <$> l) = f <$> without_index index l.
Proof.
  revert index. induction l as [|y l IH]; intros index; [by destruct index|].
  destruct index as [|index]; simpl; [done|]. by rewrite IH.
Qed.

(** X28.  The lists of the project form hold trimmed, non-empty strings
    and keep doing so: adding an item appends the trimmed text, and only
    when something is left of it after trimming; removing an item takes out
    the one at the given position, and nothing when the position is past
    the end; adding an item and removing the last one gives the list
    back. *)
Theorem form_lists_stay_clean (field input : string) fd (l : list string) :
  Body.get field fd = JArr (JStr <$> l) →
  Forall (λ s, s ≠ "" ∧ trim s = s) l →
  (∃ fd' emptied l',
     add_item field input fd = Some (fd', emptied)
     ∧ Body.get field fd' = JArr (JStr <$> l')
     ∧ l' = (if emptied then l ++ [trim input] else l)%list
     ∧ Forall (λ s, s ≠ "" ∧ trim s = s) l'
     ∧ (emptied = true ↔ trim input ≠ "")
     ∧ remove_item field (List.length l) fd'
       = Some (Body.set field (JArr (JStr <$> l)) fd'))
  ∧ (∀ index, ∃ l',
       remove_item field index fd = Some (Body.set field (JArr (JStr <$> l')) fd)
       ∧ l' = without_index index l
       ∧ Forall (λ s, s ≠ "" ∧ trim s = s) l'
       ∧ List.length l'
         = if (index <? List.length l)%nat then pred (List.length l) else List.length l).
Proof.
  intros Hget Hclean. split.
  - unfold add_item. rewrite Hget. simpl.
    destruct (String.eqb_spec (trim input) "") as [Hblank|Hkept]; simpl.
    + exists fd, false, l. rewrite Hget. split_and!; [done..| |].
      * split; [done|]. by intros [].
      * unfold remove_item. rewrite Hget, without_index_fmap.
        replace (without_index (List.length l) l) with l; [done|].
        clear. induction l as [|x l IH]; simpl; [done|]. by rewrite <- IH.
    + eexists _, true, _. rewrite get_set_eq. split_and!; [done| |done| |done|].
      * by rewrite fmap_app.
      * apply Forall_app. split; [done|]. repeat constructor; [done|].
        apply trim_idemp.
      * unfold remove_item. rewrite get_set_eq.
        by rewrite <- (length_fmap JStr l), without_index_last.
  - intros index. exists (without_index index l).
    unfold remove_item. rewrite Hget, without_index_fmap. split_and!; [done|done| |].
    + apply Forall_forall. intros s Hs%without_index_sublist.
      by eapply Forall_forall in Hclean.
    + apply without_index_length.
Qed.




End DashboardFacts.

(** ** Instances on the sample data *)

Import Examples.

Lemma uploads_paired_demo ok : uploads_paired (services_with ok).
Proof. intros k input url publicId [= <- <-]. by split. Qed.

Lemma pairs_supplied_clip : pairs_supplied_together clip_with_pair.
Proof. split; [right|left]; [|done]. eexists _, _. by split_and!. Qed.

(** Witness of C9 on a form with an empty [features[2]]. *)
Lemma falsy_entries_dropped_witness :
  ∃ l, Body.get "features"
         (normalize_arrays (JSON_parse (services_with true)) indexed_form) = JArr l
       ∧ JStr "" ∉ l.
Proof.
  destruct (proj1 (falsy_entries_dropped (services_with true) "features"
                     (json_request demo_id indexed_form) (world_of [demo])
                     (or_introl eq_refl) ltac:(compute_done) ltac:(by vm_compute)))
    as (l & Hl & _ & Hno).
  by exists l.
Defined.

(** Witness of C1: deleting [demo] while the media store is down. *)
Lemma deleteProject_media_failure_witness :
  status (deleteProject (services_with false) (json_request demo_id []) (world_of [demo])).1
  = 500
  ∧ projects (deleteProject (services_with false) (json_request demo_id [])
                (world_of [demo])).2 !! demo_id = Some demo.
Proof.
  destruct (deleteProject_media_failure (services_with false)
              (json_request demo_id []) (world_of [demo]) demo)
    as (Hs & Hp & _); [reflexivity|by vm_compute|left; by split|].
  split; [exact Hs|]. rewrite Hp. by vm_compute.
Defined.

(** C2, as stated, fails: a create whose body names a video URL and no
    publicId succeeds and stores the URL next to an empty publicId. *)
Lemma url_without_publicId_stored :
  ¬ (∀ (E : services) (req : request) (w : world) (doc : Project),
       (addProject E req w).1
       = send 201 (One (Some "Project added successfully") (Some doc)) →
       media_paired doc).
Proof.
  intros H.
  destruct (H (services_with true) (json_request "" url_only) (world_of [])
              (apply_body url_only (blank "65f0000000000000000000aa" 1700000000000)))
    as [[_ Hv] _]; [by vm_compute|].
  by specialize (Hv eq_refl).
Qed.

(** Witness of C2: creating, then updating, with a complete video pair. *)
Lemma media_pairing_after_write_witness :
  (∃ doc, (addProject (services_with true) (json_request demo_id clip_with_pair)
             (world_of [demo])).1
          = send 201 (One (Some "Project added successfully") (Some doc))
          ∧ media_paired doc)
  ∧ (∃ doc, (updateProject (services_with true) (json_request demo_id clip_with_pair)
               (world_of [demo])).1
            = send 200 (One (Some "Project updated successfully") (Some doc))
            ∧ media_paired doc).
Proof.
  destruct (media_pairing_after_write (services_with true)
              (json_request demo_id clip_with_pair) (world_of [demo])
              (uploads_paired_demo true) pairs_supplied_clip) as [Hadd Hupd].
  split.
  - destruct Hadd as (doc & Hr & Hp & _); [by vm_compute|]. by exists doc.
  - destruct Hupd as (doc & Hr & Hp & _).
    + intros existing. replace (projects (world_of [demo]) !! _) with (Some demo)
        by (by vm_compute).
      intros [= <-]. split; by split.
    + by vm_compute.
    + by exists doc.
Defined.

(** Witness of C8: two records are listed, and listed again. *)
Lemma getProjects_newest_first_witness :
  (getProjects (services_with true) (json_request "" [])
     (world_of [MoreExamples.sketch; demo])).1
  = send 200 (Many 2 [demo; MoreExamples.sketch])
  ∧ (getProjects (services_with true) (json_request "" [])
       (getProjects (services_with true) (json_request "" [])
          (world_of [MoreExamples.sketch; demo])).2).1
    = send 200 (Many 2 [demo; MoreExamples.sketch]).
Proof.
  assert (Hlisting : newest_first_listing
                       (projects (world_of [MoreExamples.sketch; demo]))
                       [demo; MoreExamples.sketch]).
  { split.
    - match goal with
      | |- _ ≡ₚ ?r => let r' := eval vm_compute in r in change r with r'
      end.
      first [reflexivity | apply Permutation_swap].
    - repeat constructor. unfold newer_first. simpl. lia. }
  destruct (getProjects_newest_first (services_with true) (json_request "" [])
              (world_of [MoreExamples.sketch; demo]))
    as (Hsame & _ & _ & _ & Hlist).
  destruct (Hlist [demo; MoreExamples.sketch] ltac:(by vm_compute)) as (Hfirst & Hrest).
  split; [exact Hfirst|].
  destruct (Hrest Hlisting) as (_ & _ & Hsecond).
  rewrite <- Hsame in Hlisting.
  by destruct (Hsecond (json_request "" []) [demo; MoreExamples.sketch]
                 ltac:(by vm_compute) Hlisting) as (-> & _).
Defined.

(** C8, as stated, fails on two counts.  A store that rejects the listing
    query gets no list at all but the reply 500.  And a store that lists
    newest first is free in the order of records of the same age: asked
    twice with no write in between, it may answer in two different orders,
    each of them newest first, and [getProjects] passes both on. *)
Lemma listing_rejected_or_reordered :
  (getProjects MoreExamples.offline (json_request "" []) (world_of [demo])).1
  = send 500 (Failure "Error fetching projects" "connection lost")
  ∧ (let first := getProjects MoreExamples.undecided (json_request "" [])
                    (world_of [MoreExamples.sketch; MoreExamples.twin]) in
     let again := getProjects MoreExamples.undecided (json_request "" []) first.2 in
     projects first.2 = projects (world_of [MoreExamples.sketch; MoreExamples.twin])
     ∧ newest_first_listing (projects first.2) [MoreExamples.sketch; MoreExamples.twin]
     ∧ newest_first_listing (projects first.2) [MoreExamples.twin; MoreExamples.sketch]
     ∧ first.1 = send 200 (Many 2 [MoreExamples.sketch; MoreExamples.twin])
     ∧ again.1 = send 200 (Many 2 [MoreExamples.twin; MoreExamples.sketch])
     ∧ again.1 ≠ first.1).
Proof.
  split; [by vm_compute|]. cbv zeta.
  assert (Hfirst : (getProjects MoreExamples.undecided (json_request "" [])
                      (world_of [MoreExamples.sketch; MoreExamples.twin])).1
                   = send 200 (Many 2 [MoreExamples.sketch; MoreExamples.twin]))
    by (by vm_compute).
  assert (Hagain : (getProjects MoreExamples.undecided (json_request "" [])
                      (getProjects MoreExamples.undecided (json_request "" [])
                         (world_of [MoreExamples.sketch; MoreExamples.twin])).2).1
                   = send 200 (Many 2 [MoreExamples.twin; MoreExamples.sketch]))
    by (by vm_compute).
  assert (Hkept : projects (getProjects MoreExamples.undecided (json_request "" [])
                              (world_of [MoreExamples.sketch; MoreExamples.twin])).2
                  = projects (world_of [MoreExamples.sketch; MoreExamples.twin])).
  { rewrite getProjects_run. by destruct (find_sorted _ _ _). }
  rewrite Hfirst, Hagain, Hkept. split_and!; [done| | |done|done|discriminate].
  - split.
    + match goal with
      | |- _ ≡ₚ ?r => let r' := eval vm_compute in r in change r with r'
      end.
      first [reflexivity | apply Permutation_swap].
    + repeat constructor. unfold newer_first. simpl. lia.
  - split.
    + match goal with
      | |- _ ≡ₚ ?r => let r' := eval vm_compute in r in change r with r'
      end.
      first [reflexivity | apply Permutation_swap].
    + repeat constructor. unfold newer_first. simpl. lia.
Qed.

(** Witness of C3: a malformed id, and a well-formed id nobody has. *)
Lemma malformed_and_unknown_ids_witness :
  status (getProject (services_with true) (json_request "nope" []) (world_of [demo])).1 = 400
  ∧ db_calls (deleteProject (services_with true) (json_request "nope" [])
                (world_of [demo])).2 = []
  ∧ status (updateProject (services_with true) (json_request unknown_id [])
              (world_of [demo])).1 = 404.
Proof.
  pose proof (proj1 (malformed_and_unknown_ids (services_with true)
                       (json_request "nope" []) (world_of [demo])) eq_refl)
    as (Hg & _ & Hd).
  pose proof (proj2 (malformed_and_unknown_ids (services_with true)
                       (json_request unknown_id []) (world_of [demo]))
                eq_refl ltac:(by vm_compute))
    as (_ & Hu & _).
  rewrite Hg, Hd, Hu. by split_and!.
Defined.

(** C4, as stated, fails: a record that stores no video publicId gets a new
    pair, whose publicId differs from the stored (empty) one, and no
    deletion is issued. *)
Lemma update_without_stored_publicId :
  ¬ (∀ (E : services) (req : request) (w : world) (existing : Project),
       ObjectId_isValid E (params_id req) = true →
       projects w !! params_id req = Some existing →
       truthy (Body.get "cloudinaryVideoUrl" (req_body req)) = true →
       truthy (Body.get "cloudinaryVideoPublicId" (req_body req)) = true →
       Body.get "cloudinaryVideoPublicId" (req_body req)
       ≠ JStr (cloudinaryVideoPublicId existing) →
       destroyed Video (media_calls (updateProject E req w).2)
       = [cloudinaryVideoPublicId existing]).
Proof.
  intros H.
  specialize (H (services_with true) (json_request demo_id new_video)
                (world_of [plain]) plain).
  assert (Hc : destroyed Video
                 (media_calls (updateProject (services_with true)
                                 (json_request demo_id new_video) (world_of [plain])).2)
               = []) by (by vm_compute).
  rewrite Hc in H.
  assert (Hnil : [] = [cloudinaryVideoPublicId plain]); [|discriminate Hnil].
  apply H; [reflexivity|by vm_compute|reflexivity|reflexivity|discriminate].
Qed.

(** Witness of C4: replacing the video of [demo]. *)
Lemma update_replaces_media_witness :
  ∃ calls,
    media_calls (updateProject (services_with true) (json_request demo_id new_video)
                   (world_of [demo])).2 = calls
    ∧ destroyed Video calls = ["project-videos/v1"].
Proof.
  destruct (update_replaces_media (services_with true) (json_request demo_id new_video)
              (world_of [demo]) demo eq_refl ltac:(by vm_compute))
    as (calls & Hc & Hv & _).
  exists calls. split; [exact Hc|].
  by apply Hv.
Defined.


(** Witness of C7: without a secret, and with a folder to trim. *)
Lemma signature_payload_witness :
  Signature.status (Signature.cloudinary_signature demo_sign no_cloud_env 1700000000499
                      (JStr "videos") (JStr "video")) = 500
  ∧ ∀ k v, (k, v) ∈ [("folder", JStr "videos"); ("timestamp", JNum 1700000000)] →
      k = "timestamp" ∧ v = JNum (Signature.seconds 1700000000499)
      ∨ k = "folder" ∧ ∃ s, JStr " videos " = JStr s ∧ trim s ≠ "" ∧ v = JStr (trim s).
Proof.
  split.
  - apply (proj1 (signature_payload demo_sign no_cloud_env 1700000000499
                    (JStr "videos") (JStr "video"))).
    by left.
  - apply (proj1 (proj2 (signature_payload demo_sign cloud_env 1700000000499
                           (JStr " videos ") (JStr "video")))
             "secret" "key" "cloud" eq_refl ltac:(discriminate)
             eq_refl ltac:(discriminate) eq_refl ltac:(discriminate)
             [("folder", JStr "videos"); ("timestamp", JNum 1700000000)] eq_refl).
Defined.

(** C7, as stated, fails: a folder made of blanks is a non-empty folder,
    yet the signed parameters hold no folder at all; the guard
    [folder && folder.trim()] leaves it out. *)
Lemma blank_folder_not_signed :
  ¬ (∀ (s : string) (now_ms : Z), s ≠ "" →
       ∃ ps, Signature.signed_params (JStr s) now_ms = Some ps
             ∧ ("folder", JStr (trim s)) ∈ ps).
Proof.
  intros H. destruct (H "  " 0%Z) as (ps & Hps & Hin); [discriminate|].
  vm_compute in Hps. injection Hps as <-.
  apply list_elem_of_singleton in Hin. discriminate Hin.
Qed.

(** Witness of C10: while the timer of the burst is pending a further call
    leaves it alone, and when it fires the second call's arguments are
    applied; after the burst nothing is pending, a call fifty milliseconds
    later sets a timer and a call two hundred milliseconds later runs at
    once. *)
Lemma throttled_trailing_invocation_witness :
  (List.length (Throttle.timers after_burst) <= 1)%nat
  ∧ Throttle.applied (Throttle.throttled 100 1300 "third" after_burst)
    = (Throttle.applied after_burst ++ [(1300%Z, Some "third")])%list
  ∧ (∃ st', Throttle.step 100 MoreExamples.during_burst (Throttle.Fire 1 1100) = Some st'
            ∧ Throttle.applied st' = [(1000%Z, Some "first"); (1100%Z, Some "second")]
            ∧ Throttle.timers st' = [])
  ∧ Throttle.timers (Throttle.throttled 100 1080 "third" MoreExamples.during_burst)
    = [(1%positive, 50%Z)]
  ∧ Throttle.applied (Throttle.throttled 100 1150 "third" after_burst)
    = Throttle.applied after_burst
  ∧ Throttle.timers (Throttle.throttled 100 1150 "third" after_burst)
    = [(2%positive, 50%Z)].
Proof.
  destruct (throttled_trailing_invocation 100 burst after_burst eq_refl)
    as (Hone & _ & _ & Hquiet & _ & _ & Hopen).
  destruct (throttled_trailing_invocation 100
              [Throttle.Call 1000 "first"; Throttle.Call 1050 "second"]
              MoreExamples.during_burst eq_refl)
    as (_ & _ & _ & _ & _ & Hfire & Hbusy).
  split_and!.
  - exact Hone.
  - apply Hquiet. simpl. lia.
  - destruct (Hfire 1%positive 50%Z 1100%Z) as (a & st' & Ha & Hstep & Happ & Ht & _);
      [apply list_elem_of_here|].
    simpl in Ha. injection Ha as <-.
    exists st'. by split_and!.
  - destruct (Hbusy 1080%Z "third") as (_ & _ & Hkept); [simpl; lia|].
    by apply Hkept.
  - by destruct (Hopen 1150%Z "third") as (Hnone & _); [simpl; lia|].
  - destruct (Hopen 1150%Z "third") as (_ & Hset & _); [simpl; lia|].
    by apply Hset.
Defined.

(** ** More instances on the sample data *)

Import MoreExamples.


(** Witness of X3: the video of [filmed] is deleted, its thumbnail is not. *)
Lemma deleteProject_partial_failure_witness :
  status (deleteProject (with_destroy videos_only (services_with true))
            (json_request demo_id []) (world_of [filmed])).1 = 500
  ∧ projects (deleteProject (with_destroy videos_only (services_with true))
                (json_request demo_id []) (world_of [filmed])).2 !! demo_id = Some filmed.
Proof.
  destruct (proj2 (deleteProject_partial_failure
                     (with_destroy videos_only (services_with true))
                     (json_request demo_id []) (world_of [filmed]) filmed
                     eq_refl ltac:(by vm_compute))
              ltac:(done) eq_refl ltac:(done) eq_refl)
    as (Hs & Hp & _).
  by split.
Defined.

(** Witness of X5: removing the video of [demo]. *)
Lemma updateProject_removes_video_witness :
  ∃ doc, projects (updateProject (services_with true) (json_request demo_id remove_video)
                     (world_of [demo])).2 !! demo_id = Some doc
         ∧ cloudinaryVideoUrl doc = "" ∧ cloudinaryVideoPublicId doc = "".
Proof.
  destruct (updateProject_removes_video (services_with true)
              (json_request demo_id remove_video) (world_of [demo]) demo
              eq_refl ltac:(by vm_compute) eq_refl eq_refl ltac:(done))
    as (_ & Hdoc).
  destruct Hdoc as (doc & _ & Hp & Hu & Hi); [by vm_compute|].
  by exists doc.
Defined.

(** Witness of X6: a new video for [demo] that the media store rejects. *)
Lemma updateProject_upload_rejected_witness :
  status (updateProject no_uploads (multipart_request demo_id []) (world_of [demo])).1 = 500
  ∧ media_calls (updateProject no_uploads (multipart_request demo_id [])
                   (world_of [demo])).2
    = [Destroy Video "project-videos/v1"; Upload Video "clip.mp4"].
Proof.
  destruct (updateProject_upload_rejected no_uploads (multipart_request demo_id [])
              (world_of [demo]) demo "clip.mp4"
              eq_refl ltac:(by vm_compute) eq_refl eq_refl eq_refl eq_refl)
    as (Hr & _ & _ & Hm).
  split; [by rewrite Hr|exact Hm].
Defined.

(** Witness of X7: a JSON create that names a video pair, on a store that
    takes it and on a store that has lost its connection. *)
Lemma addProject_json_no_media_witness :
  media_calls (addProject (services_with true) (json_request "" clip_with_pair)
                 (world_of [])).2 = []
  ∧ (addProject offline (json_request "" clip_with_pair) (world_of [])).1
    = send 500 (Failure "Error adding project" "connection lost").
Proof.
  destruct (addProject_json_no_media (services_with true)
              (json_request "" clip_with_pair) (world_of []) eq_refl)
    as (Hm & _).
  destruct (addProject_json_no_media offline
              (json_request "" clip_with_pair) (world_of []) eq_refl)
    as (_ & _ & _ & Hrejected & _).
  split; [exact Hm|]. by apply Hrejected.
Defined.

(** Witness of X8: a multipart create whose video is rejected. *)
Lemma addProject_upload_rejected_witness :
  status (addProject no_uploads (multipart_request "" clip) (world_of [])).1 = 500
  ∧ db_calls (addProject no_uploads (multipart_request "" clip) (world_of [])).2 = [].
Proof.
  destruct (proj1 (addProject_upload_rejected no_uploads (multipart_request "" clip)
                     (world_of []) "clip.mp4" eq_refl eq_refl) eq_refl)
    as (Hr & _ & Hd & _).
  split; [by rewrite Hr|exact Hd].
Defined.

(** Witness of X9: a clip is created, then read. *)
Lemma written_record_is_read_back_witness :
  status (getProject (services_with true) (json_request "65f0000000000000000000aa" [])
            (addProject (services_with true) (json_request "" clip_with_pair)
               (world_of [])).2).1 = 200.
Proof.
  destruct (written_record_is_read_back (services_with true)
              (json_request "" clip_with_pair) (world_of [])) as (Hadd & _).
  erewrite Hadd; [done|by vm_compute|done|done].
Defined.

(** Witness of X10: three features, the second one empty, are created. *)
Lemma indexed_fields_round_trip_witness :
  ∃ doc,
    (addProject (services_with true)
       (json_request ""
          (clip ++ indexed_fields "features" [JStr "a"; JStr ""; JStr "b"])%list)
       (world_of [])).1
    = send 201 (One (Some "Project added successfully") (Some doc))
    ∧ projects (addProject (services_with true)
                  (json_request ""
                     (clip ++ indexed_fields "features" [JStr "a"; JStr ""; JStr "b"])%list)
                  (world_of [])).2 !! _id doc = Some doc
    ∧ features doc = ["a"; "b"].
Proof.
  destruct (indexed_fields_round_trip (services_with true) "features"
              [JStr "a"; JStr ""; JStr "b"] clip
              (or_introl eq_refl) ltac:(discriminate) ltac:(by vm_compute) eq_refl
              ltac:(compute_done))
    as (_ & _ & Hstored).
  assert (Hreply : ∃ doc,
            (addProject (services_with true)
               (json_request ""
                  (clip ++ indexed_fields "features" [JStr "a"; JStr ""; JStr "b"])%list)
               (world_of [])).1
            = send 201 (One (Some "Project added successfully") (Some doc)))
    by (eexists; by vm_compute).
  destruct Hreply as [doc Hreply]. exists doc.
  destruct (proj1 (Hstored ["a"; ""; "b"]
                     (json_request ""
                        (clip ++ indexed_fields "features"
                                   [JStr "a"; JStr ""; JStr "b"])%list)
                     (world_of []) doc eq_refl eq_refl) Hreply)
    as (Hkept & Hlist).
  split_and!; [exact Hreply|exact Hkept|exact Hlist].
Defined.

(** Witness of X11: the indexed keys of the sample form. *)
Lemma indexed_keys_consumed_witness :
  "features[2]" ∉ Body.keys (normalize_arrays (JSON_parse (services_with true)) indexed_form).
Proof.
  destruct (indexed_keys_consumed (JSON_parse (services_with true)) indexed_form
              ltac:(compute_done))
    as (Hgone & _).
  apply Hgone. left. by exists 2%N.
Defined.

(** Witness of X14: a third keystroke restarts the timer. *)
Lemma debounce_trailing_witness :
  Debounce.applied (Debounce.debounced 100 false 90 "abc" after_typing) = [].
Proof.
  destruct (debounce_trailing 100 false typing after_typing eq_refl eq_refl)
    as (_ & Hcall & _).
  by destruct (Hcall 90%Z "abc") as (-> & _).
Defined.

(** Witness of X15: on the leading edge the second keystroke is swallowed. *)
Lemma debounce_leading_witness :
  Debounce.applied (Debounce.debounced 100 true 90 "abc" after_typing_leading)
  = [(0%Z, "a")].
Proof.
  destruct (debounce_leading 100 true typing after_typing_leading eq_refl eq_refl)
    as (_ & Hcall & _).
  by rewrite Hcall.
Defined.

(** Witness of X12: the burst made two calls and two applications. *)
Lemma throttle_applies_at_most_once_per_call_witness :
  (List.length (Throttle.applied after_burst)
   + List.length (Throttle.timers after_burst) <= 2)%nat.
Proof.
  exact (throttle_applies_at_most_once_per_call 100 burst after_burst eq_refl).
Defined.

(** Witness of X13: the burst ends with the second call's arguments. *)
Lemma throttle_keeps_last_call_witness :
  ∃ t, last (Throttle.applied after_burst) = Some (t, Some "second").
Proof.
  exact (throttle_keeps_last_call 100 burst after_burst "second" eq_refl eq_refl eq_refl).
Defined.

(** Witness of X17: a desktop that hides its core count. *)
Lemma unknown_core_count_is_penalised_witness :
  Performance.quality (Performance.getDevicePerformance shy_desktop) ≠ "high".
Proof.
  by destruct (unknown_core_count_is_penalised shy_desktop (or_introl eq_refl))
    as (_ & _ & Hq).
Defined.

(** Witness of X19: logging in and out over the same connection. *)
Lemma logout_clears_login_cookie_witness :
  Session.logout_status (Session.logoutUser demo_env (login_request "admin" "s3cret")) = 200.
Proof.
  by destruct (logout_clears_login_cookie demo_jwt_sign demo_env [admin]
                 (login_request "admin" "s3cret") (login_request "admin" "s3cret")
                 eq_refl eq_refl)
    as (Hs & _).
Defined.

(** Witness of X20: a signed video upload into a folder. *)
Lemma signed_form_matches_signature_witness :
  ∃ fields,
    CloudinaryClient.build_form CloudinaryClient.video "clip.mp4" " videos "
      CloudinaryClient.empty_config
      (CloudinaryClient.uploadParams
         (Backend.signature_endpoint demo_sign cloud_env 1700000000499
            {| CloudinaryClient.sent_folder := " videos ";
               CloudinaryClient.sent_resource_type := "video" |}))
    = Some fields
    ∧ ("folder", CloudinaryClient.Field (JStr "videos")) ∈ fields.
Proof.
  destruct (signed_form_matches_signature demo_sign cloud_env 1700000000499
              CloudinaryClient.video "clip.mp4" " videos " CloudinaryClient.empty_config
              "secret" "key" "cloud"
              (or_introl eq_refl) eq_refl ltac:(done) eq_refl ltac:(done)
              eq_refl ltac:(done))
    as (ps & fields & Hps & Hform & _ & _ & Hall & _).
  { intros ps. unfold demo_sign. by destruct (List.length ps =? 1)%nat. }
  exists fields. split; [exact Hform|].
  apply Hall. vm_compute in Hps. injection Hps as <-. apply list_elem_of_here.
Defined.

(** Witness of X22: the configuration comes from the back end, and the
    upload asks for one signature. *)
Lemma upload_needs_cloud_name_witness :
  (CloudinaryClient.prepare_upload
     (Backend.signature_endpoint demo_sign cloud_env 1700000000499)
     CloudinaryClient.video "clip.mp4" "videos"
     (CloudinaryClient.getCloudinaryConfig bare_client config_reply None).1.1).2
  = [{| CloudinaryClient.sent_folder := "videos";
        CloudinaryClient.sent_resource_type := "video" |}].
Proof.
  pose proof (upload_needs_cloud_name bare_client config_reply None
                (Backend.signature_endpoint demo_sign cloud_env 1700000000499)
                CloudinaryClient.video "clip.mp4" "videos"
                ltac:(by intros cached [=])) as H.
  simpl in H. destruct H as (_ & _ & _ & _ & Hasked).
  by apply Hasked.
Defined.

(** Witness of X28: a feature padded with a no-break space and a blank is
    added trimmed. *)
Lemma form_lists_stay_clean_witness :
  ∃ fd, Dashboard.add_item "features" (String.append no_break_space "typed ") one_feature
        = Some (fd, true)
        ∧ Body.get "features" fd = JArr [JStr "fast"; JStr "typed"].
Proof.
  destruct (proj1 (form_lists_stay_clean "features" (String.append no_break_space "typed ")
                     one_feature ["fast"]
                     eq_refl ltac:(by repeat constructor)))
    as (fd & emptied & l' & Hadd & Hget & -> & _ & Hemptied & _).
  assert (emptied = true) as -> by (by apply Hemptied).
  by exists fd.
Defined.

(** White space outside ASCII is white space to [trim]: a folder or a form
    item made of a no-break space is blank, so the one is not signed and
    the other is not added. *)
Example no_break_space_is_blank :
  trim (String.append no_break_space (String.append "videos" no_break_space)) = "videos"
  ∧ Signature.signed_params (JStr no_break_space) 1700000000499
    = Some [("timestamp", JNum 1700000000)]
  ∧ Dashboard.add_item "features" no_break_space one_feature = Some (one_feature, false).
Proof. by vm_compute. Qed.

(** Witness of X23: on an origin of ASCII characters lower-casing is
    [fold_case]; the local origin in capitals and with a slash is let
    through. *)
Lemma cors_origin_is_normalised_witness :
  Cors.origin_normalized fold_case None (Some "HTTP://LocalHost:5173/") = Cors.Allowed.
Proof.
  destruct (cors_origin_is_normalised fold_case None)
    as (_ & Hlocal & _ & _ & Hsame & _).
  by apply (Hsame "http://localhost:5173" "HTTP://LocalHost:5173/").
Defined.

(** Witness of X27: a video whose extension is written in capitals. *)
Lemma fileFilter_requirements_witness :
  Upload.fileFilter from_dot fold_case
    {| Upload.fieldname := "video"; Upload.originalname := "clip.MP4";
       Upload.mimetype := "video/mp4" |}
  = Upload.Accept.
Proof.
  destruct (fileFilter_requirements from_dot fold_case
              {| Upload.fieldname := "video"; Upload.originalname := "clip.MP4";
                 Upload.mimetype := "video/mp4" |})
    as (_ & _ & Hvideo & _).
  apply Hvideo; [done| |done].
  apply (list_elem_of_here ".mp4").
Defined.

